(** * Transaction lifecycle of the Hedera JavaScript SDK

    A shallow embedding of
    - [FileAppendTransaction] (chunked file append: setters, [freezeWith],
      [executeAll], [_makeTransactionData]), and
    - [Transaction] of [src/Transaction.ts] ([fromBytes], [toBytes],
      [toProto], [sign], [signWith], [_waitForReceipt]) together with
      [isPrecheckCodeOk] of [src/errors.ts],
    followed by the properties of the specification that concern them.

    JavaScript objects that are mutated in place are modelled by explicit
    state passing; an exception leaves the mutated object behind, so the
    state monad below returns the state together with the outcome.  The
    protobuf messages held by a [Transaction] are shared mutable objects and
    live in an explicit store.  Numbers are IEEE 754 binary64 values with
    their rounded arithmetic. *)

From Stdlib Require Import ZArith QArith Qround List Lia String SpecFloat.
From stdpp Require Import base list gmap.

Local Open Scope Z_scope.
Local Open Scope nat_scope.

(** ** Values shared by both classes *)

Abbreviation bytes := (list Byte.byte).

(** 64-bit two's complement integers ([Long] of long.js), as [Z] with the
    wrap-around written out. *)
Definition wrap64 (z : Z) : Z :=
  ((z + 2 ^ 63) mod 2 ^ 64 - 2 ^ 63)%Z.

Definition Long_add (a b : Z) : Z := wrap64 (a + b).

(** A JavaScript number is an IEEE 754 binary64 value: [spec_float] with
    53 bits of precision and the exponent bound 1024.  The operators are
    the correctly rounded ones of that format. *)
Abbreviation number := spec_float.

Module Number.

(** The number a whole literal of the source denotes. *)
Definition ofZ (z : Z) : number := binary_normalize 53 1024 z 0 false.

Definition add (x y : number) : number := SFadd 53 1024 x y.
Definition sub (x y : number) : number := SFsub 53 1024 x y.
Definition mul (x y : number) : number := SFmul 53 1024 x y.

(** [x > y]; false when one of them is NaN. *)
Definition gt (x y : number) : bool := SFltb y x.

(** [2 ** k] for a whole [k] that is not negative: the power of two, which
    the format holds exactly below 2^1024, and Infinity from there on. *)
Definition pow2 (k : nat) : number :=
  if (Z.of_nat k <? 1024)%Z
  then S754_finite false (2 ^ 52) (Z.of_nat k - 52)
  else S754_infinity false.

(** [Math.floor]: a value whose exponent is not negative is whole already;
    otherwise the mantissa is shifted down, towards minus infinity.  NaN,
    the infinities and the zeros are returned as they are. *)
Definition Math_floor (x : number) : number :=
  match x with
  | S754_finite s m e =>
      if (0 <=? e)%Z then x
      else ofZ (Z.shiftr (cond_Zopp s (Zpos m)) (- e))
  | _ => x
  end.

End Number.

(** (shard, realm, number) *)
Record AccountId : Type := mkAccountId {
  shard : Z;
  realm : Z;
  num : Z
}.

Definition FileId : Type := AccountId.

Record Timestamp : Type := mkTimestamp {
  seconds : Z;
  nanos : Z
}.

Record TransactionId : Type := mkTransactionId {
  accountId : AccountId;
  validStart : Timestamp
}.

Global Instance AccountId_eq_dec : EqDecision AccountId.
Proof. solve_decision. Defined.

Global Instance Timestamp_eq_dec : EqDecision Timestamp.
Proof. solve_decision. Defined.

Global Instance TransactionId_eq_dec : EqDecision TransactionId.
Proof. solve_decision. Defined.

(** [ResponseCodeEnum]: the three codes the client inspects, and all the
    others with their number. *)
Inductive ResponseCode : Type :=
| OK
| UNKNOWN
| SUCCESS
| OtherCode (code : Z).

Global Instance ResponseCode_eq_dec : EqDecision ResponseCode.
Proof. solve_decision. Defined.

(** [isPrecheckCodeOk] of errors.ts *)
Definition isPrecheckCodeOk (code : ResponseCode) (unknownOk : bool) : bool :=
  match code with
  | SUCCESS | OK => true
  | UNKNOWN => unknownOk
  | OtherCode _ => false
  end.

(** ** Results, state and exceptions

    A method runs on a state [S] and either returns or throws an [E]; the
    state it leaves behind is kept in both cases. *)
Inductive Result (E A : Type) : Type :=
| Ok (a : A)
| Err (e : E).
Arguments Ok {E A} a.
Arguments Err {E A} e.

Definition M (E S A : Type) : Type := S → S * Result E A.

Definition ret {E S A} (a : A) : M E S A := λ s, (s, Ok a).
Definition throw {E S A} (e : E) : M E S A := λ s, (s, Err e).
Definition bind {E S A B} (m : M E S A) (k : A → M E S B) : M E S B :=
  λ s, match m s with
       | (s', Ok a) => k a s'
       | (s', Err e) => (s', Err e)
       end.
Definition get {E S} : M E S S := λ s, (s, Ok s).
Definition modify {E S} (f : S → S) : M E S unit := λ s, (f s, Ok tt).

Declare Scope js_scope.
Delimit Scope js_scope with js.
Notation "x <- m ;; k" := (bind m (λ x, k))
  (at level 100, m at next level, right associativity) : js_scope.
Notation "m ;; k" := (bind m (λ _, k))
  (at level 100, right associativity) : js_scope.
Local Open Scope js_scope.

(** ** FileAppendTransaction *)

Module FileAppend.

Inductive Error : Type :=
| AlreadyFrozen
| Immutable                      (* thrown by [_requireNotFrozen] *)
| MissingIdentity                (* "TransactionId not set when freezing" *)
| PayloadTooLarge (size : nat) (maxChunks : Z)
| TypeError                      (* property access on null/undefined *)
| InvalidFileId                  (* [FileId.fromString] rejects the text *)
| PrecheckRejected (code : ResponseCode)
| ConsensusFailure (code : ResponseCode)
| ConsensusTimeout.

(** The body of a file append request, as [_makeTransactionData] builds it. *)
Record FileAppendTransactionBody : Type := mkBody {
  fileID : option FileId;
  contents : option bytes
}.

(** The wire request: node identity, transaction identity and the tagged
    operation body ("fileAppend"). *)
Record ProtoTransaction : Type := mkProtoTransaction {
  nodeAccountID : AccountId;
  transactionID : option TransactionId;
  fileAppend : FileAppendTransactionBody
}.

Record TransactionResponse : Type := mkResponse {
  resp_nodeId : AccountId;
  resp_transactionId : option TransactionId
}.

Record Receipt : Type := mkReceipt {
  receipt_status : ResponseCode
}.

(** What the network has seen of this client so far: the requests
    dispatched, with the index of their chunk, and the identities whose
    receipt was awaited. *)
Inductive Event : Type :=
| EDispatch (group : nat) (request : ProtoTransaction)
| EReceipt (id : option TransactionId).

(** The client: node selection, operator, identity assignment, and the
    network behind it.  The network answers depend on everything it has
    seen before. *)
Record Client : Type := mkClient {
  client_nodeIds : list AccountId;
  operatorAccountId : option AccountId;
  client_generateId : AccountId → TransactionId;
  net_precheck : list Event → ProtoTransaction → ResponseCode;
  net_receipt : list Event → option TransactionId → Result Error Receipt
}.

(** The object: the fields of [FileAppendTransaction] and, below them, the
    fields it inherits from [Transaction]. *)
Record FileAppendTransaction : Type := mkFAT {
  _fileId : option FileId;
  _contents : option bytes;
  _maxChunks : Z;
  _startIndex : nat;
  _transactionIds : list TransactionId;
  _transactionId : option TransactionId;
  _nodeIds : list AccountId;
  _transactions : list ProtoTransaction;
  _nextGroupIndex : nat;
  _frozen : bool;
  _signers : list AccountId
}.

Definition set_fileId v (t : FileAppendTransaction) :=
  mkFAT v (_contents t) (_maxChunks t) (_startIndex t) (_transactionIds t)
    (_transactionId t) (_nodeIds t) (_transactions t) (_nextGroupIndex t)
    (_frozen t) (_signers t).
Definition set_contents v (t : FileAppendTransaction) :=
  mkFAT (_fileId t) v (_maxChunks t) (_startIndex t) (_transactionIds t)
    (_transactionId t) (_nodeIds t) (_transactions t) (_nextGroupIndex t)
    (_frozen t) (_signers t).
Definition set_maxChunks v (t : FileAppendTransaction) :=
  mkFAT (_fileId t) (_contents t) v (_startIndex t) (_transactionIds t)
    (_transactionId t) (_nodeIds t) (_transactions t) (_nextGroupIndex t)
    (_frozen t) (_signers t).
Definition set_startIndex v (t : FileAppendTransaction) :=
  mkFAT (_fileId t) (_contents t) (_maxChunks t) v (_transactionIds t)
    (_transactionId t) (_nodeIds t) (_transactions t) (_nextGroupIndex t)
    (_frozen t) (_signers t).
Definition set_transactionIds v (t : FileAppendTransaction) :=
  mkFAT (_fileId t) (_contents t) (_maxChunks t) (_startIndex t) v
    (_transactionId t) (_nodeIds t) (_transactions t) (_nextGroupIndex t)
    (_frozen t) (_signers t).
Definition set_transactionId v (t : FileAppendTransaction) :=
  mkFAT (_fileId t) (_contents t) (_maxChunks t) (_startIndex t)
    (_transactionIds t) v (_nodeIds t) (_transactions t) (_nextGroupIndex t)
    (_frozen t) (_signers t).
Definition set_nodeIds v (t : FileAppendTransaction) :=
  mkFAT (_fileId t) (_contents t) (_maxChunks t) (_startIndex t)
    (_transactionIds t) (_transactionId t) v (_transactions t)
    (_nextGroupIndex t) (_frozen t) (_signers t).
Definition set_transactions v (t : FileAppendTransaction) :=
  mkFAT (_fileId t) (_contents t) (_maxChunks t) (_startIndex t)
    (_transactionIds t) (_transactionId t) (_nodeIds t) v
    (_nextGroupIndex t) (_frozen t) (_signers t).
Definition set_nextGroupIndex v (t : FileAppendTransaction) :=
  mkFAT (_fileId t) (_contents t) (_maxChunks t) (_startIndex t)
    (_transactionIds t) (_transactionId t) (_nodeIds t) (_transactions t)
    v (_frozen t) (_signers t).
Definition set_frozen v (t : FileAppendTransaction) :=
  mkFAT (_fileId t) (_contents t) (_maxChunks t) (_startIndex t)
    (_transactionIds t) (_transactionId t) (_nodeIds t) (_transactions t)
    (_nextGroupIndex t) v (_signers t).
Definition set_signers v (t : FileAppendTransaction) :=
  mkFAT (_fileId t) (_contents t) (_maxChunks t) (_startIndex t)
    (_transactionIds t) (_transactionId t) (_nodeIds t) (_transactions t)
    (_nextGroupIndex t) (_frozen t) v.

(** The constructor, with [props = {}]. *)
Definition new : FileAppendTransaction :=
  {| _fileId := None; _contents := None; _maxChunks := 10%Z;
     _startIndex := 0; _transactionIds := [];
     _transactionId := None; _nodeIds := []; _transactions := [];
     _nextGroupIndex := 0; _frozen := false; _signers := [] |}.

(** Modelled from the spec: [Transaction._isFrozen] of the base class
    (transaction/Transaction.js is not among the sources); the transaction
    carries a frozen/unfrozen flag. *)
Definition _isFrozen (t : FileAppendTransaction) : bool := _frozen t.

(** Modelled from the spec: [Transaction._requireNotFrozen] of the base
    class; mutation after freezing fails. *)
Definition _requireNotFrozen : M Error FileAppendTransaction unit :=
  t <- get ;;
  if _isFrozen t then throw Immutable else ret tt.

(** [Uint8Array.prototype.subarray(begin, end)] for indices that are not
    negative: both are clamped to the length, and an end before the begin
    gives the empty view. *)
Definition subarray (b : bytes) (begin_ end_ : nat) : bytes :=
  take (end_ - begin_) (drop begin_ b).

Section WithChunkSize.

(** [CHUNK_SIZE] is imported from transaction/Transaction.js. *)
Variable CHUNK_SIZE : nat.

(** [FileId.fromString] and [utf8.encode], imported. *)
Variable FileId_fromString : string → option FileId.
Variable utf8_encode : string → bytes.

Definition setFileId (fileId : FileId + string) : M Error FileAppendTransaction unit :=
  _requireNotFrozen ;;
  match fileId with
  | inl f => modify (set_fileId (Some f))
  | inr s =>
      match FileId_fromString s with
      | Some f => modify (set_fileId (Some f))
      | None => throw InvalidFileId
      end
  end.

Definition setContents (c : bytes + string) : M Error FileAppendTransaction unit :=
  _requireNotFrozen ;;
  modify (set_contents
            (Some match c with inl b => b | inr s => utf8_encode s end)).

Definition setMaxChunks (maxChunks : Z) : M Error FileAppendTransaction unit :=
  _requireNotFrozen ;;
  modify (set_maxChunks maxChunks).

Definition _makeTransactionData (t : FileAppendTransaction)
  : FileAppendTransactionBody :=
  let length := match _contents t with Some c => length c | None => 0 end in
  let endIndex := _startIndex t + CHUNK_SIZE in
  let endIndex := if length <? endIndex then length else endIndex in
  {| fileID := _fileId t;
     contents :=
       match _contents t with
       | Some c => Some (subarray c (_startIndex t) endIndex)
       | None => None
       end |}.

(** Modelled from the spec: [Transaction._makeTransaction] of the base
    class; the request for one node carries the node identity, the current
    transaction identity and the operation body. *)
Definition _makeTransaction (t : FileAppendTransaction) (nodeAccountId : AccountId)
  : ProtoTransaction :=
  {| nodeAccountID := nodeAccountId;
     transactionID := _transactionId t;
     fileAppend := _makeTransactionData t |}.

(** Modelled from the spec: [Transaction.freezeWith] of the base class;
    mutable to frozen, failing when already frozen; the node selection and,
    when none was set, the identity come from the client; one request per
    selected node is built. *)
Definition super_freezeWith (client : option Client) : M Error FileAppendTransaction unit :=
  t <- get ;;
  if _isFrozen t then throw AlreadyFrozen else
  match client with
  | Some c =>
      modify (set_nodeIds (client_nodeIds c)) ;;
      match _transactionId t, operatorAccountId c with
      | None, Some op => modify (set_transactionId (Some (client_generateId c op)))
      | _, _ => ret tt
      end
  | None => ret tt
  end ;;
  modify (λ t, set_frozen true
                 (set_transactions (map (_makeTransaction t) (_nodeIds t)) t)).

(** One round of the loop of [freezeWith]. *)
Definition freeze_chunk (chunk : nat) (nextTransactionId : TransactionId)
    (t : FileAppendTransaction) : FileAppendTransaction * TransactionId :=
  let t := set_startIndex (chunk * CHUNK_SIZE) t in
  let t := set_transactionId (Some nextTransactionId) t in
  let t := set_transactionIds (_transactionIds t ++ [nextTransactionId]) t in
  let t := set_transactions
             (_transactions t ++ map (_makeTransaction t) (_nodeIds t)) t in
  (t, mkTransactionId (accountId nextTransactionId)
        (mkTimestamp (Long_add (seconds (validStart nextTransactionId)) 10)
                     (nanos (validStart nextTransactionId)))).

(** [for (let chunk = 0; chunk < chunks; chunk++)], entered at [chunk] with
    [n = chunks - chunk] rounds to go. *)
Fixpoint freeze_loop (n chunk : nat) (nextTransactionId : TransactionId)
    (t : FileAppendTransaction) : FileAppendTransaction :=
  match n with
  | O => t
  | S n' =>
      let '(t', next') := freeze_chunk chunk nextTransactionId t in
      freeze_loop n' (S chunk) next' t'
  end.

Definition freezeWith (client : option Client) : M Error FileAppendTransaction unit :=
  super_freezeWith client ;;
  t <- get ;;
  match _transactionId t with
  | None => throw MissingIdentity
  | Some initialTransactionId =>
      modify (set_transactionIds [initialTransactionId]) ;;
      match _contents t with
      | None => ret tt
      | Some c =>
          if length c <? CHUNK_SIZE then ret tt else
          let chunks := (length c + (CHUNK_SIZE - 1)) / CHUNK_SIZE in
          if (_maxChunks t <? Z.of_nat chunks)%Z
          then throw (PayloadTooLarge (length c) (_maxChunks t))
          else
            modify (set_transactions []) ;;
            modify (freeze_loop chunks 0 initialTransactionId) ;;
            modify (set_transactionId (Some initialTransactionId)) ;;
            modify (set_startIndex 0)
      end
  end.

End WithChunkSize.

(** *** Execution

    [executeAll] talks to the network; its state is the object together
    with the events so far. *)
Record World : Type := mkWorld {
  this : FileAppendTransaction;
  trace : list Event
}.

Definition lift {A} (m : M Error FileAppendTransaction A) : M Error World A :=
  λ w, let '(t, r) := m (this w) in (mkWorld t (trace w), r).

Definition emit (e : Event) : M Error World unit :=
  modify (λ w, mkWorld (this w) (trace w ++ [e])).

(** Modelled from the spec: [Transaction.signWithOperator] of the base
    class; signing adds the operator's signature pair and changes nothing
    else. *)
Definition super_signWithOperator (op : AccountId) : M Error World unit :=
  lift (modify (λ t, set_signers (_signers t ++ [op]) t)).

(** Modelled from the spec: [Transaction.execute] of the base class, the
    dispatcher; the request of the current chunk goes to its node in exactly
    one call, a code accepted for consensus returns the identity handle, any
    other code fails at once with a precheck rejection. *)
Definition super_execute (client : Client) : M Error World TransactionResponse :=
  w <- get ;;
  let t := this w in
  match _transactions t !! (_nextGroupIndex t * length (_nodeIds t)) with
  | None => throw TypeError
  | Some request =>
      emit (EDispatch (_nextGroupIndex t) request) ;;
      let code := net_precheck client (trace w) request in
      if isPrecheckCodeOk code false
      then ret {| resp_nodeId := nodeAccountID request;
                  resp_transactionId := _transactionId t |}
      else throw (PrecheckRejected code)
  end.

(** Modelled from the spec: [TransactionResponse.getReceipt], the outcome
    resolver, for the identity the response holds; it returns the receipt
    or fails with the resolver's error. *)
Definition getReceipt (response : TransactionResponse) (client : Client)
  : M Error World Receipt :=
  w <- get ;;
  emit (EReceipt (resp_transactionId response)) ;;
  match net_receipt client (trace w) (resp_transactionId response) with
  | Ok r => ret r
  | Err e => throw e
  end.

Section WithChunkSize.

Variable CHUNK_SIZE : nat.

(** The loop of [executeAll]; the loop variable is the field
    [_nextGroupIndex].  [fuel] bounds the rounds and is [transactionCount]
    at the call, which the loop never exceeds. *)
Fixpoint executeAll_loop (client : Client) (fuel transactionCount : nat)
    (responses : list TransactionResponse)
  : M Error World (list TransactionResponse) :=
  match fuel with
  | O => ret responses
  | S fuel' =>
      w <- get ;;
      if _nextGroupIndex (this w) <? transactionCount then
        lift (modify (λ t, set_transactionId
                             (_transactionIds t !! _nextGroupIndex t) t)) ;;
        response <- super_execute client ;;
        getReceipt response client ;;
        lift (modify (λ t, set_nextGroupIndex (S (_nextGroupIndex t)) t)) ;;
        executeAll_loop client fuel' transactionCount (responses ++ [response])
      else ret responses
  end.

(** [executeAll].  With no node selected there is no request either and the
    count is NaN in the source: the loop body never runs, as with the
    quotient 0 here. *)
Definition executeAll (client : Client) : M Error World (list TransactionResponse) :=
  w <- get ;;
  (if _isFrozen (this w) then ret tt
   else lift (freezeWith CHUNK_SIZE (Some client))) ;;
  w <- get ;;
  let transactionId := _transactionId (this w) in
  match operatorAccountId client with
  | Some op =>
      match transactionId with
      | None => throw TypeError
      | Some id =>
          if decide (op = accountId id) then super_signWithOperator op
          else ret tt
      end
  | None => ret tt
  end ;;
  w <- get ;;
  let transactionCount :=
    length (_transactions (this w)) / length (_nodeIds (this w)) in
  lift (modify (set_nextGroupIndex 0)) ;;
  executeAll_loop client transactionCount transactionCount [].

Definition execute (client : Client) : M Error World (option TransactionResponse) :=
  responses <- executeAll client ;;
  ret (responses !! 0).

End WithChunkSize.

End FileAppend.


(** ** Transaction (src/Transaction.ts) *)

Module Tx.

Inductive Error : Type :=
| DecodeError                        (* [deserializeBinary] rejects the bytes *)
| ValueMissing (msg : string)        (* [orThrow] on null or undefined *)
| BodyMissing                        (* "transaction body missing" *)
| UnsupportedBodyCase (tag : nat)    (* "unsupported body case:..." *)
| Dangling                           (* a reference to no object; unreachable *)
| SignerRejected                     (* the promise of the signer rejects *)
| OtherError (msg : string)          (* any other exception, by its message *)
| ConsensusTimeout                   (* "timed out waiting for consensus ..." *)
| HederaError (code : ResponseCode).

(** *** Protobuf messages, as values

    The classes generated from the protobuf schema (./generated/*_pb) are
    not among the sources.  The messages below have the fields that
    [Transaction] reads and writes; the binary codec is a parameter of
    [toBytes] and [fromBytes]. *)

Record SignaturePair : Type := mkSignaturePair {
  pubkeyprefix : bytes;
  ed25519 : bytes
}.

(** [Transaction_]: the body bytes and the signature map, when set. *)
Record Transaction_ : Type := mkTransaction_ {
  bodybytes : bytes;
  sigmap : option (list SignaturePair)
}.

Record TransactionID : Type := mkTransactionID {
  transactionvalidstart : option Timestamp;
  accountid : option AccountId
}.

Inductive DataCase : Type :=
| DATA_NOT_SET
| CONTRACTCALL | CONTRACTCREATEINSTANCE | CONTRACTUPDATEINSTANCE
| CONTRACTDELETEINSTANCE
| CRYPTOADDCLAIM | CRYPTOCREATEACCOUNT | CRYPTODELETE | CRYPTODELETECLAIM
| CRYPTOTRANSFER | CRYPTOUPDATEACCOUNT
| FILEAPPEND | FILECREATE | FILEDELETE | FILEUPDATE
| SYSTEMDELETE | SYSTEMUNDELETE
| FREEZE
| OtherCase (tag : nat).

Record TransactionBody : Type := mkTransactionBody {
  transactionid : option TransactionID;
  nodeaccountid : option AccountId;
  transactionvalidduration : option Z;     (* [Duration], its seconds *)
  dataCase : DataCase
}.

(** [UnaryMethodDefinition]: the service methods [methodFromTxn] selects. *)
Inductive Method : Type :=
| SmartContractService_contractCallMethod
| SmartContractService_createContract
| SmartContractService_updateContract
| SmartContractService_deleteContract
| CryptoService_addClaim
| CryptoService_createAccount
| CryptoService_cryptoDelete
| CryptoService_deleteClaim
| CryptoService_cryptoTransfer
| CryptoService_updateAccount
| FileService_appendContent
| FileService_createFile
| FileService_deleteFile
| FileService_updateFile
| SmartContractService_systemDelete
| SmartContractService_systemUndelete
| FreezeService_freeze.

Record Receipt : Type := mkReceipt {
  status : ResponseCode
}.

(** *** The store of message objects

    A [Transaction_], its [SignatureMap] and the [SignaturePair]s of that
    map are separate mutable objects that refer to each other. *)
Definition loc : Type := nat.

Inductive Obj : Type :=
| OTransaction (bb : bytes) (sm : option loc)
| OSignatureMap (sigpairList : list loc)
| OSignaturePair (pk : bytes) (sig : bytes).

Abbreviation Store := (gmap loc Obj).

Definition alloc (o : Obj) : M Error Store loc :=
  λ σ, let l := fresh (dom σ) in (<[l:=o]> σ, Ok l).

Definition readPair (σ : Store) (l : loc) : option SignaturePair :=
  match σ !! l with
  | Some (OSignaturePair pk sig) => Some (mkSignaturePair pk sig)
  | _ => None
  end.

(** The value of the message at [l]: what [serializeBinary] and
    [cloneMessage] read. *)
Definition view (σ : Store) (l : loc) : option Transaction_ :=
  match σ !! l with
  | Some (OTransaction bb None) => Some (mkTransaction_ bb None)
  | Some (OTransaction bb (Some lm)) =>
      match σ !! lm with
      | Some (OSignatureMap ls) =>
          match mapM (readPair σ) ls with
          | Some ps => Some (mkTransaction_ bb (Some ps))
          | None => None
          end
      | _ => None
      end
  | _ => None
  end.

Local Open Scope js_scope.

Fixpoint allocPairs (ps : list SignaturePair) : M Error Store (list loc) :=
  match ps with
  | [] => ret []
  | p :: ps' =>
      l <- alloc (OSignaturePair (pubkeyprefix p) (ed25519 p)) ;;
      ls <- allocPairs ps' ;;
      ret (l :: ls)
  end.

(** A new object graph for the message value [m]: what
    [deserializeBinary] and [cloneMessage] build. *)
Definition materialize (m : Transaction_) : M Error Store loc :=
  match sigmap m with
  | None => alloc (OTransaction (bodybytes m) None)
  | Some ps =>
      ls <- allocPairs ps ;;
      lm <- alloc (OSignatureMap ls) ;;
      alloc (OTransaction (bodybytes m) (Some lm))
  end.

(** [Message.cloneMessage] of google-protobuf: a deep clone. *)
Definition cloneMessage (l : loc) : M Error Store loc :=
  σ <- get ;;
  match view σ l with
  | Some m => materialize m
  | None => throw Dangling
  end.

(** The accessors of the generated classes: a getter reads the field of the
    object, a setter overwrites it in place, [addSigpair] appends to the
    repeated field. *)
Definition getBodybytes_asU8 (l : loc) : M Error Store bytes :=
  σ <- get ;;
  match σ !! l with
  | Some (OTransaction bb _) => ret bb
  | _ => throw Dangling
  end.

Definition getSigmap (l : loc) : M Error Store (option loc) :=
  σ <- get ;;
  match σ !! l with
  | Some (OTransaction _ sm) => ret sm
  | _ => throw Dangling
  end.

Definition setSigmap (l : loc) (sm : option loc) : M Error Store unit :=
  σ <- get ;;
  match σ !! l with
  | Some (OTransaction bb _) => modify (<[l := OTransaction bb sm]>)
  | _ => throw Dangling
  end.

Definition setBodybytes (l : loc) (bb : bytes) : M Error Store unit :=
  σ <- get ;;
  match σ !! l with
  | Some (OTransaction _ sm) => modify (<[l := OTransaction bb sm]>)
  | _ => throw Dangling
  end.

Definition addSigpair (lm : loc) (lp : loc) : M Error Store unit :=
  σ <- get ;;
  match σ !! lm with
  | Some (OSignatureMap ls) => modify (<[lm := OSignatureMap (ls ++ [lp])]>)
  | _ => throw Dangling
  end.

Definition getSigpairList (lm : loc) : M Error Store (list loc) :=
  σ <- get ;;
  match σ !! lm with
  | Some (OSignatureMap ls) => ret ls
  | _ => throw Dangling
  end.

Definition setSigpairList (lm : loc) (ls : list loc) : M Error Store unit :=
  σ <- get ;;
  match σ !! lm with
  | Some (OSignatureMap _) => modify (<[lm := OSignatureMap ls]>)
  | _ => throw Dangling
  end.

Definition setPubkeyprefix (lp : loc) (b : bytes) : M Error Store unit :=
  σ <- get ;;
  match σ !! lp with
  | Some (OSignaturePair _ sig) => modify (<[lp := OSignaturePair b sig]>)
  | _ => throw Dangling
  end.

Definition setEd25519 (lp : loc) (b : bytes) : M Error Store unit :=
  σ <- get ;;
  match σ !! lp with
  | Some (OSignaturePair pk _) => modify (<[lp := OSignaturePair pk b]>)
  | _ => throw Dangling
  end.

(** *** The class *)

Record Transaction : Type := mkTransaction {
  _node : AccountId;
  _inner : loc;
  _txnId : TransactionID;
  _validDurationSeconds : Z;
  _method : Method
}.

(** [orThrow] of ./util: the value, or an exception when there is none. *)
Definition orThrow {S A} (val : option A) (msg : string) : M Error S A :=
  match val with
  | Some v => ret v
  | None => throw (ValueMissing msg)
  end.

Definition constructor (node : AccountId) (inner : loc) (body : TransactionBody)
    (method : Method) : M Error Store Transaction :=
  txnId <- orThrow (transactionid body) "value must not be null" ;;
  duration <- orThrow (transactionvalidduration body) "value must not be null" ;;
  ret {| _node := node; _inner := inner; _txnId := txnId;
         _validDurationSeconds := duration; _method := method |}.

Definition methodFromTxn {S} (inner : TransactionBody) : M Error S Method :=
  match dataCase inner with
  | CONTRACTCALL => ret SmartContractService_contractCallMethod
  | CONTRACTCREATEINSTANCE => ret SmartContractService_createContract
  | CONTRACTUPDATEINSTANCE => ret SmartContractService_updateContract
  | CONTRACTDELETEINSTANCE => ret SmartContractService_deleteContract
  | CRYPTOADDCLAIM => ret CryptoService_addClaim
  | CRYPTOCREATEACCOUNT => ret CryptoService_createAccount
  | CRYPTODELETE => ret CryptoService_cryptoDelete
  | CRYPTODELETECLAIM => ret CryptoService_deleteClaim
  | CRYPTOTRANSFER => ret CryptoService_cryptoTransfer
  | CRYPTOUPDATEACCOUNT => ret CryptoService_updateAccount
  | FILEAPPEND => ret FileService_appendContent
  | FILECREATE => ret FileService_createFile
  | FILEDELETE => ret FileService_deleteFile
  | FILEUPDATE => ret FileService_updateFile
  | SYSTEMDELETE => ret SmartContractService_systemDelete
  | SYSTEMUNDELETE => ret SmartContractService_systemUndelete
  | FREEZE => ret FreezeService_freeze
  | DATA_NOT_SET => throw BodyMissing
  | OtherCase tag => throw (UnsupportedBodyCase tag)
  end.

(** The operation tags [methodFromTxn] recognizes. *)
Definition recognized (c : DataCase) : bool :=
  match c with
  | DATA_NOT_SET | OtherCase _ => false
  | _ => true
  end.

Record SignatureAndKey : Type := mkSignatureAndKey {
  signature : bytes;
  publicKey : bytes         (* [Ed25519PublicKey], by its [toBytes()] *)
}.

Record Ed25519PrivateKey : Type := mkPrivateKey {
  sk_sign : bytes → bytes;
  sk_publicKey : bytes
}.

(** What a [Signer] gives back: a signature, or a promise of one. *)
Inductive SignResult : Type :=
| Immediate (sig : bytes)
| Resolves (sig : bytes)
| Rejects.

Definition Signer : Type := bytes → SignResult.

Definition _addSignature (tx : Transaction) (sk : SignatureAndKey)
  : M Error Store Transaction :=
  sigPair <- alloc (OSignaturePair (publicKey sk) (signature sk)) ;;
  existing <- getSigmap (_inner tx) ;;
  sigMap <- match existing with
            | Some lm => ret lm
            | None => alloc (OSignatureMap [])
            end ;;
  addSigpair sigMap sigPair ;;
  setSigmap (_inner tx) (Some sigMap) ;;
  ret tx.

Definition sign (tx : Transaction) (privateKey : Ed25519PrivateKey)
  : M Error Store Transaction :=
  bb <- getBodybytes_asU8 (_inner tx) ;;
  _addSignature tx {| signature := sk_sign privateKey bb;
                      publicKey := sk_publicKey privateKey |}.

Definition signWith (tx : Transaction) (publicKey : bytes) (signer : Signer)
  : M Error Store Transaction :=
  bb <- getBodybytes_asU8 (_inner tx) ;;
  match signer bb with
  | Immediate sig | Resolves sig =>
      _addSignature tx {| signature := sig; publicKey := publicKey |} ;;
      ret tx
  | Rejects => throw SignerRejected
  end.

Definition toProto (tx : Transaction) : M Error Store loc :=
  cloneMessage (_inner tx).

Section Codec.

(** The protobuf codec of the generated classes. *)
Variable Transaction__serializeBinary : Transaction_ → bytes.
Variable Transaction__deserializeBinary : bytes → option Transaction_.
Variable TransactionBody_deserializeBinary : bytes → option TransactionBody.

Definition toBytes (tx : Transaction) : M Error Store bytes :=
  σ <- get ;;
  match view σ (_inner tx) with
  | Some m => ret (Transaction__serializeBinary m)
  | None => throw Dangling
  end.

(** [AccountId.fromProto] reads the three numbers of the node id as they
    are. *)
Definition fromBytes (b : bytes) : M Error Store Transaction :=
  match Transaction__deserializeBinary b with
  | None => throw DecodeError
  | Some m =>
      inner <- materialize m ;;
      bb <- getBodybytes_asU8 inner ;;
      match TransactionBody_deserializeBinary bb with
      | None => throw DecodeError
      | Some body =>
          nodeId <- orThrow (nodeaccountid body)
                      "transaction missing node account ID" ;;
          method <- methodFromTxn body ;;
          constructor nodeId inner body method
      end
  end.

End Codec.

(** *** Waiting for the receipt *)

Definition receiptInitialDelayMs : number := Number.ofZ 1000.
Definition receiptRetryDelayMs : number := Number.ofZ 500.

(** The exceptions a call of [_getReceipt] can end with, and the errors
    they are: [throwIfExceptional] of errors.ts throws a [HederaError] with
    the precheck code of the response header, [orThrow] throws when the
    response holds no receipt, and the call itself can fail. *)
Inductive QueryError : Type :=
| PrecheckFailed (code : ResponseCode)
| ReceiptMissing
| CallFailed (msg : string).

Definition thrown (e : QueryError) : Error :=
  match e with
  | PrecheckFailed code => HederaError code
  | ReceiptMissing => ValueMissing "value must not be null"
  | CallFailed msg => OtherError msg
  end.

(** What one call of [_getReceipt] gives: the receipt, or an exception. *)
Inductive PollResult : Type :=
| Answers (receipt : Receipt)
| Throws (e : QueryError).

(** The world around the loop, by attempt: the answer of the receipt
    query, the number [Math.random()] draws and the number [Date.now()]
    gives when the deadline is tested. *)
Record Env : Type := mkEnv {
  env_receipt : nat → PollResult;
  env_random : nat → number;
  env_now : nat → number
}.

Inductive Step : Type :=
| Sleep (ms : number)
| Poll (attempt : nat).

Definition isPending (s : ResponseCode) : bool :=
  bool_decide (s ∈ [UNKNOWN; OK]).

(** [Math.floor(receiptRetryDelayMs * Math.random() * (2 ** attempt - 1))],
    the products taken from left to right, each rounded to a number. *)
Definition backoff (attempt : nat) (random : number) : number :=
  Number.Math_floor
    (Number.mul (Number.mul receiptRetryDelayMs random)
                (Number.sub (Number.pow2 attempt) (Number.ofZ 1))).

(** The loop of [_waitForReceipt], entered at [attempt].  The loop of the
    source has no bound; [fuel] bounds the rounds here, and a run that uses
    it up has no outcome yet.  An exception of [_getReceipt] is not caught
    and ends the loop as it is. *)
Fixpoint poll_loop (fuel attempt : nat) (env : Env) (validUntilMs : number)
  : list Step * option (Result Error Receipt) :=
  match fuel with
  | O => ([], None)
  | S fuel' =>
      match env_receipt env attempt with
      | Throws e => ([Poll attempt], Some (Err (thrown e)))
      | Answers receipt =>
          if isPending (status receipt) then
            let delay := backoff attempt (env_random env attempt) in
            if Number.gt (Number.add (env_now env attempt) delay) validUntilMs
            then ([Poll attempt], Some (Err ConsensusTimeout))
            else
              let '(steps, r) := poll_loop fuel' (S attempt) env validUntilMs in
              (Poll attempt :: Sleep delay :: steps, r)
          else if bool_decide (status receipt ≠ SUCCESS)
          then ([Poll attempt], Some (Err (HederaError (status receipt))))
          else ([Poll attempt], Some (Ok receipt))
      end
  end.

Section Clock.

(** [timestampToMs] is imported from ./Timestamp. *)
Variable timestampToMs : Timestamp → number.

Definition _waitForReceipt (fuel : nat) (env : Env) (tx : Transaction)
  : list Step * option (Result Error Receipt) :=
  match transactionvalidstart (_txnId tx) with
  | None => ([], Some (Err (ValueMissing "value must not be null")))
  | Some start =>
      let validStartMs := timestampToMs start in
      let validUntilMs := Number.add validStartMs (Number.ofZ 120000) in
      let '(steps, r) := poll_loop fuel 0 env validUntilMs in
      (Sleep receiptInitialDelayMs :: steps, r)
  end.

End Clock.

(** *** What a holder of a message can do to it

    The mutators of the generated classes, applied to the message at [m] or
    to what it refers to.  A call on a missing object throws and leaves the
    store as it is. *)
Inductive Mutation : Type :=
| MSetBodybytes (b : bytes)
| MClearSigmap
| MSetNewSigmap
| MAddSigpair (pk sig : bytes)
| MClearSigpairList
| MSetPairPubkeyprefix (i : nat) (b : bytes)
| MSetPairEd25519 (i : nat) (b : bytes).

Definition withSigmap (m : loc) (k : loc → M Error Store unit)
  : M Error Store unit :=
  sm <- getSigmap m ;;
  match sm with
  | Some lm => k lm
  | None => throw (ValueMissing "sigmap")
  end.

Definition withPair (m : loc) (i : nat) (k : loc → M Error Store unit)
  : M Error Store unit :=
  withSigmap m (λ lm,
    ls <- getSigpairList lm ;;
    match ls !! i with
    | Some lp => k lp
    | None => throw (ValueMissing "sigpair")
    end).

Definition mutate (m : loc) (op : Mutation) : M Error Store unit :=
  match op with
  | MSetBodybytes b => setBodybytes m b
  | MClearSigmap => setSigmap m None
  | MSetNewSigmap =>
      lm <- alloc (OSignatureMap []) ;;
      setSigmap m (Some lm)
  | MAddSigpair pk sig =>
      withSigmap m (λ lm,
        lp <- alloc (OSignaturePair pk sig) ;;
        addSigpair lm lp)
  | MClearSigpairList => withSigmap m (λ lm, setSigpairList lm [])
  | MSetPairPubkeyprefix i b => withPair m i (λ lp, setPubkeyprefix lp b)
  | MSetPairEd25519 i b => withPair m i (λ lp, setEd25519 lp b)
  end.

(** A caller's program on the message: the mutations in order, going on
    after one that throws. *)
Definition mutateAll (m : loc) (ops : list Mutation) (σ : Store) : Store :=
  foldl (λ σ op, fst (mutate m op σ)) σ ops.

End Tx.

(** ** Specification of FileAppendTransaction *)

Module FileAppendSpec.
Import FileAppend.

(** The identity [j] steps after [id]: each step adds 10 seconds with
    [Long.add], the payer and the nanoseconds stay. *)
Definition shiftId (id : TransactionId) (j : nat) : TransactionId :=
  mkTransactionId (accountId id)
    (mkTimestamp (Nat.iter j (λ s, Long_add s 10) (seconds (validStart id)))
                 (nanos (validStart id))).

(** [chunk] holds the bytes of [c] at the indices [a] up to, not
    including, [b]. *)
Definition isRange (c chunk : bytes) (a b : nat) : Prop :=
  length chunk = b - a ∧ ∀ k, k < b - a → chunk !! k = c !! (a + k).

(** The request that [execute] sends for chunk [g]: the one built for the
    first node. *)
Definition requestOf (t : FileAppendTransaction) (g : nat) : option ProtoTransaction :=
  _transactions t !! (g * length (_nodeIds t)).

(** [req] is one of the requests built for chunk [g], whichever its node. *)
Definition inGroup (t : FileAppendTransaction) (g : nat) (req : ProtoTransaction)
  : Prop :=
  ∃ j, j < length (_nodeIds t)
       ∧ _transactions t !! (g * length (_nodeIds t) + j) = Some req.

(** The number of chunks the object holds requests for:
    [this._transactions.length / this._nodeIds.length]. *)
Definition groups (t : FileAppendTransaction) : nat :=
  length (_transactions t) / length (_nodeIds t).

(** [confirmed client t hist g k evs outcomes]: after the history [hist],
    the events [evs] are [k] rounds for the chunks [g], [g + 1], ...: a
    request of the chunk is dispatched and accepted at the precheck, then
    the receipt for the identity of the response is awaited and comes
    back, and only then the next round starts; [outcomes] are the
    responses to these dispatches, in their order. *)
Inductive confirmed (client : Client) (t : FileAppendTransaction)
  : list Event → nat → nat → list Event → list TransactionResponse → Prop :=
| confirmed_nil hist g : confirmed client t hist g 0 [] []
| confirmed_cons hist g k req id receipt evs outcomes :
    inGroup t g req →
    isPrecheckCodeOk (net_precheck client hist req) false = true →
    net_receipt client (hist ++ [EDispatch g req]) id = Ok receipt →
    confirmed client t (hist ++ [EDispatch g req; EReceipt id]) (S g) k evs
      outcomes →
    confirmed client t hist g (S k) (EDispatch g req :: EReceipt id :: evs)
      (mkResponse (nodeAccountID req) id :: outcomes).

(** [failure client t hist g tail e]: how the round of chunk [g] ends in the
    error [e]: with the dispatch rejected at the precheck, the error
    carrying the code of the network, or with the dispatch accepted and the
    receipt failing, the error being that of the resolver. *)
Inductive failure (client : Client) (t : FileAppendTransaction)
  : list Event → nat → list Event → Error → Prop :=
| failure_precheck hist g req :
    inGroup t g req →
    isPrecheckCodeOk (net_precheck client hist req) false = false →
    failure client t hist g [EDispatch g req]
      (PrecheckRejected (net_precheck client hist req))
| failure_receipt hist g req id e :
    inGroup t g req →
    isPrecheckCodeOk (net_precheck client hist req) false = true →
    net_receipt client (hist ++ [EDispatch g req]) id = Err e →
    failure client t hist g [EDispatch g req; EReceipt id] e.

(** The loop of [executeAll] leaves the requests, the nodes and the list of
    identities alone. *)
Definition sameRequests (t t' : FileAppendTransaction) : Prop :=
  _transactions t' = _transactions t ∧ _nodeIds t' = _nodeIds t
  ∧ _transactionIds t' = _transactionIds t.

(** The nodes and the identity a transaction has once frozen with
    [client]. *)
Definition selectedNodes (client : option Client) (t : FileAppendTransaction)
  : list AccountId :=
  match client with Some c => client_nodeIds c | None => _nodeIds t end.

Definition assignedId (client : option Client) (t : FileAppendTransaction)
  : option TransactionId :=
  match _transactionId t, client with
  | Some id, _ => Some id
  | None, Some c =>
      match operatorAccountId c with
      | Some op => Some (client_generateId c op)
      | None => None
      end
  | None, None => None
  end.

Section WithChunkSize.

Variable C : nat.

(** The request for [node] under the identity [id] whose chunk starts at
    [start]. *)
Definition requestAt (fileId : option FileId) (c : option bytes)
    (id : TransactionId) (start : nat) (node : AccountId) : ProtoTransaction :=
  {| nodeAccountID := node;
     transactionID := Some id;
     fileAppend :=
       {| fileID := fileId;
          contents :=
            match c with
            | Some c => Some (subarray c start (Nat.min (start + C) (length c)))
            | None => None
            end |} |}.

(** The object after [n] rounds of the loop of [freezeWith] entered at
    chunk [k] with the identity [next]. *)
Definition loopState (n k : nat) (next : TransactionId)
    (t : FileAppendTransaction) : FileAppendTransaction :=
  {| _fileId := _fileId t; _contents := _contents t;
     _maxChunks := _maxChunks t;
     _startIndex := match n with O => _startIndex t | S m => (k + m) * C end;
     _transactionIds := _transactionIds t ++ map (shiftId next) (seq 0 n);
     _transactionId :=
       match n with O => _transactionId t | S m => Some (shiftId next m) end;
     _nodeIds := _nodeIds t;
     _transactions :=
       _transactions t ++
       flat_map (λ j, map (requestAt (_fileId t) (_contents t)
                             (shiftId next j) ((k + j) * C)) (_nodeIds t))
                (seq 0 n);
     _nextGroupIndex := _nextGroupIndex t; _frozen := _frozen t;
     _signers := _signers t |}.

(** The object after the [freezeWith] of the base class. *)
Definition superState (client : option Client) (t : FileAppendTransaction)
  : FileAppendTransaction :=
  let t1 := set_transactionId (assignedId client t)
              (set_nodeIds (selectedNodes client t) t) in
  set_frozen true
    (set_transactions (map (_makeTransaction C t1) (_nodeIds t1)) t1).

(** [Math.floor((length + (CHUNK_SIZE - 1)) / CHUNK_SIZE)] *)
Definition chunksOf (c : bytes) : nat := (length c + (C - 1)) / C.

(** The object after [freezeWith] has split the contents [c]. *)
Definition frozenChunked (client : option Client) (t : FileAppendTransaction)
    (c : bytes) (id0 : TransactionId) : FileAppendTransaction :=
  {| _fileId := _fileId t; _contents := Some c; _maxChunks := _maxChunks t;
     _startIndex := 0;
     _transactionIds := id0 :: map (shiftId id0) (seq 0 (chunksOf c));
     _transactionId := Some id0;
     _nodeIds := selectedNodes client t;
     _transactions :=
       flat_map (λ j, map (requestAt (_fileId t) (Some c) (shiftId id0 j) (j * C))
                          (selectedNodes client t))
                (seq 0 (chunksOf c));
     _nextGroupIndex := _nextGroupIndex t; _frozen := true;
     _signers := _signers t |}.

(** ceil(L / C), on the rationals. *)
Definition ceilDiv (L : nat) : Z := Qceiling (Z.of_nat L # Pos.of_nat C).

(** The steps of [executeAll] before its loop: freezing when needed and the
    operator's signature; they do not reach the network. *)
Definition prepare (client : Client) (t : FileAppendTransaction)
  : FileAppendTransaction * Result Error unit :=
  match (if _frozen t then (t, Ok tt) else freezeWith C (Some client) t) with
  | (t1, Err e) => (t1, Err e)
  | (t1, Ok _) =>
      match operatorAccountId client with
      | Some op =>
          match _transactionId t1 with
          | None => (t1, Err TypeError)
          | Some id =>
              if decide (op = accountId id)
              then (set_signers (_signers t1 ++ [op]) t1, Ok tt)
              else (t1, Ok tt)
          end
      | None => (t1, Ok tt)
      end
  end.

End WithChunkSize.

End FileAppendSpec.

(** ** Classes of numbers *)

Module NumberSpec.
Import Number.

Definition signed (s : bool) (x : number) : Prop :=
  match x with
  | S754_zero s' | S754_infinity s' | S754_finite s' _ _ => s' = s
  | S754_nan => False
  end.

Definition finiteOrZero (x : number) : Prop :=
  match x with
  | S754_zero _ | S754_finite _ _ _ => True
  | _ => False
  end.

(** Not NaN and not below zero: a zero of either sign, a positive value or
    plus Infinity. *)
Definition notNegative (x : number) : Prop :=
  match x with
  | S754_zero _ | S754_infinity false | S754_finite false _ _ => True
  | _ => False
  end.

(** A zero, of either sign. *)
Definition isZero (x : number) : Prop :=
  match x with S754_zero _ => True | _ => False end.

(** What [Math.random()] can draw: a value of the format that is at least
    0 and below 1. *)
Definition isDraw (r : number) : Prop :=
  valid_binary 53 1024 r = true
  ∧ SFleb (ofZ 0) r = true ∧ SFltb r (ofZ 1) = true.

(** What [Date.now()] gives after the epoch: a positive finite value of
    the format. *)
Definition isTime (x : number) : Prop :=
  valid_binary 53 1024 x = true
  ∧ match x with S754_finite false _ _ => True | _ => False end.

End NumberSpec.

(** ** Specification of Transaction *)

Module TxSpec.
Import Tx.

(** The objects an object refers to. *)
Definition refs (o : Obj) : list loc :=
  match o with
  | OTransaction _ (Some lm) => [lm]
  | OTransaction _ None => []
  | OSignatureMap ls => ls
  | OSignaturePair _ _ => []
  end.

(** [σ] keeps every object of [σ0], and the objects it has besides refer
    to none of [σ0]. *)
Definition apart (σ0 σ : Store) : Prop :=
  σ0 ⊆ σ
  ∧ ∀ l o, l ∉ dom σ0 → σ !! l = Some o → Forall (λ r, r ∉ dom σ0) (refs o).

(** The signature pairs of a message, none when the map is not set. *)
Definition sigpairs (m : Transaction_) : list SignaturePair :=
  match sigmap m with Some ps => ps | None => [] end.

Definition withPair (m : Transaction_) (p : SignaturePair) : Transaction_ :=
  {| bodybytes := bodybytes m; sigmap := Some (sigpairs m ++ [p]) |}.

(** The answer at attempt [k] is a receipt whose status is pending. *)
Definition pendingAt (env : Env) (k : nat) : Prop :=
  ∃ receipt, env_receipt env k = Answers receipt
             ∧ isPending (status receipt) = true.

Definition delayAt (env : Env) (k : nat) : number :=
  backoff k (env_random env k).

(** The test of the deadline [D] at attempt [k]:
    [Date.now() + delay > validUntilMs]. *)
Definition expiresAt (env : Env) (D : number) (k : nat) : bool :=
  Number.gt (Number.add (env_now env k) (delayAt env k)) D.

(** The attempts from [a] up to [k] are pending and their backoff ends
    within the deadline [D]. *)
Definition keepsPolling (env : Env) (D : number) (a k : nat) : Prop :=
  ∀ j, a ≤ j < k → pendingAt env j ∧ expiresAt env D j = false.

Definition pendingSteps (env : Env) (a k : nat) : list Step :=
  flat_map (λ j, [Poll j; Sleep (delayAt env j)]) (seq a k).

Definition isPoll (s : Step) : bool :=
  match s with Poll _ => true | Sleep _ => false end.

(** How many polls a run made. *)
Definition polls (steps : list Step) : nat :=
  length (List.filter isPoll steps).

(** The fields of [tx] are those of [body]: what [fromBytes] and the
    builders establish between a transaction and the body that the body
    bytes of its message decode to. *)
Definition builtFrom (tx : Transaction) (body : TransactionBody) : Prop :=
  nodeaccountid body = Some (_node tx)
  ∧ transactionid body = Some (_txnId tx)
  ∧ transactionvalidduration body = Some (_validDurationSeconds tx)
  ∧ methodFromTxn body tt = (tt, Ok (_method tx)).

End TxSpec.

(** ** Concrete transactions, clients and networks *)

Module Examples.

Definition payer : AccountId := mkAccountId 0 0 1001.
Definition node3 : AccountId := mkAccountId 0 0 3.
Definition start0 : Timestamp := mkTimestamp 1600000000 7.
Definition id0 : TransactionId := mkTransactionId payer start0.
Definition id10 : TransactionId :=
  mkTransactionId payer (mkTimestamp 1600000010 7).
Definition id20 : TransactionId :=
  mkTransactionId payer (mkTimestamp 1600000020 7).

Definition payload (n : nat) : bytes :=
  map (λ i, if Nat.even i then Byte.x00 else Byte.xff) (seq 0 n).

Section FileAppendExamples.
Import FileAppend.

(** A network that accepts every request and confirms every receipt. *)
Definition calmClient : Client :=
  {| client_nodeIds := [node3];
     operatorAccountId := Some payer;
     client_generateId := λ a, mkTransactionId a start0;
     net_precheck := λ _ _, OK;
     net_receipt := λ _ _, Ok (mkReceipt SUCCESS) |}.

(** A network that rejects the request of chunk 1 at the precheck. *)
Definition rejectSecond : Client :=
  {| client_nodeIds := [node3];
     operatorAccountId := Some payer;
     client_generateId := λ a, mkTransactionId a start0;
     net_precheck := λ hist _, match hist with
                               | [] => OK
                               | _ => OtherCode 11
                               end;
     net_receipt := λ _ _, Ok (mkReceipt SUCCESS) |}.

(** A transaction that is not frozen, with [n] bytes to append. *)
Definition draft (n : nat) : FileAppendTransaction :=
  set_contents (Some (payload n)) new.

Definition awaited (evs : list Event) : list (option TransactionId) :=
  flat_map (λ e, match e with EReceipt id => [id] | EDispatch _ _ => [] end) evs.

Definition dispatched (evs : list Event) : list (nat * option TransactionId) :=
  flat_map (λ e, match e with
                 | EDispatch g req => [(g, transactionID req)]
                 | EReceipt _ => []
                 end) evs.

End FileAppendExamples.

Section TxExamples.
Import Tx.

Definition txnId0 : TransactionID :=
  {| transactionvalidstart := Some start0; accountid := Some payer |}.

Definition body0 : TransactionBody :=
  {| transactionid := Some txnId0;
     nodeaccountid := Some node3;
     transactionvalidduration := Some 60%Z;
     dataCase := CRYPTOTRANSFER |}.

Definition bodyBytes0 : bytes := [Byte.x0a; Byte.x02; Byte.x18; Byte.x03].
Definition pair0 : SignaturePair :=
  mkSignaturePair [Byte.x01; Byte.x02] [Byte.xaa; Byte.xbb].

(** A store with one message: body bytes and a signature map of one pair. *)
Definition store0 : Store :=
  {[ 0 := OTransaction bodyBytes0 (Some 1);
     1 := OSignatureMap [2];
     2 := OSignaturePair (pubkeyprefix pair0) (ed25519 pair0) ]}.

Definition message0 : Transaction_ :=
  {| bodybytes := bodyBytes0; sigmap := Some [pair0] |}.

(** The transaction for that message, with a validity duration of 60
    seconds. *)
Definition tx0 : Transaction :=
  {| _node := node3; _inner := 0; _txnId := txnId0;
     _validDurationSeconds := 60; _method := CryptoService_cryptoTransfer |}.

(** A store whose message has no signature map yet, and a codec for such
    messages: the wire form is the body bytes. *)
Definition store1 : Store := {[ 0 := OTransaction bodyBytes0 None ]}.
Definition message1 : Transaction_ := {| bodybytes := bodyBytes0; sigmap := None |}.
Definition bareSerialize (m : Transaction_) : bytes := bodybytes m.
Definition bareDeserialize (b : bytes) : option Transaction_ :=
  Some {| bodybytes := b; sigmap := None |}.
Definition bareDeserializeBody (b : bytes) : option TransactionBody :=
  match b with
  | [] => None
  | _ => Some body0
  end.

Definition key0 : Ed25519PrivateKey :=
  {| sk_sign := λ b, rev b; sk_publicKey := [Byte.x07] |}.
Definition signer0 : Signer := λ b, Resolves (rev b).

Definition wholeMs (ts : Timestamp) : number :=
  Number.ofZ (seconds ts * 1000 + nanos ts / 1000000).

(** The draw 0.5. *)
Definition half : number := S754_finite false (2 ^ 52) (-53).

(** The receipt is pending at the first poll, 100 seconds after the start
    of the identity, and successful at the second. *)
Definition lateSuccess : Env :=
  {| env_receipt := λ k, match k with
                         | O => Answers (mkReceipt UNKNOWN)
                         | _ => Answers (mkReceipt SUCCESS)
                         end;
     env_random := λ _, half;
     env_now := λ k, Number.ofZ (1600000000000 + 100000 + Z.of_nat k) |}.

(** The receipt is pending at the first poll and failed at the second. *)
Definition failsSecond : Env :=
  {| env_receipt := λ k, match k with
                         | O => Answers (mkReceipt OK)
                         | _ => Answers (mkReceipt (OtherCode 7))
                         end;
     env_random := λ _, half;
     env_now := λ k, Number.ofZ (1600000000000 + 1000 + Z.of_nat k) |}.

(** The receipt stays pending and the clock is past the deadline at the
    third poll. *)
Definition neverDecided : Env :=
  {| env_receipt := λ _, Answers (mkReceipt UNKNOWN);
     env_random := λ _, half;
     env_now := λ k, Number.ofZ (1600000000000 + 50000 * Z.of_nat (S k)) |}.

End TxExamples.

End Examples.

(** ** errors.ts: the names of the response codes *)

Module ErrorsTs.

(** [HederaError]: the message, the name of the class, the code and the
    name of the code. *)
Record HederaError : Type := mkHederaError {
  message : string;
  name : string;
  code : Z;
  codeName : string
}.

Section WithEnum.

(** [ResponseCodeEnum], generated from the protobuf schema: its entries
    (name, code) in the order [Object.entries] lists them. *)
Variable ResponseCodeEnum : list (string * Z).

(** How a template literal prints a number. *)
Variable showNumber : Z → string.

(** [Object.entries(ResponseCodeEnum)
      .reduce((map, [name, code]) => ({ ...map, [code]: name }), {})] *)
Definition responseCodeNames : gmap Z string :=
  foldl (λ map entry, <[entry.2 := entry.1]> map) ∅ ResponseCodeEnum.

Definition getResponseCodeName (code : Z) : option string :=
  responseCodeNames !! code.

(** The constructor of [HederaError]. *)
Definition newHederaError (code : Z) : HederaError :=
  let responseCodeName := getResponseCodeName code in
  let codeName := match responseCodeName with
                  | None => "UNKNOWN"%string
                  | Some n => n
                  end in
  {| message := ("Hedera returned response code: " ++ codeName ++ " ("
                 ++ showNumber code ++ ")")%string;
     name := "HederaError";
     code := code;
     codeName := codeName |}.

End WithEnum.

End ErrorsTs.

(** ** ContractLogInfo (src/contract/ContractLogInfo.js) *)

Module ContractLog.

Section WithContractId.

(** [ContractId] and its protobuf form [IContractID], with the conversions
    of ./ContractId. *)
Variables ContractId IContractID : Type.
Variable ContractId_fromProtobuf : option IContractID → ContractId.
Variable ContractId_toProtobuf : ContractId → IContractID.

Record ContractLogInfo : Type := mkContractLogInfo {
  contractId : ContractId;
  bloom : bytes;
  topics : list bytes;
  data : bytes
}.

(** [proto.IContractLoginfo]: every field may be missing. *)
Record IContractLoginfo : Type := mkIContractLoginfo {
  p_contractID : option IContractID;
  p_bloom : option bytes;
  p_topic : option (list bytes);
  p_data : option bytes
}.

Definition _fromProtobuf (info : IContractLoginfo) : ContractLogInfo :=
  {| contractId := ContractId_fromProtobuf (p_contractID info);
     bloom := match p_bloom info with Some b => b | None => [] end;
     topics := match p_topic info with Some t => t | None => [] end;
     data := match p_data info with Some d => d | None => [] end |}.

Definition _toProtobuf (l : ContractLogInfo) : IContractLoginfo :=
  {| p_contractID := Some (ContractId_toProtobuf (contractId l));
     p_bloom := Some (bloom l);
     p_topic := Some (topics l);
     p_data := Some (data l) |}.

End WithContractId.

End ContractLog.

(** ** Further notions for the properties below *)

Module MoreSpec.
Import FileAppend FileAppendSpec.

(** A network that accepts every request at the precheck and resolves
    every receipt. *)
Definition accepting (client : Client) : Prop :=
  (∀ hist req, isPrecheckCodeOk (net_precheck client hist req) false = true)
  ∧ ∀ hist id, ∃ receipt, net_receipt client hist id = Ok receipt.

(** The signers after [executeAll]: the operator signs when it is the
    payer of the identity. *)
Definition signersAfter (client : Client) (t : FileAppendTransaction)
  : list AccountId :=
  match operatorAccountId client, _transactionId t with
  | Some op, Some id =>
      if decide (op = accountId id) then _signers t ++ [op] else _signers t
  | _, _ => _signers t
  end.

(** The groups of the dispatches among the events, in order. *)
Definition dispatchedGroups (evs : list Event) : list nat :=
  flat_map (λ e, match e with
                 | EDispatch g _ => [g]
                 | EReceipt _ => []
                 end) evs.

(** The requests dispatched, in order. *)
Definition dispatchedRequests (evs : list Event) : list ProtoTransaction :=
  flat_map (λ e, match e with
                 | EDispatch _ req => [req]
                 | EReceipt _ => []
                 end) evs.

End MoreSpec.

Module MoreExamples.
Import Examples.

Definition someCodes : list (string * Z) :=
  [("OK"%string, 0%Z); ("INVALID_TRANSACTION"%string, 1%Z);
   ("UNKNOWN"%string, 21%Z); ("SUCCESS"%string, 22%Z)].

Definition logInfo0 : ContractLog.ContractLogInfo AccountId :=
  ContractLog.mkContractLogInfo AccountId node3 [Byte.x01] [[Byte.x02]; []]
    [Byte.x03; Byte.x04].

(** The receipt query throws at the second poll: the precheck code of
    its response is UNKNOWN. *)
Definition throwsSecond : Tx.Env :=
  {| Tx.env_receipt := λ k, match k with
                            | O => Tx.Answers (Tx.mkReceipt UNKNOWN)
                            | _ => Tx.Throws (Tx.PrecheckFailed UNKNOWN)
                            end;
     Tx.env_random := λ _, half;
     Tx.env_now := λ k, Number.ofZ (1600000000000 + 1000 + Z.of_nat k) |}.

(** The draw 1116892707587883 / 2^52, about 0.248: at attempt 1 the
    product with 500 is rounded up to 124 exactly. *)
Definition quarterish : number := S754_finite false 8935141660703064 (-55).

(** The receipt stays pending, the draw is [quarterish] and the clock
    stands 123 milliseconds before the deadline of [tx0]. *)
Definition atTheBoundary : Tx.Env :=
  {| Tx.env_receipt := λ _, Tx.Answers (Tx.mkReceipt UNKNOWN);
     Tx.env_random := λ _, quarterish;
     Tx.env_now := λ _, Number.ofZ (1600000000000 + 120000 - 123) |}.

(** A small codec for messages, for fields of less than 256 bytes: each
    field is written after its length, the signature map after a flag and
    the number of its pairs. *)
Definition lengthByte (n : nat) : Byte.byte :=
  match Byte.of_nat n with Some b => b | None => Byte.xff end.

Definition writeField (b : bytes) : bytes := lengthByte (length b) :: b.

Definition lengthSerialize (m : Tx.Transaction_) : bytes :=
  writeField (Tx.bodybytes m)
  ++ match Tx.sigmap m with
     | None => [Byte.x00]
     | Some ps =>
         Byte.x01 :: lengthByte (length ps)
         :: flat_map (λ p, writeField (Tx.pubkeyprefix p)
                           ++ writeField (Tx.ed25519 p)) ps
     end.

Definition readField (b : bytes) : option (bytes * bytes) :=
  match b with
  | [] => None
  | n :: rest =>
      if Byte.to_nat n <=? length rest
      then Some (take (Byte.to_nat n) rest, drop (Byte.to_nat n) rest)
      else None
  end.

Fixpoint readPairs (n : nat) (b : bytes) : option (list Tx.SignaturePair) :=
  match n with
  | O => match b with [] => Some [] | _ => None end
  | S n' =>
      match readField b with
      | None => None
      | Some (pk, rest) =>
          match readField rest with
          | None => None
          | Some (sig, rest') =>
              match readPairs n' rest' with
              | None => None
              | Some ps => Some (Tx.mkSignaturePair pk sig :: ps)
              end
          end
      end
  end.

Definition lengthDeserialize (b : bytes) : option Tx.Transaction_ :=
  match readField b with
  | None => None
  | Some (bb, rest) =>
      match rest with
      | [Byte.x00] => Some (Tx.mkTransaction_ bb None)
      | Byte.x01 :: n :: rest' =>
          match readPairs (Byte.to_nat n) rest' with
          | None => None
          | Some ps => Some (Tx.mkTransaction_ bb (Some ps))
          end
      | _ => None
      end
  end.

End MoreExamples.

(** ** Facts about FileAppendTransaction *)

Module FileAppendFacts.
Import FileAppend FileAppendSpec.

(** *** Records and lists *)

Lemma FAT_ext t t' :
  _fileId t = _fileId t' → _contents t = _contents t' →
  _maxChunks t = _maxChunks t' → _startIndex t = _startIndex t' →
  _transactionIds t = _transactionIds t' →
  _transactionId t = _transactionId t' → _nodeIds t = _nodeIds t' →
  _transactions t = _transactions t' →
  _nextGroupIndex t = _nextGroupIndex t' → _frozen t = _frozen t' →
  _signers t = _signers t' → t = t'.
Proof. destruct t, t'; cbn; intros; by subst. Qed.

Lemma shiftId_0 id : shiftId id 0 = id.
Proof. by destruct id as [a [s ns]]. Qed.

Lemma shiftId_S id j :
  shiftId (mkTransactionId (accountId id)
        (mkTimestamp (Long_add (seconds (validStart id)) 10)
                     (nanos (validStart id)))) j = shiftId id (S j).
Proof.
  unfold shiftId. simpl. f_equal. f_equal.
  induction j as [|j IH]; simpl; [done|]. by rewrite IH.
Qed.

Lemma length_flat_map_const {B} (f : nat → list B) (l : list nat) m :
  (∀ j, length (f j) = m) → length (flat_map f l) = length l * m.
Proof.
  intros Hf. induction l as [|x l IH]; [done|].
  cbn [flat_map]. rewrite length_app, Hf, IH. simpl. lia.
Qed.

Lemma lookup_flat_map_seq {B} (g : nat → AccountId → B) (nodes : list AccountId)
    n : ∀ k i j node,
  i < n → nodes !! j = Some node →
  flat_map (λ a, map (g a) nodes) (seq k n) !! (i * length nodes + j)
  = Some (g (k + i) node).
Proof.
  induction n as [|n IH]; intros k i j node Hi Hj; [lia|].
  cbn [seq flat_map]. pose proof (lookup_lt_Some _ _ _ Hj) as Hlt.
  destruct i as [|i].
  - rewrite lookup_app_l by (rewrite length_map; lia).
    simpl. rewrite list_lookup_fmap, Hj, Nat.add_0_r. done.
  - rewrite lookup_app_r by (rewrite length_map; lia).
    rewrite length_map.
    replace (S i * length nodes + j - length nodes) with (i * length nodes + j) by lia.
    rewrite IH with (node := node) by (done || lia). f_equal. f_equal. lia.
Qed.

Lemma subarray_isRange (c : bytes) a b :
  b ≤ length c → isRange c (subarray c a b) a b.
Proof.
  intros Hb. unfold isRange, subarray. split.
  - rewrite length_take, length_drop. lia.
  - intros k Hk. rewrite lookup_take_lt by lia. by rewrite lookup_drop.
Qed.

(** *** Rounds of [executeAll] *)

Lemma requestOf_same t t' g : sameRequests t t' → requestOf t' g = requestOf t g.
Proof. intros (H1 & H2 & _). unfold requestOf. by rewrite H1, H2. Qed.

Lemma inGroup_same t t' g req :
  sameRequests t t' → inGroup t' g req → inGroup t g req.
Proof. intros (H1 & H2 & _). unfold inGroup. by rewrite H1, H2. Qed.

Lemma groups_same t t' : sameRequests t t' → groups t' = groups t.
Proof. intros (H1 & H2 & _). unfold groups. by rewrite H1, H2. Qed.

Lemma confirmed_same client t t' hist g k evs outcomes :
  sameRequests t t' → confirmed client t' hist g k evs outcomes →
  confirmed client t hist g k evs outcomes.
Proof.
  intros Hs H. induction H; econstructor; eauto.
  by eapply inGroup_same.
Qed.

Lemma failure_same client t t' hist g tail e :
  sameRequests t t' → failure client t' hist g tail e → failure client t hist g tail e.
Proof.
  intros Hs H. destruct H; econstructor; eauto; by eapply inGroup_same.
Qed.

Lemma confirmed_dispatch_bound client t hist g k evs outcomes j req :
  confirmed client t hist g k evs outcomes → EDispatch j req ∈ evs → g ≤ j < g + k.
Proof.
  intros H. induction H as [|hist g k req' id receipt evs outs ? ? ? ? IH];
    intros Hin.
  - by apply elem_of_nil in Hin.
  - apply elem_of_cons in Hin as [Heq|Hin]; [injection Heq as -> _; lia|].
    apply elem_of_cons in Hin as [Heq|Hin]; [done|].
    specialize (IH Hin). lia.
Qed.

Lemma failure_dispatch_bound client t hist g tail e j req :
  failure client t hist g tail e → EDispatch j req ∈ tail → j = g.
Proof.
  intros H Hin. destruct H.
  - apply list_elem_of_singleton in Hin. by injection Hin as -> _.
  - apply elem_of_cons in Hin as [Heq|Hin]; [by injection Heq as -> _|].
    by apply list_elem_of_singleton in Hin.
Qed.

Lemma confirmed_length client t hist g k evs outcomes :
  confirmed client t hist g k evs outcomes → length outcomes = k.
Proof. intros H. induction H; cbn; congruence. Qed.

(** Below the number of chunks, the request of the first node is there. *)
Lemma requestOf_groups t g :
  g < groups t → ∃ req, requestOf t g = Some req ∧ inGroup t g req.
Proof.
  unfold groups, requestOf, inGroup. intros Hg.
  set (n := length (_nodeIds t)) in *.
  assert (Hn : n ≠ 0) by (intros Hn; rewrite Hn in Hg; cbn in Hg; lia).
  pose proof (Nat.Div0.mul_div_le (length (_transactions t)) n) as Hle.
  assert (Hlt : g * n < length (_transactions t)) by nia.
  destruct (lookup_lt_is_Some_2 _ _ Hlt) as [req Hreq].
  exists req. split; [done|]. exists 0. split; [lia|].
  by rewrite Nat.add_0_r.
Qed.

Lemma super_execute_eq client t tr :
  super_execute client (mkWorld t tr) =
  match requestOf t (_nextGroupIndex t) with
  | None => (mkWorld t tr, Err TypeError)
  | Some req =>
      (mkWorld t (tr ++ [EDispatch (_nextGroupIndex t) req]),
       if isPrecheckCodeOk (net_precheck client tr req) false
       then Ok {| resp_nodeId := nodeAccountID req;
                  resp_transactionId := _transactionId t |}
       else Err (PrecheckRejected (net_precheck client tr req)))
  end.
Proof.
  unfold super_execute, requestOf, bind, get. cbn [this trace].
  destruct (_transactions t !! _) as [req|]; [|done].
  unfold bind, emit, modify, ret, throw. cbn [this trace].
  by destruct (isPrecheckCodeOk _ _).
Qed.

Lemma getReceipt_eq response client t tr :
  getReceipt response client (mkWorld t tr) =
  (mkWorld t (tr ++ [EReceipt (resp_transactionId response)]),
   net_receipt client tr (resp_transactionId response)).
Proof.
  unfold getReceipt, bind, get, emit, modify, ret, throw. cbn [this trace].
  by destruct (net_receipt _ _ _).
Qed.

Section WithChunkSize.

Variable C : nat.

(** *** Freezing *)

Lemma _makeTransaction_requestAt t id node :
  _transactionId t = Some id →
  _makeTransaction C t node
  = requestAt C (_fileId t) (_contents t) id (_startIndex t) node.
Proof.
  intros H. unfold _makeTransaction, _makeTransactionData, requestAt.
  rewrite H. f_equal. f_equal. destruct (_contents t) as [c|]; [|done].
  f_equal. f_equal.
  destruct (Nat.ltb_spec (length c) (_startIndex t + C)); lia.
Qed.

Lemma freeze_loop_eq n : ∀ k next t,
  freeze_loop C n k next t = loopState C n k next t.
Proof.
  induction n as [|n IH]; intros k next t.
  - unfold loopState. cbn [freeze_loop seq map flat_map].
    rewrite !app_nil_r. by destruct t.
  - cbn [freeze_loop freeze_chunk]. rewrite IH. unfold loopState.
    cbn [_fileId _contents _maxChunks _startIndex _transactionIds
         _transactionId _nodeIds _transactions _nextGroupIndex _frozen
         _signers set_startIndex set_transactionId set_transactionIds
         set_transactions].
    f_equal.
    + destruct n; [lia|]. lia.
    + rewrite <- app_assoc. f_equal. cbn [seq map app]. rewrite shiftId_0.
      f_equal. rewrite <- seq_shift, map_map. apply map_ext.
      intros j. apply shiftId_S.
    + destruct n; [by rewrite shiftId_0|]. by rewrite shiftId_S.
    + rewrite <- app_assoc. f_equal. cbn [seq flat_map]. f_equal.
      * rewrite shiftId_0, Nat.add_0_r. apply map_ext. intros node.
        by rewrite _makeTransaction_requestAt with (id := next).
      * rewrite <- seq_shift, (flat_map_concat_map _ (map S _)), map_map,
          <- flat_map_concat_map.
        apply flat_map_ext. intros j. rewrite shiftId_S.
        replace (S k + j) with (k + S j) by lia. done.
Qed.

Lemma super_freezeWith_unfrozen client t :
  _frozen t = false →
  super_freezeWith C client t = (superState C client t, Ok tt).
Proof.
  intros Hf. unfold super_freezeWith, superState, assignedId, selectedNodes,
    bind, get, modify, ret, throw, _isFrozen.
  rewrite Hf. destruct client as [c|]; cbn.
  - destruct (_transactionId t) as [id|] eqn:E;
      [|destruct (operatorAccountId c) as [op|] eqn:E2]; cbn; try done.
    all: unfold set_frozen, set_transactions, set_nodeIds, set_transactionId;
      cbn; rewrite ?E; done.
  - destruct (_transactionId t) as [id|] eqn:E; cbn.
    all: unfold set_frozen, set_transactions, set_nodeIds, set_transactionId;
      cbn; rewrite ?E; destruct t; cbn in *; subst; done.
Qed.

Lemma freezeWith_frozen client t :
  _frozen t = true → freezeWith C client t = (t, Err AlreadyFrozen).
Proof.
  intros Hf. unfold freezeWith, super_freezeWith, bind, get, throw, _isFrozen.
  by rewrite Hf.
Qed.

Lemma freezeWith_missing client t :
  _frozen t = false → assignedId client t = None →
  freezeWith C client t = (superState C client t, Err MissingIdentity).
Proof.
  intros Hf Hid. unfold freezeWith, bind.
  rewrite super_freezeWith_unfrozen by done. unfold get.
  cbn [superState _transactionId set_frozen set_transactions set_transactionId].
  by rewrite Hid.
Qed.

Lemma freezeWith_small client t id0 :
  _frozen t = false → assignedId client t = Some id0 →
  match _contents t with Some c => length c < C | None => True end →
  freezeWith C client t
  = (set_transactionIds [id0] (superState C client t), Ok tt).
Proof.
  intros Hf Hid Hc. unfold freezeWith, bind.
  rewrite super_freezeWith_unfrozen by done. unfold get.
  cbn [superState _transactionId set_frozen set_transactions set_transactionId].
  rewrite Hid. unfold modify.
  change (_contents (superState C client t)) with (_contents t).
  destruct (_contents t) as [c|]; [|done].
  destruct (Nat.ltb_spec (length c) C); [done|lia].
Qed.

Lemma freezeWith_too_large client t c id0 :
  _frozen t = false → assignedId client t = Some id0 →
  _contents t = Some c → C ≤ length c →
  (_maxChunks t < Z.of_nat (chunksOf C c))%Z →
  freezeWith C client t
  = (set_transactionIds [id0] (superState C client t),
     Err (PayloadTooLarge (length c) (_maxChunks t))).
Proof.
  intros Hf Hid Hc HL HM. unfold freezeWith, bind.
  rewrite super_freezeWith_unfrozen by done. unfold get.
  cbn [superState _transactionId set_frozen set_transactions set_transactionId].
  rewrite Hid. unfold modify.
  change (_contents (superState C client t)) with (_contents t).
  change (_maxChunks (superState C client t)) with (_maxChunks t). rewrite Hc.
  destruct (Nat.ltb_spec (length c) C); [lia|].
  fold (chunksOf C c).
  destruct (Z.ltb_spec (_maxChunks t) (Z.of_nat (chunksOf C c))); [done|lia].
Qed.

Lemma freezeWith_chunked client t c id0 :
  _frozen t = false → assignedId client t = Some id0 →
  _contents t = Some c → C ≤ length c →
  (Z.of_nat (chunksOf C c) ≤ _maxChunks t)%Z →
  freezeWith C client t = (frozenChunked C client t c id0, Ok tt).
Proof.
  intros Hf Hid Hc HL HM. unfold freezeWith, bind.
  rewrite super_freezeWith_unfrozen by done. unfold get.
  cbn [superState _transactionId set_frozen set_transactions set_transactionId].
  rewrite Hid. unfold modify.
  change (_contents (superState C client t)) with (_contents t).
  change (_maxChunks (superState C client t)) with (_maxChunks t). rewrite Hc.
  destruct (Nat.ltb_spec (length c) C); [lia|].
  fold (chunksOf C c).
  destruct (Z.ltb_spec (_maxChunks t) (Z.of_nat (chunksOf C c))); [lia|].
  unfold ret. f_equal. rewrite freeze_loop_eq.
  apply FAT_ext;
    cbn [loopState frozenChunked superState set_startIndex
         set_transactionId set_transactionIds set_transactions set_frozen
         set_nodeIds _fileId _contents _maxChunks _startIndex _transactionIds
         _transactionId _nodeIds _transactions _nextGroupIndex _frozen
         _signers app]; rewrite ?Hc; try reflexivity.
Qed.

Lemma freezeWith_frozen_after client t t1 :
  _frozen t = false → freezeWith C client t = (t1, Ok tt) → _frozen t1 = true.
Proof.
  intros Hf Hrun.
  destruct (assignedId client t) as [id0|] eqn:Hid.
  2:{ rewrite freezeWith_missing in Hrun by done. congruence. }
  destruct (_contents t) as [c|] eqn:Hc.
  2:{ rewrite (freezeWith_small client t id0) in Hrun by (done || by rewrite Hc).
      by injection Hrun as <-. }
  destruct (Nat.lt_ge_cases (length c) C).
  { rewrite (freezeWith_small client t id0) in Hrun by (done || by rewrite Hc).
    by injection Hrun as <-. }
  destruct (Z.lt_ge_cases (_maxChunks t) (Z.of_nat (chunksOf C c))).
  { rewrite (freezeWith_too_large client t c id0) in Hrun by done. congruence. }
  rewrite (freezeWith_chunked client t c id0) in Hrun by done.
  by injection Hrun as <-.
Qed.

(** Below the 64-bit bound, the identity of step [j] starts [10 * j]
    seconds after the first. *)
Lemma shiftId_seconds id j :
  (- 2 ^ 63 ≤ seconds (validStart id))%Z →
  (seconds (validStart id) + 10 * Z.of_nat j < 2 ^ 63)%Z →
  shiftId id j
  = mkTransactionId (accountId id)
      (mkTimestamp (seconds (validStart id) + 10 * Z.of_nat j)
                   (nanos (validStart id))).
Proof.
  intros Hlo Hhi. unfold shiftId. f_equal. f_equal.
  induction j as [|j IH]; [cbn; lia|].
  rewrite Nat.iter_succ, IH by lia. unfold Long_add, wrap64.
  rewrite Z.mod_small by lia. lia.
Qed.

(** What freezing leaves in the chunked case: the request of chunk [i]
    carries the identity of step [i], and the list of identities holds the
    assigned identity first and then the identity of every step, so that
    its entry [i + 1], not its entry [i], is the identity of chunk [i]. *)
Lemma freezeWith_identity_list client t c id0 t' :
  _frozen t = false → assignedId client t = Some id0 →
  _contents t = Some c → C ≤ length c →
  freezeWith C client t = (t', Ok tt) →
  _transactionIds t' !! 0 = Some id0
  ∧ ∀ i, i < chunksOf C c →
      _transactionIds t' !! S i = Some (shiftId id0 i)
      ∧ ∀ j node, _nodeIds t' !! j = Some node →
          ∃ req, _transactions t' !! (i * length (_nodeIds t') + j) = Some req
                 ∧ transactionID req = Some (shiftId id0 i).
Proof.
  intros Hf Hid Hc HL Hrun.
  destruct (Z.lt_ge_cases (_maxChunks t) (Z.of_nat (chunksOf C c))) as [Hlt|Hge].
  { rewrite (freezeWith_too_large client t c id0) in Hrun by done. congruence. }
  rewrite (freezeWith_chunked client t c id0) in Hrun by done.
  injection Hrun as <-. cbn [frozenChunked _transactionIds _transactions _nodeIds].
  split; [done|]. intros i Hi. split.
  - change (map (shiftId id0) (seq 0 (chunksOf C c)) !! i = Some (shiftId id0 i)).
    rewrite list_lookup_fmap.
    by rewrite (proj2 (lookup_seq 0 (chunksOf C c) i i) (conj eq_refl Hi)).
  - intros j node Hj. eexists. split; [by apply lookup_flat_map_seq|done].
Qed.

(** Below the chunk size nothing is split: when the start index is 0, as
    the constructor leaves it, every request carries the whole contents. *)
Lemma freezeWith_single_request client t c id0 t' :
  _frozen t = false → assignedId client t = Some id0 →
  _contents t = Some c → length c < C → _startIndex t = 0 →
  freezeWith C client t = (t', Ok tt) →
  length (_transactions t') = length (_nodeIds t')
  ∧ ∀ req, req ∈ _transactions t' →
      transactionID req = Some id0 ∧ contents (fileAppend req) = Some c.
Proof.
  intros Hf Hid Hc HL Hs Hrun.
  rewrite (freezeWith_small client t id0) in Hrun by (done || by rewrite Hc).
  injection Hrun as <-.
  cbn [superState set_transactionIds set_frozen set_transactions
       _transactions _nodeIds].
  split; [by rewrite length_map|].
  intros req Hin. apply list_elem_of_fmap in Hin as (node & -> & _).
  unfold _makeTransaction, _makeTransactionData.
  cbn [transactionID fileAppend contents set_transactionId set_nodeIds
       _transactionId _contents _startIndex].
  rewrite Hid, Hc, Hs. split; [done|]. f_equal. unfold subarray.
  destruct (Nat.ltb_spec (length c) (0 + C)); [|lia].
  by rewrite Nat.sub_0_r, drop_0, take_ge.
Qed.

Lemma subarray_chunk (c : bytes) i :
  subarray c (i * C) (Nat.min (i * C + C) (length c)) = take C (drop (i * C) c).
Proof.
  unfold subarray.
  destruct (Nat.le_gt_cases (i * C + C) (length c)).
  - f_equal. lia.
  - rewrite Nat.min_r by lia.
    rewrite !take_ge; [done| |]; rewrite length_drop; lia.
Qed.

Lemma concat_chunks (c : bytes) n :
  concat (map (λ i, take C (drop (i * C) c)) (seq 0 n)) = take (n * C) c.
Proof.
  induction n as [|n IH]; [done|].
  rewrite seq_S, map_app, concat_app, IH. cbn [map concat Nat.add].
  rewrite app_nil_r, take_take_drop. f_equal. lia.
Qed.

(** *** Executing *)

Lemma executeAll_loop_S client fuel count rs t tr :
  executeAll_loop client (S fuel) count rs (mkWorld t tr) =
  if _nextGroupIndex t <? count then
    let t1 := set_transactionId (_transactionIds t !! _nextGroupIndex t) t in
    match super_execute client (mkWorld t1 tr) with
    | (w1, Ok response) =>
        match getReceipt response client w1 with
        | (w2, Ok _) =>
            executeAll_loop client fuel count (rs ++ [response])
              (mkWorld (set_nextGroupIndex (S (_nextGroupIndex (this w2))) (this w2))
                       (trace w2))
        | (w2, Err e) => (w2, Err e)
        end
    | (w1, Err e) => (w1, Err e)
    end
  else (mkWorld t tr, Ok rs).
Proof.
  cbn [executeAll_loop]. unfold bind at 1, get at 1. cbn [this trace].
  destruct (_nextGroupIndex t <? count); [|done].
  unfold bind at 1, lift at 1, modify at 1. cbn [this trace].
  unfold bind at 1.
  destruct (super_execute _ _) as [w1 [response|e]]; [|done].
  unfold bind at 1.
  destruct (getReceipt _ _ _) as [w2 [receipt|e]]; [|done].
  unfold bind at 1, lift at 1, modify at 1. done.
Qed.

Lemma executeAll_loop_spec client fuel : ∀ count rs w w' r,
  executeAll_loop client fuel count rs w = (w', r) →
  _nextGroupIndex (this w) + fuel = count →
  count ≤ groups (this w) →
  sameRequests (this w) (this w') ∧
  ∃ k evs tail outcomes,
    trace w' = trace w ++ evs ++ tail
    ∧ confirmed client (this w) (trace w) (_nextGroupIndex (this w)) k evs
        outcomes
    ∧ match r with
      | Ok rs' => tail = [] ∧ _nextGroupIndex (this w) + k = count
                  ∧ rs' = rs ++ outcomes
      | Err e => _nextGroupIndex (this w) + k < count
                 ∧ failure client (this w) (trace w ++ evs)
                     (_nextGroupIndex (this w) + k) tail e
      end.
Proof.
  induction fuel as [|fuel IH]; intros count rs w w' r Hrun Hg Hcount.
  - cbn in Hrun. injection Hrun as <- <-. split; [done|].
    exists 0, [], [], []. rewrite !app_nil_r. repeat split; try lia. constructor.
  - destruct w as [t tr]. rewrite executeAll_loop_S in Hrun.
    cbn [this trace] in *.
    destruct (Nat.ltb_spec (_nextGroupIndex t) count) as [Hlt|Hge]; [|lia].
    cbn zeta in Hrun. rewrite super_execute_eq in Hrun.
    change (requestOf (set_transactionId _ t) _)
      with (requestOf t (_nextGroupIndex t)) in Hrun.
    cbn [_nextGroupIndex _transactionId set_transactionId] in Hrun.
    set (g := _nextGroupIndex t) in *.
    destruct (requestOf_groups t g) as (req & Hreq & Hin); [lia|].
    rewrite Hreq in Hrun.
    destruct (isPrecheckCodeOk (net_precheck client tr req) false) eqn:Hpre.
    2:{ injection Hrun as <- <-. cbn. split; [done|].
        exists 0, [], [EDispatch g req], []. split; [done|]. split; [constructor|].
        split; [lia|]. rewrite app_nil_r, Nat.add_0_r. by constructor. }
    rewrite getReceipt_eq in Hrun. cbn [resp_transactionId] in Hrun.
    destruct (net_receipt client (tr ++ [EDispatch g req]) (_transactionIds t !! g))
      as [receipt|e] eqn:Hrec.
    2:{ injection Hrun as <- <-. cbn. split; [done|].
        exists 0, [], [EDispatch g req; EReceipt (_transactionIds t !! g)], [].
        split; [by rewrite <- app_assoc|]. split; [constructor|].
        split; [lia|]. rewrite app_nil_r, Nat.add_0_r. by constructor. }
    cbn [this trace set_nextGroupIndex _nextGroupIndex set_transactionId] in Hrun.
    apply IH in Hrun; [|cbn; lia|done].
    cbn [this trace _nextGroupIndex set_nextGroupIndex] in Hrun.
    destruct Hrun as (Hsame & k & evs & tail & outs & Htr & Hconf & Hres).
    fold g in Hsame, Hconf, Hres.
    assert (Hs : sameRequests t
              (set_nextGroupIndex (S g) (set_transactionId (_transactionIds t !! g) t)))
      by done.
    split.
    { destruct Hsame as (? & ? & ?). by repeat split. }
    exists (S k), (EDispatch g req :: EReceipt (_transactionIds t !! g) :: evs), tail,
      (mkResponse (nodeAccountID req) (_transactionIds t !! g) :: outs).
    split; [by rewrite Htr, <- !app_assoc|].
    split.
    { econstructor; eauto. rewrite <- !app_assoc in Hconf.
      eapply confirmed_same; eauto. }
    destruct r as [rs'|e].
    + destruct Hres as (-> & Hk & ->).
      split; [done|]. split; [lia|]. by rewrite <- app_assoc.
    + destruct Hres as (Hk & Hfail). split; [lia|].
      replace (g + S k) with (S g + k) by lia.
      eapply failure_same; eauto.
      by rewrite <- !app_assoc in *.
Qed.

Lemma executeAll_eq client t tr :
  executeAll C client (mkWorld t tr) =
  match prepare C client t with
  | (t2, Err e) => (mkWorld t2 tr, Err e)
  | (t2, Ok _) =>
      let count := length (_transactions t2) / length (_nodeIds t2) in
      executeAll_loop client count count [] (mkWorld (set_nextGroupIndex 0 t2) tr)
  end.
Proof.
  unfold executeAll, prepare. unfold bind at 1, get at 1. cbn [this trace].
  unfold bind at 1, _isFrozen.
  assert (Hfz : (if _frozen t then ret () else lift (freezeWith C (Some client)))
                  (mkWorld t tr)
                = (let '(t1, r) := (if _frozen t then (t, Ok ())
                                    else freezeWith C (Some client) t) in
                   (mkWorld t1 tr, r))).
  { destruct (_frozen t); [done|]. unfold lift. cbn [this trace].
    by destruct (freezeWith _ _ _). }
  rewrite Hfz. clear Hfz.
  destruct (if _frozen t then _ else _) as [t1 [[]|e]]; [|done].
  unfold bind at 1, get at 1. cbn [this trace]. unfold bind at 1.
  destruct (operatorAccountId client) as [op|].
  - destruct (_transactionId t1) as [id|]; [|done].
    destruct (decide (op = accountId id)).
    + unfold super_signWithOperator, lift at 1, modify at 1. cbn [this trace].
      unfold bind at 1, get at 1. cbn [this trace].
      unfold bind at 1, lift at 1, modify at 1. done.
    + unfold ret at 1. unfold bind at 1, get at 1. cbn [this trace].
      unfold bind at 1, lift at 1, modify at 1. done.
  - unfold ret at 1. unfold bind at 1, get at 1. cbn [this trace].
    unfold bind at 1, lift at 1, modify at 1. done.
Qed.

(** C2, as the code has it.  When the steps before the loop fail (the
    freeze, or the missing identity), [executeAll] fails with that error
    and nothing is dispatched.  Otherwise it dispatches the chunks in order
    from chunk 0; after each dispatch accepted at the precheck it awaits a
    receipt, and only a receipt that comes back lets the next chunk go.
    When every chunk was confirmed it returns the responses to the
    dispatches, in their order.  At the first chunk [k] whose dispatch is
    rejected or whose receipt fails it stops: nothing is dispatched after
    chunk [k], and the call fails with the error of that dispatch or of
    that receipt alone, the outcomes collected so far are not part of what
    comes back. *)
Theorem C2_chunks_in_order_until_first_failure client w :
  let w' := fst (executeAll C client w) in
  let r := snd (executeAll C client w) in
  match prepare C client (this w) with
  | (t2, Err e) => w' = mkWorld t2 (trace w) ∧ r = Err e
  | (t2, Ok _) =>
      sameRequests t2 (this w')
      ∧ ∃ k evs tail outcomes,
          trace w' = trace w ++ evs ++ tail
          ∧ confirmed client t2 (trace w) 0 k evs outcomes
          ∧ (∀ g req, EDispatch g req ∈ evs ++ tail → g ≤ k)
          ∧ ((k = groups t2 ∧ tail = [] ∧ r = Ok outcomes)
             ∨ (k < groups t2
                ∧ ∃ e, r = Err e
                       ∧ failure client t2 (trace w ++ evs) k tail e
                       ∧ ∀ outcomes', r ≠ Ok outcomes'))
  end.
Proof.
  destruct w as [t tr]. cbn zeta. rewrite executeAll_eq. cbn [this trace].
  destruct (prepare C client t) as [t2 [[]|e]]; [|done].
  cbn zeta.
  destruct (executeAll_loop _ _ _ _ _) as [w' r] eqn:Hrun.
  apply executeAll_loop_spec in Hrun; [|done|done].
  cbn [this trace fst snd _nextGroupIndex set_nextGroupIndex] in *.
  destruct Hrun as (Hsame & k & evs & tail & outs & Htr & Hconf & Hres).
  assert (Hs : sameRequests t2 (set_nextGroupIndex 0 t2)) by done.
  split.
  { destruct Hsame as (H1 & H2 & H3). by repeat split. }
  exists k, evs, tail, outs. split; [done|].
  assert (Hconf' : confirmed client t2 tr 0 k evs outs)
    by (eapply confirmed_same; eauto).
  split; [done|]. split.
  { intros g req Hin. apply elem_of_app in Hin as [Hin|Hin].
    - pose proof (confirmed_dispatch_bound _ _ _ _ _ _ _ _ _ Hconf Hin). lia.
    - destruct r as [rs|e].
      + destruct Hres as (-> & _). by apply elem_of_nil in Hin.
      + destruct Hres as (_ & Hfail).
        by rewrite (failure_dispatch_bound _ _ _ _ _ _ _ _ Hfail Hin). }
  destruct r as [rs|e].
  - left. destruct Hres as (-> & Hk & ->). by repeat split.
  - right. destruct Hres as (Hk & Hfail). split; [done|].
    exists e. split; [done|]. split; [|done].
    eapply failure_same; eauto.
Qed.

(** C6, as the code has it: on a frozen transaction the setters of the
    file id, the contents and the maximal number of chunks throw and change
    nothing; on a transaction that is not frozen [executeAll] first freezes
    it with the client and goes on as for the frozen one, failing only
    with the error of the freeze. *)
Theorem C6_setters_fail_execute_freezes client t tr fileId c maxChunks
    (fromString : string → option FileId) (encode : string → bytes) :
  (_frozen t = true →
     setFileId fromString fileId t = (t, Err Immutable)
     ∧ setContents encode c t = (t, Err Immutable)
     ∧ setMaxChunks maxChunks t = (t, Err Immutable))
  ∧ (_frozen t = false →
     executeAll C client (mkWorld t tr) =
     match freezeWith C (Some client) t with
     | (t1, Ok _) => executeAll C client (mkWorld t1 tr)
     | (t1, Err e) => (mkWorld t1 tr, Err e)
     end).
Proof.
  split.
  - intros Hf.
    unfold setFileId, setContents, setMaxChunks, _requireNotFrozen, bind, get,
      throw, _isFrozen.
    by rewrite Hf.
  - intros Hf. rewrite executeAll_eq. unfold prepare at 1. rewrite Hf.
    destruct (freezeWith C (Some client) t) as [t1 [[]|e]] eqn:Hfr; [|done].
    rewrite executeAll_eq. unfold prepare.
    by rewrite (freezeWith_frozen_after _ _ _ Hf Hfr).
Qed.

Hypothesis C_pos : 0 < C.

(** *** Counting chunks *)

Lemma chunksOf_ceil c : Z.of_nat (chunksOf C c) = ceilDiv C (length c).
Proof.
  unfold chunksOf, ceilDiv, Qceiling, Qfloor. cbn [Qopp Qnum Qden].
  rewrite Nat2Z.inj_div, Nat2Z.inj_add, Nat2Z.inj_sub by lia.
  replace (Z.pos (Pos.of_nat C)) with (Z.of_nat C)
    by (destruct C; [lia|]; by rewrite <- Pos.of_nat_succ, Zpos_P_of_succ_nat, Nat2Z.inj_succ).
  set (L := Z.of_nat (length c)). set (c' := Z.of_nat C).
  assert (0 < c')%Z by (subst c'; lia).
  symmetry. apply Z.div_unique with (r := (c' - 1 - (- L) mod c')%Z).
  - left. pose proof (Z.mod_pos_bound (- L) c'). lia.
  - pose proof (Z.div_mod (- L) c'). lia.
Qed.

Lemma chunksOf_covers c : length c ≤ chunksOf C c * C.
Proof.
  unfold chunksOf.
  pose proof (Nat.div_mod (length c + (C - 1)) C).
  pose proof (Nat.mod_upper_bound (length c + (C - 1)) C). lia.
Qed.

(** C4, as the code has it: for contents of length [L] at least the chunk
    size, freezing fails as too large exactly when ceil(L/C) exceeds the
    maximal number of chunks, and otherwise builds ceil(L/C) requests per
    node; for contents shorter than the chunk size it never fails for size
    and keeps one request per node. *)
Theorem C4_chunk_count_and_limit client t c id0 :
  _frozen t = false → _contents t = Some c → assignedId client t = Some id0 →
  let L := length c in
  let M := _maxChunks t in
  let t' := fst (freezeWith C client t) in
  let r := snd (freezeWith C client t) in
  (C ≤ L →
     (r = Err (PayloadTooLarge L M) ↔ (M < ceilDiv C L)%Z)
     ∧ ((ceilDiv C L ≤ M)%Z →
          r = Ok tt
          ∧ Z.of_nat (length (_transactions t'))
            = (ceilDiv C L * Z.of_nat (length (_nodeIds t')))%Z))
  ∧ (L < C →
       r = Ok tt ∧ length (_transactions t') = length (_nodeIds t')).
Proof.
  intros Hf Hc Hid. cbn zeta. split.
  - intros HL. rewrite <- chunksOf_ceil by done.
    destruct (Z.lt_ge_cases (_maxChunks t) (Z.of_nat (chunksOf C c))) as [Hlt|Hge].
    + rewrite (freezeWith_too_large client t c id0) by done. cbn [fst snd].
      split; [done|lia].
    + rewrite (freezeWith_chunked client t c id0) by done. cbn [fst snd].
      split; [split; [done|lia]|]. intros _. split; [done|].
      cbn [frozenChunked _transactions _nodeIds].
      rewrite length_flat_map_const with (m := length (selectedNodes client t))
        by (intros; by rewrite length_map).
      rewrite length_seq. lia.
  - intros HL.
    rewrite (freezeWith_small client t id0) by (done || by rewrite Hc).
    cbn [fst snd]. split; [done|].
    unfold superState, set_transactionIds, set_frozen, set_transactions.
    cbn [_transactions _nodeIds]. by rewrite length_map.
Qed.

(** C5: after freezing contents of length at least the chunk size, the
    object holds, for the nodes selected, one request per chunk and node
    and no other: in the order of the chunks, and within a chunk in the
    order of the nodes; the requests of chunk [i] carry the bytes of the
    range [i*C, min((i+1)*C, L)) of the contents, there are ceil(L/C)
    chunks, and the chunks in order concatenate to the contents. *)
Theorem C5_chunk_ranges client t c id0 t' :
  _frozen t = false → _contents t = Some c → assignedId client t = Some id0 →
  C ≤ length c →
  freezeWith C client t = (t', Ok tt) →
  ∃ chunks : list bytes,
    Z.of_nat (length chunks) = ceilDiv C (length c)
    ∧ concat chunks = c
    ∧ (∀ i chunk, chunks !! i = Some chunk →
         isRange c chunk (i * C) (Nat.min ((i + 1) * C) (length c)))
    ∧ _nodeIds t' = selectedNodes client t
    ∧ map (λ req, (nodeAccountID req, contents (fileAppend req)))
          (_transactions t')
      = flat_map (λ chunk, map (λ node, (node, Some chunk))
                               (selectedNodes client t)) chunks
    ∧ (∀ i chunk j node,
         chunks !! i = Some chunk → selectedNodes client t !! j = Some node →
         ∃ req, _transactions t' !! (i * length (selectedNodes client t) + j)
                = Some req
                ∧ nodeAccountID req = node
                ∧ contents (fileAppend req) = Some chunk).
Proof.
  intros Hf Hc Hid HL Hrun.
  destruct (Z.lt_ge_cases (_maxChunks t) (Z.of_nat (chunksOf C c))) as [Hlt|Hge].
  { rewrite (freezeWith_too_large client t c id0) in Hrun by done. congruence. }
  rewrite (freezeWith_chunked client t c id0) in Hrun by done.
  injection Hrun as <-.
  exists (map (λ i, take C (drop (i * C) c)) (seq 0 (chunksOf C c))).
  split; [by rewrite length_map, length_seq, chunksOf_ceil|].
  split; [rewrite concat_chunks; apply take_ge; by apply chunksOf_covers|].
  split.
  { intros i chunk Hi. rewrite list_lookup_fmap in Hi.
    destruct (seq 0 (chunksOf C c) !! i) as [i'|] eqn:Hseq; [|done].
    apply lookup_seq in Hseq as [-> Hlt]. cbn in Hi. injection Hi as <-.
    rewrite <- (subarray_chunk c i).
    replace ((i + 1) * C) with (i * C + C) by lia.
    apply subarray_isRange; lia. }
  split; [done|].
  cbn [frozenChunked _transactions _nodeIds]. split.
  { generalize (seq 0 (chunksOf C c)). intros l.
    induction l as [|i l IH]; [done|].
    cbn [flat_map map]. rewrite map_app, IH. f_equal.
    rewrite map_map. apply map_ext. intros node.
    cbn [requestAt nodeAccountID fileAppend contents].
    by rewrite subarray_chunk. }
  intros i chunk j node Hi Hj. rewrite list_lookup_fmap in Hi.
  destruct (seq 0 (chunksOf C c) !! i) as [i'|] eqn:Hseq; [|done].
  apply lookup_seq in Hseq as [-> Hlt]. cbn in Hi. injection Hi as <-.
  eexists. split; [by apply lookup_flat_map_seq|].
  cbn [requestAt nodeAccountID fileAppend contents].
  by rewrite subarray_chunk.
Qed.

End WithChunkSize.

End FileAppendFacts.

(** ** Facts about Transaction *)

Module TxFacts.
Import Tx TxSpec.

(** *** The store *)

Lemma alloc_eq o (σ : Store) :
  alloc o σ = (<[fresh (dom σ) := o]> σ, Ok (fresh (dom σ))).
Proof. done. Qed.

Lemma fresh_None (σ : Store) : σ !! fresh (dom σ) = None.
Proof. apply not_elem_of_dom, is_fresh. Qed.

Lemma alloc_extends o (σ : Store) : σ ⊆ fst (alloc o σ).
Proof. apply insert_subseteq, fresh_None. Qed.

Lemma readPair_weaken (σ σ' : Store) l p :
  σ ⊆ σ' → readPair σ l = Some p → readPair σ' l = Some p.
Proof.
  intros Hsub. unfold readPair.
  destruct (σ !! l) as [o|] eqn:E; [|done].
  by rewrite (lookup_weaken _ _ _ _ E Hsub).
Qed.

Lemma readPairs_weaken (σ σ' : Store) ls ps :
  σ ⊆ σ' → mapM (readPair σ) ls = Some ps → mapM (readPair σ') ls = Some ps.
Proof.
  intros Hsub H. apply mapM_Some. apply mapM_Some in H.
  eapply Forall2_impl; [exact H|]. intros l p. by apply readPair_weaken.
Qed.

Lemma view_weaken (σ σ' : Store) l m :
  σ ⊆ σ' → view σ l = Some m → view σ' l = Some m.
Proof.
  intros Hsub. unfold view.
  destruct (σ !! l) as [[bb [lm|]|?|? ?]|] eqn:E; try done;
    rewrite (lookup_weaken _ _ _ _ E Hsub); [|done].
  destruct (σ !! lm) as [[?|ls|? ?]|] eqn:E2; try done.
  rewrite (lookup_weaken _ _ _ _ E2 Hsub).
  destruct (mapM (readPair σ) ls) as [ps|] eqn:E3; [|done].
  by rewrite (readPairs_weaken _ _ _ _ Hsub E3).
Qed.

Lemma apart_refl (σ : Store) : apart σ σ.
Proof.
  split; [done|]. intros l o Hl Ho. apply not_elem_of_dom in Hl. congruence.
Qed.

Lemma apart_dom (σ0 σ : Store) l : apart σ0 σ → l ∉ dom σ → l ∉ dom σ0.
Proof.
  intros [Hsub _] Hl Hl0. apply Hl. apply elem_of_dom.
  apply elem_of_dom in Hl0 as [o Ho]. exists o. by eapply lookup_weaken.
Qed.

Lemma apart_insert (σ0 σ : Store) l o :
  apart σ0 σ → l ∉ dom σ0 → Forall (λ r, r ∉ dom σ0) (refs o) →
  apart σ0 (<[l := o]> σ).
Proof.
  intros [Hsub Hcl] Hl Ho. split.
  - apply insert_subseteq_r; [by apply not_elem_of_dom|done].
  - intros l' o' Hl' Hlook. destruct (decide (l = l')) as [->|Hne].
    + rewrite lookup_insert_eq in Hlook. by injection Hlook as <-.
    + rewrite lookup_insert_ne in Hlook by done. by eapply Hcl.
Qed.

Lemma apart_alloc (σ0 σ : Store) o :
  apart σ0 σ → Forall (λ r, r ∉ dom σ0) (refs o) →
  apart σ0 (fst (alloc o σ)) ∧ fresh (dom σ) ∉ dom σ0.
Proof.
  intros Hap Ho.
  assert (fresh (dom σ) ∉ dom σ0) by (eapply apart_dom; [done|apply is_fresh]).
  split; [|done]. by apply apart_insert.
Qed.

Lemma apart_refs (σ0 σ : Store) l o :
  apart σ0 σ → l ∉ dom σ0 → σ !! l = Some o → Forall (λ r, r ∉ dom σ0) (refs o).
Proof. intros [_ Hcl]. apply Hcl. Qed.

Lemma apart_view (σ0 σ : Store) l m :
  apart σ0 σ → view σ0 l = Some m → view σ l = Some m.
Proof. intros [Hsub _]. by apply view_weaken. Qed.

(** [allocPairs] and [materialize] never throw; they extend the store by
    objects that refer to new objects only, and the new graph has the
    value it was built from. *)
Lemma allocPairs_spec ps : ∀ (σ0 σ : Store),
  apart σ0 σ →
  ∃ σ' ls, allocPairs ps σ = (σ', Ok ls)
    ∧ σ ⊆ σ' ∧ apart σ0 σ'
    ∧ mapM (readPair σ') ls = Some ps
    ∧ Forall (λ r, r ∉ dom σ0) ls.
Proof.
  induction ps as [|p ps IH]; intros σ0 σ Hap.
  - exists σ, []. repeat split; try done. apply Hap. apply Hap.
  - cbn [allocPairs]. unfold bind at 1. rewrite alloc_eq.
    destruct (apart_alloc σ0 σ (OSignaturePair (pubkeyprefix p) (ed25519 p)) Hap)
      as [Hap1 Hfresh]; [by constructor|].
    cbn [fst alloc] in Hap1.
    destruct (IH σ0 _ Hap1) as (σ' & ls & Hrun & Hsub & Hap' & Hread & Hls).
    unfold bind at 1. rewrite Hrun. unfold ret.
    exists σ', (fresh (dom σ) :: ls). split; [done|].
    split.
    { etrans; [|exact Hsub]. apply insert_subseteq, fresh_None. }
    split; [done|]. split; [|by constructor].
    apply mapM_Some. constructor; [|by apply mapM_Some].
    eapply readPair_weaken; [exact Hsub|].
    unfold readPair. rewrite lookup_insert_eq. by destruct p.
Qed.

Lemma materialize_spec m (σ0 σ : Store) :
  apart σ0 σ →
  ∃ σ' l, materialize m σ = (σ', Ok l)
    ∧ σ ⊆ σ' ∧ apart σ0 σ' ∧ view σ' l = Some m ∧ (l ∉ dom σ0) ∧ (l ∉ dom σ).
Proof.
  intros Hap. unfold materialize. destruct m as [bb [ps|]]; cbn [sigmap bodybytes].
  - destruct (allocPairs_spec ps σ0 σ Hap) as (σ1 & ls & Hrun & Hsub & Hap1 & Hread & Hls).
    unfold bind at 1. rewrite Hrun. unfold bind at 1. rewrite alloc_eq.
    rewrite alloc_eq.
    destruct (apart_alloc σ0 σ1 (OSignatureMap ls) Hap1) as [Hap2 Hlm]; [done|].
    cbn [fst alloc] in Hap2.
    set (lm := fresh (dom σ1)) in *. set (σ2 := <[lm := OSignatureMap ls]> σ1) in *.
    destruct (apart_alloc σ0 σ2 (OTransaction bb (Some lm)) Hap2) as [Hap3 Hl];
      [by constructor|].
    cbn [fst alloc] in Hap3.
    set (l := fresh (dom σ2)) in *.
    exists (<[l := OTransaction bb (Some lm)]> σ2), l.
    assert (Hsub2 : σ1 ⊆ σ2) by apply insert_subseteq, fresh_None.
    assert (Hsub3 : σ2 ⊆ <[l := OTransaction bb (Some lm)]> σ2)
      by apply insert_subseteq, fresh_None.
    split; [done|]. split; [by etrans; [|etrans]|]. split; [done|].
    split; [|split; [done|]].
    + unfold view. rewrite lookup_insert_eq.
      assert (l ≠ lm).
      { intros Heq. pose proof (fresh_None σ2) as Hn. fold l in Hn.
        rewrite Heq in Hn. subst σ2. by rewrite lookup_insert_eq in Hn. }
      rewrite lookup_insert_ne by done. subst σ2. rewrite lookup_insert_eq.
      erewrite readPairs_weaken; [done| |exact Hread]. by etrans.
    + intros Hin. apply (is_fresh (dom σ2)). fold l.
      apply elem_of_dom. apply elem_of_dom in Hin as [o Ho].
      exists o. eapply lookup_weaken; [exact Ho|]. by etrans.
  - rewrite alloc_eq.
    destruct (apart_alloc σ0 σ (OTransaction bb None) Hap) as [Hap1 Hl]; [done|].
    cbn [fst alloc] in Hap1.
    exists (<[fresh (dom σ) := OTransaction bb None]> σ), (fresh (dom σ)).
    split; [done|]. split; [apply insert_subseteq, fresh_None|].
    split; [done|]. split; [|split; [done|apply is_fresh]].
    unfold view. by rewrite lookup_insert_eq.
Qed.

(** *** Mutating a message that lives apart *)

Lemma getSigmap_eq l (σ : Store) :
  getSigmap l σ
  = (σ, match σ !! l with
        | Some (OTransaction _ sm) => Ok sm
        | _ => Err Dangling
        end).
Proof.
  unfold getSigmap, bind, get, ret, throw.
  by destruct (σ !! l) as [[]|].
Qed.

Lemma getSigpairList_eq l (σ : Store) :
  getSigpairList l σ
  = (σ, match σ !! l with
        | Some (OSignatureMap ls) => Ok ls
        | _ => Err Dangling
        end).
Proof.
  unfold getSigpairList, bind, get, ret, throw.
  by destruct (σ !! l) as [[]|].
Qed.

Lemma getBodybytes_eq l (σ : Store) :
  getBodybytes_asU8 l σ
  = (σ, match σ !! l with
        | Some (OTransaction bb _) => Ok bb
        | _ => Err Dangling
        end).
Proof.
  unfold getBodybytes_asU8, bind, get, ret, throw.
  by destruct (σ !! l) as [[]|].
Qed.

Lemma getBodybytes_view l (σ : Store) m :
  view σ l = Some m → getBodybytes_asU8 l σ = (σ, Ok (bodybytes m)).
Proof.
  intros Hv. rewrite getBodybytes_eq. unfold view in Hv.
  destruct (σ !! l) as [[bb [lm|]|?|? ?]|]; try done.
  - destruct (σ !! lm) as [[?|ls|? ?]|]; try done.
    destruct (mapM _ _); [|done]. by injection Hv as <-.
  - by injection Hv as <-.
Qed.

Lemma setSigmap_eq l sm (σ : Store) :
  setSigmap l sm σ
  = match σ !! l with
    | Some (OTransaction bb _) => (<[l := OTransaction bb sm]> σ, Ok tt)
    | _ => (σ, Err Dangling)
    end.
Proof.
  unfold setSigmap, bind, get, modify, throw.
  by destruct (σ !! l) as [[]|].
Qed.

Lemma setBodybytes_eq l bb (σ : Store) :
  setBodybytes l bb σ
  = match σ !! l with
    | Some (OTransaction _ sm) => (<[l := OTransaction bb sm]> σ, Ok tt)
    | _ => (σ, Err Dangling)
    end.
Proof.
  unfold setBodybytes, bind, get, modify, throw.
  by destruct (σ !! l) as [[]|].
Qed.

Lemma addSigpair_eq lm lp (σ : Store) :
  addSigpair lm lp σ
  = match σ !! lm with
    | Some (OSignatureMap ls) => (<[lm := OSignatureMap (ls ++ [lp])]> σ, Ok tt)
    | _ => (σ, Err Dangling)
    end.
Proof.
  unfold addSigpair, bind, get, modify, throw.
  by destruct (σ !! lm) as [[]|].
Qed.

Lemma setSigpairList_eq lm ls (σ : Store) :
  setSigpairList lm ls σ
  = match σ !! lm with
    | Some (OSignatureMap _) => (<[lm := OSignatureMap ls]> σ, Ok tt)
    | _ => (σ, Err Dangling)
    end.
Proof.
  unfold setSigpairList, bind, get, modify, throw.
  by destruct (σ !! lm) as [[]|].
Qed.

Lemma setPubkeyprefix_eq lp b (σ : Store) :
  setPubkeyprefix lp b σ
  = match σ !! lp with
    | Some (OSignaturePair _ sig) => (<[lp := OSignaturePair b sig]> σ, Ok tt)
    | _ => (σ, Err Dangling)
    end.
Proof.
  unfold setPubkeyprefix, bind, get, modify, throw.
  by destruct (σ !! lp) as [[]|].
Qed.

Lemma setEd25519_eq lp b (σ : Store) :
  setEd25519 lp b σ
  = match σ !! lp with
    | Some (OSignaturePair pk _) => (<[lp := OSignaturePair pk b]> σ, Ok tt)
    | _ => (σ, Err Dangling)
    end.
Proof.
  unfold setEd25519, bind, get, modify, throw.
  by destruct (σ !! lp) as [[]|].
Qed.

Lemma withSigmap_apart (σ0 σ : Store) m k :
  apart σ0 σ → m ∉ dom σ0 →
  (∀ lm, lm ∉ dom σ0 → apart σ0 (fst (k lm σ))) →
  apart σ0 (fst (Tx.withSigmap m k σ)).
Proof.
  intros Hap Hm Hk. unfold Tx.withSigmap, bind. rewrite getSigmap_eq.
  destruct (σ !! m) as [[bb [lm|]|?|? ?]|] eqn:E; try done.
  apply Hk. pose proof (apart_refs _ _ _ _ Hap Hm E) as Hr.
  by apply Forall_cons_1 in Hr as [? _].
Qed.

Lemma withPair_apart (σ0 σ : Store) m i k :
  apart σ0 σ → m ∉ dom σ0 →
  (∀ lp, lp ∉ dom σ0 → apart σ0 (fst (k lp σ))) →
  apart σ0 (fst (Tx.withPair m i k σ)).
Proof.
  intros Hap Hm Hk. unfold Tx.withPair. apply withSigmap_apart; [done..|].
  intros lm Hlm. unfold bind. rewrite getSigpairList_eq.
  destruct (σ !! lm) as [[?|ls|? ?]|] eqn:E; try done.
  destruct (ls !! i) as [lp|] eqn:Ei; [|done].
  apply Hk. pose proof (apart_refs _ _ _ _ Hap Hlm E) as Hr. cbn in Hr.
  exact (Forall_lookup_1 _ _ _ _ Hr Ei).
Qed.

Lemma mutate_apart (σ0 σ : Store) m op :
  apart σ0 σ → m ∉ dom σ0 → apart σ0 (fst (mutate m op σ)).
Proof.
  intros Hap Hm. destruct op as [b| | |pk sig| |i b|i b]; cbn [mutate].
  - rewrite setBodybytes_eq.
    destruct (σ !! m) as [[bb sm|?|? ?]|] eqn:E; try done.
    apply apart_insert; [done..|]. by apply (apart_refs _ _ _ _ Hap Hm E).
  - rewrite setSigmap_eq.
    destruct (σ !! m) as [[bb sm|?|? ?]|] eqn:E; try done.
    by apply apart_insert.
  - unfold bind. rewrite alloc_eq, setSigmap_eq.
    destruct (apart_alloc σ0 σ (OSignatureMap []) Hap) as [Hap1 Hlm]; [done|].
    cbn [fst alloc] in Hap1.
    destruct (<[_ := _]> σ !! m) as [[bb sm|?|? ?]|] eqn:E; try done.
    apply apart_insert; [done..|]. by constructor.
  - apply withSigmap_apart; [done..|]. intros lm Hlm.
    unfold bind. rewrite alloc_eq, addSigpair_eq.
    destruct (apart_alloc σ0 σ (OSignaturePair pk sig) Hap) as [Hap1 Hlp]; [done|].
    cbn [fst alloc] in Hap1.
    destruct (<[_ := _]> σ !! lm) as [[?|ls|? ?]|] eqn:E; try done.
    apply apart_insert; [done..|]. cbn [refs]. apply Forall_app. split.
    + by apply (apart_refs _ _ _ _ Hap1 Hlm E).
    + by constructor.
  - apply withSigmap_apart; [done..|]. intros lm Hlm.
    rewrite setSigpairList_eq.
    destruct (σ !! lm) as [[?|ls|? ?]|] eqn:E; try done.
    by apply apart_insert.
  - apply withPair_apart; [done..|]. intros lp Hlp.
    rewrite setPubkeyprefix_eq.
    destruct (σ !! lp) as [[?|?|? ?]|] eqn:E; try done.
    by apply apart_insert.
  - apply withPair_apart; [done..|]. intros lp Hlp.
    rewrite setEd25519_eq.
    destruct (σ !! lp) as [[?|?|? ?]|] eqn:E; try done.
    by apply apart_insert.
Qed.

Lemma mutateAll_apart ops : ∀ (σ0 σ : Store) m,
  apart σ0 σ → m ∉ dom σ0 → apart σ0 (mutateAll m ops σ).
Proof.
  induction ops as [|op ops IH]; intros σ0 σ m Hap Hm; [done|].
  cbn [mutateAll foldl]. apply IH; [|done]. by apply mutate_apart.
Qed.

Lemma toProto_spec tx (σ : Store) m :
  view σ (_inner tx) = Some m →
  ∃ σ' clone, toProto tx σ = (σ', Ok clone)
    ∧ apart σ σ' ∧ view σ' clone = Some m ∧ clone ∉ dom σ.
Proof.
  intros Hv. unfold toProto, cloneMessage, bind, get. rewrite Hv.
  destruct (materialize_spec m σ σ (apart_refl σ))
    as (σ' & l & Hrun & _ & Hap & Hview & Hl & _).
  by exists σ', l.
Qed.

(** C10: the message [toProto] returns is a deep copy: whatever a caller
    does to it, the message of the transaction keeps its value, so
    [toBytes] gives the same bytes and a later [toProto] the same
    message. *)
Theorem C10_toProto_deep_copy (serialize : Transaction_ → bytes) tx
    (σ : Store) m ops :
  view σ (_inner tx) = Some m →
  ∃ σ1 clone,
    toProto tx σ = (σ1, Ok clone)
    ∧ view σ1 clone = Some m
    ∧ clone ≠ _inner tx
    ∧ toBytes serialize tx σ = (σ, Ok (serialize m))
    ∧ let σ2 := mutateAll clone ops σ1 in
      view σ2 (_inner tx) = Some m
      ∧ toBytes serialize tx σ2 = (σ2, Ok (serialize m))
      ∧ ∃ σ3 clone', toProto tx σ2 = (σ3, Ok clone')
                     ∧ view σ3 clone' = Some m.
Proof.
  intros Hv.
  destruct (toProto_spec tx σ m Hv) as (σ1 & clone & Hrun & Hap & Hvc & Hfresh).
  exists σ1, clone. split; [done|]. split; [done|].
  split.
  { intros ->. apply Hfresh. apply elem_of_dom. unfold view in Hv.
    destruct (σ !! _inner tx); [done|congruence]. }
  split.
  { unfold toBytes, bind, get, ret. by rewrite Hv. }
  cbn zeta.
  assert (Hv2 : view (mutateAll clone ops σ1) (_inner tx) = Some m).
  { eapply apart_view; [|exact Hv]. by apply mutateAll_apart. }
  split; [done|]. split.
  { unfold toBytes, bind, get, ret. by rewrite Hv2. }
  destruct (toProto_spec tx _ m Hv2) as (σ3 & clone' & Hrun' & _ & Hvc' & _).
  by exists σ3, clone'.
Qed.

(** *** Signing *)

Lemma _addSignature_spec tx sk (σ : Store) m :
  view σ (_inner tx) = Some m →
  ∃ σ', _addSignature tx sk σ = (σ', Ok tx)
    ∧ view σ' (_inner tx)
      = Some (withPair m (mkSignaturePair (publicKey sk) (signature sk))).
Proof.
  intros Hv. unfold _addSignature. unfold bind at 1. rewrite alloc_eq.
  set (lp := fresh (dom σ)).
  set (σ1 := <[lp := OSignaturePair (publicKey sk) (signature sk)]> σ).
  assert (Hlp : σ !! lp = None) by apply fresh_None.
  assert (Hsub : σ ⊆ σ1) by by apply insert_subseteq.
  unfold bind at 1. rewrite getSigmap_eq. unfold view in Hv.
  destruct (σ !! _inner tx) as [[bb sm|?|? ?]|] eqn:Ei; try done.
  assert (Hne : _inner tx ≠ lp) by congruence.
  rewrite (lookup_weaken _ _ _ _ Ei Hsub).
  destruct sm as [lm|].
  - destruct (σ !! lm) as [[?|ls|? ?]|] eqn:Em; try done.
    destruct (mapM (readPair σ) ls) as [ps|] eqn:Eps; [|done].
    injection Hv as <-.
    assert (Hlm : lm ≠ lp) by congruence.
    assert (Hml : lm ≠ _inner tx) by congruence.
    unfold bind at 1, ret at 1. unfold bind at 1. rewrite addSigpair_eq.
    rewrite (lookup_weaken _ _ _ _ Em Hsub).
    unfold bind at 1. rewrite setSigmap_eq.
    rewrite lookup_insert_ne by done.
    rewrite (lookup_weaken _ _ _ _ Ei Hsub). unfold ret.
    eexists. split; [done|].
    unfold view. rewrite lookup_insert_eq, lookup_insert_ne, lookup_insert_eq by done.
    assert (Hps : mapM (readPair (<[_inner tx:=OTransaction bb (Some lm)]>
                     (<[lm:=OSignatureMap (ls ++ [lp])]> σ1))) (ls ++ [lp])
                  = Some (ps ++ [mkSignaturePair (publicKey sk) (signature sk)])).
    { apply mapM_Some. apply Forall2_app.
      - apply mapM_Some in Eps. eapply Forall2_impl; [exact Eps|].
        intros l p Hp. unfold readPair in *.
        destruct (σ !! l) as [[?|?|pk sig]|] eqn:El; try done.
        rewrite !lookup_insert_ne by congruence.
        by rewrite (lookup_weaken _ _ _ _ El Hsub).
      - constructor; [|constructor]. unfold readPair.
        rewrite !lookup_insert_ne by done. subst σ1.
        by rewrite lookup_insert_eq. }
    by rewrite Hps.
  - injection Hv as <-.
    unfold bind at 1. rewrite alloc_eq.
    set (lm := fresh (dom σ1)). set (σ2 := <[lm := OSignatureMap []]> σ1).
    assert (Hlm1 : σ1 !! lm = None) by apply fresh_None.
    assert (Hlm : lm ≠ lp).
    { intros Heq. rewrite Heq in Hlm1. subst σ1. by rewrite lookup_insert_eq in Hlm1. }
    assert (Hml : lm ≠ _inner tx).
    { intros Heq. rewrite Heq in Hlm1.
      by rewrite (lookup_weaken _ _ _ _ Ei Hsub) in Hlm1. }
    unfold bind at 1. rewrite addSigpair_eq. subst σ2.
    rewrite lookup_insert_eq.
    unfold bind at 1. rewrite setSigmap_eq.
    rewrite !lookup_insert_ne by done.
    rewrite (lookup_weaken _ _ _ _ Ei Hsub). unfold ret.
    eexists. split; [done|].
    unfold view. rewrite lookup_insert_eq, lookup_insert_ne, lookup_insert_eq by done.
    cbn [app mapM]. unfold readPair at 1.
    rewrite !lookup_insert_ne by done. subst σ1. by rewrite lookup_insert_eq.
Qed.

(** C9: [sign] and [signWith] return the transaction itself, with its
    node, identity and validity duration; in the message the body bytes
    stay as they are and the signature map gains exactly the new pair at
    its end, the pairs it had being kept in place. *)
Theorem C9_signatures_additive tx (σ : Store) m privateKey pk signer sig :
  view σ (_inner tx) = Some m →
  (∃ σ', sign tx privateKey σ = (σ', Ok tx)
     ∧ view σ' (_inner tx)
       = Some {| bodybytes := bodybytes m;
                 sigmap := Some (sigpairs m ++
                   [mkSignaturePair (sk_publicKey privateKey)
                                    (sk_sign privateKey (bodybytes m))]) |})
  ∧ (signer (bodybytes m) = Immediate sig ∨ signer (bodybytes m) = Resolves sig →
     ∃ σ', signWith tx pk signer σ = (σ', Ok tx)
       ∧ view σ' (_inner tx)
         = Some {| bodybytes := bodybytes m;
                   sigmap := Some (sigpairs m ++ [mkSignaturePair pk sig]) |}).
Proof.
  intros Hv.
  pose proof (getBodybytes_view _ _ _ Hv) as Hbb.
  split.
  - unfold sign, bind. rewrite Hbb.
    destruct (_addSignature_spec tx
                {| signature := sk_sign privateKey (bodybytes m);
                   publicKey := sk_publicKey privateKey |} σ m Hv)
      as (σ' & Hrun & Hv'). by exists σ'.
  - intros Hs. unfold signWith. unfold bind at 1. rewrite Hbb.
    destruct (_addSignature_spec tx {| signature := sig; publicKey := pk |} σ m Hv)
      as (σ' & Hrun & Hv').
    exists σ'. destruct Hs as [-> | ->]; unfold bind; by rewrite Hrun.
Qed.

Lemma signWith_rejected tx (σ : Store) m pk signer :
  view σ (_inner tx) = Some m → signer (bodybytes m) = Rejects →
  signWith tx pk signer σ = (σ, Err SignerRejected).
Proof.
  intros Hv Hs. unfold signWith, bind.
  by rewrite (getBodybytes_view _ _ _ Hv), Hs.
Qed.

(** *** The wire form *)

Lemma methodFromTxn_recognized {S} body (s : S) :
  recognized (dataCase body) = true →
  ∃ method, methodFromTxn body s = (s, Ok method).
Proof.
  unfold methodFromTxn, recognized, ret.
  destruct (dataCase body); intros H; try done; by eexists.
Qed.

Lemma methodFromTxn_unrecognized {S} body (s : S) :
  recognized (dataCase body) = false →
  ∃ e, methodFromTxn body s = (s, Err e).
Proof.
  unfold methodFromTxn, recognized, throw.
  destruct (dataCase body); intros H; try done; by eexists.
Qed.

Lemma methodFromTxn_state {S} body (s : S) method :
  methodFromTxn body tt = (tt, Ok method) →
  methodFromTxn body s = (s, Ok method).
Proof.
  unfold methodFromTxn, ret, throw.
  destruct (dataCase body); intros H; try done; by injection H as <-.
Qed.

(** C8: a transaction whose node, identity, validity duration and method
    are those of the body that the body bytes of its message decode to:
    when the codec gives back the message it encoded, [fromBytes] of
    [toBytes] succeeds, and the transaction it builds from the bytes has
    the same node, identity, validity duration and method, and a message
    of the same value, to whose body its fields answer in turn; the
    message of the first one is left as it was. *)
Theorem C8_fromBytes_toBytes
    (serialize : Transaction_ → bytes)
    (deserialize : bytes → option Transaction_)
    (deserializeBody : bytes → option TransactionBody)
    body tx (σ : Store) m :
  view σ (_inner tx) = Some m →
  deserializeBody (bodybytes m) = Some body →
  builtFrom tx body →
  deserialize (serialize m) = Some m →
  ∃ b σ' tx',
    toBytes serialize tx σ = (σ, Ok b)
    ∧ fromBytes deserialize deserializeBody b σ = (σ', Ok tx')
    ∧ _node tx' = _node tx
    ∧ _txnId tx' = _txnId tx
    ∧ _validDurationSeconds tx' = _validDurationSeconds tx
    ∧ _method tx' = _method tx
    ∧ builtFrom tx' body
    ∧ view σ' (_inner tx') = Some m
    ∧ view σ' (_inner tx) = Some m.
Proof.
  intros Hv Hbody (Hnode & Hid & Hdur & Hmeth) Hcodec.
  exists (serialize m).
  destruct (materialize_spec m σ σ (apart_refl σ))
    as (σ' & l & Hrun & Hsub & _ & Hview & _ & _).
  exists σ', {| _node := _node tx; _inner := l; _txnId := _txnId tx;
               _validDurationSeconds := _validDurationSeconds tx;
               _method := _method tx |}.
  split.
  { unfold toBytes, bind, get, ret. by rewrite Hv. }
  split.
  { unfold fromBytes. rewrite Hcodec. unfold bind at 1. rewrite Hrun.
    unfold bind at 1. rewrite (getBodybytes_view _ _ _ Hview), Hbody.
    unfold bind at 1, orThrow at 1. rewrite Hnode.
    unfold ret at 1. unfold bind at 1.
    rewrite (methodFromTxn_state body σ' _ Hmeth).
    unfold constructor, bind, orThrow. rewrite Hid, Hdur. done. }
  cbn [_node _txnId _validDurationSeconds _method _inner].
  repeat split; try done.
  by eapply view_weaken.
Qed.

Lemma fromBytes_unrecognized
    (deserialize : bytes → option Transaction_)
    (deserializeBody : bytes → option TransactionBody) b m body node (σ : Store) :
  deserialize b = Some m → deserializeBody (bodybytes m) = Some body →
  nodeaccountid body = Some node →
  recognized (dataCase body) = false →
  ∃ σ' e, fromBytes deserialize deserializeBody b σ = (σ', Err e).
Proof.
  intros Hd Hb Hn Hrec. unfold fromBytes. rewrite Hd.
  destruct (materialize_spec m σ σ (apart_refl σ))
    as (σ' & l & Hrun & Hsub & _ & Hview & _ & _).
  unfold bind at 1. rewrite Hrun. unfold bind at 1.
  rewrite (getBodybytes_view _ _ _ Hview), Hb. unfold bind at 1, orThrow at 1. rewrite Hn.
  unfold ret at 1. unfold bind at 1.
  destruct (methodFromTxn_unrecognized body σ' Hrec) as (e & He).
  rewrite He. by exists σ', e.
Qed.

(** *** Waiting for the receipt *)

Lemma poll_loop_pending fuel a env D receipt :
  env_receipt env a = Answers receipt → isPending (status receipt) = true →
  expiresAt env D a = false →
  poll_loop (S fuel) a env D
  = (Poll a :: Sleep (delayAt env a) :: fst (poll_loop fuel (S a) env D),
     snd (poll_loop fuel (S a) env D)).
Proof.
  intros Hr Hp Hd. cbn [poll_loop]. rewrite Hr, Hp.
  change (Number.gt _ D) with (expiresAt env D a). rewrite Hd.
  by destruct (poll_loop fuel (S a) env D).
Qed.

Lemma poll_loop_timeout fuel a env D receipt :
  env_receipt env a = Answers receipt → isPending (status receipt) = true →
  expiresAt env D a = true →
  poll_loop (S fuel) a env D = ([Poll a], Some (Err ConsensusTimeout)).
Proof.
  intros Hr Hp Hd. cbn [poll_loop]. rewrite Hr, Hp.
  change (Number.gt _ D) with (expiresAt env D a). by rewrite Hd.
Qed.

Lemma poll_loop_terminal fuel a env D receipt :
  env_receipt env a = Answers receipt → isPending (status receipt) = false →
  poll_loop (S fuel) a env D
  = ([Poll a],
     Some (if decide (status receipt = SUCCESS) then Ok receipt
           else Err (HederaError (status receipt)))).
Proof.
  intros Hr Hp. cbn [poll_loop]. rewrite Hr, Hp.
  destruct (decide (status receipt = SUCCESS)) as [Hs|Hs].
  - by rewrite bool_decide_eq_false_2 by (by intros ?).
  - by rewrite bool_decide_eq_true_2.
Qed.

Lemma poll_loop_keeps k : ∀ fuel a env D,
  keepsPolling env D a (a + k) →
  poll_loop (k + fuel) a env D
  = (pendingSteps env a k ++ fst (poll_loop fuel (a + k) env D),
     snd (poll_loop fuel (a + k) env D)).
Proof.
  induction k as [|k IH]; intros fuel a env D Hk.
  - rewrite Nat.add_0_r. cbn. by destruct (poll_loop fuel a env D).
  - destruct (Hk a) as [(receipt & Hr & Hp) Hd]; [lia|].
    cbn [Nat.add]. rewrite (poll_loop_pending _ _ _ _ receipt) by done.
    rewrite IH by (intros j Hj; apply Hk; lia).
    cbn [fst snd]. unfold pendingSteps. cbn [seq flat_map app].
    by replace (S a + k) with (a + S k) by lia.
Qed.

Lemma polls_pendingSteps env a k : polls (pendingSteps env a k) = k.
Proof.
  unfold polls, pendingSteps. revert a.
  induction k as [|k IH]; intros a; [done|].
  cbn [seq flat_map app List.filter isPoll length]. by rewrite IH.
Qed.

Lemma polls_app s1 s2 : polls (s1 ++ s2) = polls s1 + polls s2.
Proof. unfold polls. by rewrite List.filter_app, length_app. Qed.

Lemma thrown_not_timeout e : thrown e ≠ ConsensusTimeout.
Proof. by destruct e. Qed.

Lemma poll_loop_timeout_iff fuel : ∀ a env D,
  snd (poll_loop fuel a env D) = Some (Err ConsensusTimeout)
  ↔ ∃ k, a ≤ k < a + fuel ∧ keepsPolling env D a k ∧ pendingAt env k
         ∧ expiresAt env D k = true.
Proof.
  induction fuel as [|fuel IH]; intros a env D.
  - cbn. split; [done|]. intros (k & Hk & _). lia.
  - destruct (env_receipt env a) as [receipt|e] eqn:Hr.
    2:{ cbn [poll_loop]. rewrite Hr. cbn [snd]. split.
        - intros [= He]. by destruct (thrown_not_timeout e).
        - intros (k & Hk & Hkeep & Hpend & Hd).
          destruct (decide (k = a)) as [->|Hne].
          + destruct Hpend as (r & Hr' & _). congruence.
          + destruct (Hkeep a) as [(r & Hr' & _) _]; [lia|congruence]. }
    destruct (isPending (status receipt)) eqn:Hp.
    2:{ rewrite (poll_loop_terminal _ _ _ _ receipt) by done. cbn [snd].
        split; [by destruct (decide _)|].
        intros (k & Hk & Hkeep & Hpend & Hd).
        destruct (decide (k = a)) as [->|Hne].
        - destruct Hpend as (r & Hr' & Hp'). congruence.
        - destruct (Hkeep a) as [(r & Hr' & Hp') _]; [lia|congruence]. }
    destruct (expiresAt env D a) eqn:Hexp.
    + rewrite (poll_loop_timeout _ _ _ _ receipt) by done. cbn [snd].
      split; [intros _|done].
      exists a. split; [lia|]. split; [intros j Hj; lia|].
      split; [by exists receipt|done].
    + rewrite (poll_loop_pending _ _ _ _ receipt) by done. cbn [snd].
      rewrite IH. split.
      * intros (k & Hk & Hkeep & Hpend & Hd). exists k.
        split; [lia|]. split; [|done].
        intros j Hj. destruct (decide (j = a)) as [->|Hne].
        -- split; [by exists receipt|done].
        -- apply Hkeep. lia.
      * intros (k & Hk & Hkeep & Hpend & Hd).
        destruct (decide (k = a)) as [->|Hne]; [congruence|].
        exists k. split; [lia|]. split; [|done].
        intros j Hj. apply Hkeep. lia.
Qed.

Section Clock.

Variable timestampToMs : Timestamp → number.

(** C3, as the code has it: the deadline is the start of the identity plus
    120000 milliseconds, whatever the validity duration of the transaction;
    a pending answer at attempt [k] draws the backoff
    [Math.floor(500 * random * (2 ** k - 1))], computed on numbers from
    left to right, and sleeps it before the next attempt; the wait ends in
    the timeout error exactly when, at some pending attempt reached, the
    current time plus that backoff exceeds the deadline. *)
Theorem C3_deadline_and_timeout fuel env tx start :
  transactionvalidstart (_txnId tx) = Some start →
  let deadline := Number.add (timestampToMs start) (Number.ofZ 120000) in
  (∀ k, delayAt env k
        = Number.Math_floor
            (Number.mul (Number.mul (Number.ofZ 500) (env_random env k))
                        (Number.sub (Number.pow2 k) (Number.ofZ 1))))
  ∧ (snd (_waitForReceipt timestampToMs fuel env tx) = Some (Err ConsensusTimeout)
     ↔ ∃ k, k < fuel ∧ keepsPolling env deadline 0 k ∧ pendingAt env k
            ∧ Number.gt (Number.add (env_now env k) (delayAt env k)) deadline
              = true)
  ∧ (∀ k, k < fuel → keepsPolling env deadline 0 k → pendingAt env k →
       Number.gt (Number.add (env_now env k) (delayAt env k)) deadline = true →
       _waitForReceipt timestampToMs fuel env tx
       = (Sleep receiptInitialDelayMs :: pendingSteps env 0 k ++ [Poll k],
          Some (Err ConsensusTimeout))).
Proof.
  intros Hs. cbn zeta. split; [done|].
  unfold _waitForReceipt. rewrite Hs.
  set (D := Number.add (timestampToMs start) (Number.ofZ 120000)).
  split.
  - destruct (poll_loop fuel 0 env D) as [steps r] eqn:E.
    cbn [snd]. replace r with (snd (poll_loop fuel 0 env D)) by (by rewrite E).
    rewrite poll_loop_timeout_iff. split.
    + intros (k & Hk & H). exists k. split; [lia|done].
    + intros (k & Hk & H). exists k. split; [lia|done].
  - intros k Hk Hkeep (receipt & Hr & Hp) Hexp.
    replace fuel with (k + S (fuel - S k)) by lia.
    rewrite poll_loop_keeps by done.
    rewrite (poll_loop_timeout _ _ _ _ receipt) by done.
    done.
Qed.

(** C7: when the answer at attempt [k] is a receipt whose status is not
    pending, the wait ends with that very poll: with the error that
    carries the status when the status is not SUCCESS, with the receipt
    when it is; the run made [k + 1] polls, and the last step is that
    poll. *)
Theorem C7_terminal_status_ends_polling fuel env tx start k receipt :
  transactionvalidstart (_txnId tx) = Some start →
  keepsPolling env (Number.add (timestampToMs start) (Number.ofZ 120000)) 0 k →
  env_receipt env k = Answers receipt →
  isPending (status receipt) = false →
  k < fuel →
  let run := _waitForReceipt timestampToMs fuel env tx in
  fst run = Sleep receiptInitialDelayMs :: pendingSteps env 0 k ++ [Poll k]
  ∧ polls (fst run) = k + 1
  ∧ (status receipt ≠ SUCCESS →
       snd run = Some (Err (HederaError (status receipt))))
  ∧ (status receipt = SUCCESS → snd run = Some (Ok receipt)).
Proof.
  intros Hs Hkeep Hr Hp Hk. cbn zeta.
  unfold _waitForReceipt. rewrite Hs.
  replace fuel with (k + S (fuel - S k)) by lia.
  rewrite poll_loop_keeps by done.
  rewrite (poll_loop_terminal _ _ _ _ receipt) by done.
  cbn [fst snd Nat.add]. split; [done|]. split.
  - change (Sleep receiptInitialDelayMs :: pendingSteps env 0 k ++ [Poll k])
      with ([Sleep receiptInitialDelayMs] ++ pendingSteps env 0 k ++ [Poll k]).
    rewrite !polls_app, polls_pendingSteps. done.
  - split; intros Hst; by destruct (decide (status receipt = SUCCESS)).
Qed.

End Clock.

End TxFacts.

(** ** Facts about numbers *)

Module NumberFacts.
Import Number NumberSpec.

Local Open Scope Z_scope.

(** *** The number of binary digits *)

Lemma digits2_pos_size p : digits2_pos p = Pos.size p.
Proof. induction p; cbn; congruence. Qed.

Lemma Zdigits2_pos_bounds p :
  2 ^ (Zpos (digits2_pos p) - 1) ≤ Zpos p < 2 ^ Zpos (digits2_pos p).
Proof.
  rewrite digits2_pos_size. split.
  - pose proof (Pos.size_le p) as H.
    assert (H' : 2 ^ Zpos (Pos.size p) ≤ 2 * Zpos p).
    { rewrite <- Pos2Z.inj_pow. change (2 * Zpos p) with (Zpos p~0).
      by apply Pos2Z.pos_le_pos. }
    replace (Zpos (Pos.size p)) with (Z.succ (Zpos (Pos.size p) - 1)) in H' by lia.
    rewrite Z.pow_succ_r in H' by lia. lia.
  - pose proof (Pos.size_gt p) as H.
    rewrite <- Pos2Z.inj_pow. by apply Pos2Z.pos_lt_pos.
Qed.

Lemma Zdigits2_nonneg m : 0 ≤ Zdigits2 m.
Proof. by destruct m. Qed.

Lemma Zdigits2_bounds m :
  0 < m → 2 ^ (Zdigits2 m - 1) ≤ m < 2 ^ Zdigits2 m.
Proof. destruct m as [|p|p]; [lia| |lia]. intros _. apply Zdigits2_pos_bounds. Qed.

Lemma Zdigits2_pos_pos m : 0 < m → 0 < Zdigits2 m.
Proof. by destruct m. Qed.

Lemma Zdigits2_le_of_lt m d : 0 ≤ m → 0 ≤ d → m < 2 ^ d → Zdigits2 m ≤ d.
Proof.
  intros Hm Hd Hlt. destruct (Z.eq_dec m 0) as [->|Hne]; [done|].
  pose proof (Zdigits2_bounds m ltac:(lia)) as [Hlo _].
  destruct (Z.le_gt_cases (Zdigits2 m) d) as [|Hgt]; [done|].
  assert (2 ^ d ≤ 2 ^ (Zdigits2 m - 1)) by (apply Z.pow_le_mono_r; lia).
  lia.
Qed.

Lemma Zdigits2_ge_of_le m d : 0 ≤ d → 2 ^ d ≤ m → d + 1 ≤ Zdigits2 m.
Proof.
  intros Hd Hle.
  assert (0 < m) by (pose proof (Z.pow_pos_nonneg 2 d); lia).
  pose proof (Zdigits2_bounds m ltac:(lia)) as [_ Hhi].
  destruct (Z.le_gt_cases (d + 1) (Zdigits2 m)) as [|Hgt]; [done|].
  assert (2 ^ Zdigits2 m ≤ 2 ^ d)
    by (apply Z.pow_le_mono_r; [lia|]; pose proof (Zdigits2_nonneg m); lia).
  lia.
Qed.

Lemma Zdigits2_mono a b : 0 ≤ a ≤ b → Zdigits2 a ≤ Zdigits2 b.
Proof.
  intros [Ha Hab]. destruct (Z.eq_dec b 0) as [->|Hb].
  { by replace a with 0 by lia. }
  apply Zdigits2_le_of_lt; [lia|apply Zdigits2_nonneg|].
  pose proof (Zdigits2_bounds b ltac:(lia)). lia.
Qed.

Lemma Zdigits2_succ m : 0 ≤ m → Zdigits2 (m + 1) ≤ Zdigits2 m + 1.
Proof.
  intros Hm. apply Zdigits2_le_of_lt; [lia|pose proof (Zdigits2_nonneg m); lia|].
  destruct (Z.eq_dec m 0) as [->|Hne]; [done|].
  pose proof (Zdigits2_bounds m ltac:(lia)) as [_ Hhi].
  rewrite Z.pow_add_r by (pose proof (Zdigits2_nonneg m); lia). lia.
Qed.

Lemma Zdigits2_mul a b : 0 ≤ a → 0 ≤ b → Zdigits2 (a * b) ≤ Zdigits2 a + Zdigits2 b.
Proof.
  intros Ha Hb.
  pose proof (Zdigits2_nonneg a). pose proof (Zdigits2_nonneg b).
  apply Zdigits2_le_of_lt; [nia|lia|].
  destruct (Z.eq_dec a 0) as [->|Hna].
  { rewrite Z.mul_0_l. apply Z.pow_pos_nonneg; lia. }
  destruct (Z.eq_dec b 0) as [->|Hnb].
  { rewrite Z.mul_0_r. apply Z.pow_pos_nonneg; lia. }
  pose proof (Zdigits2_bounds a ltac:(lia)) as [_ Ha'].
  pose proof (Zdigits2_bounds b ltac:(lia)) as [_ Hb'].
  rewrite Z.pow_add_r by lia. nia.
Qed.

Lemma Zdigits2_shiftl m n :
  0 < m → 0 ≤ n → Zdigits2 (m * 2 ^ n) = Zdigits2 m + n.
Proof.
  intros Hm Hn.
  pose proof (Zdigits2_bounds m Hm) as [Hlo Hhi].
  pose proof (Zdigits2_pos_pos m Hm).
  pose proof (Z.pow_pos_nonneg 2 n ltac:(lia) Hn).
  apply Z.le_antisymm.
  - apply Zdigits2_le_of_lt; [nia|lia|].
    rewrite Z.pow_add_r by lia. nia.
  - replace (Zdigits2 m + n) with ((Zdigits2 m - 1 + n) + 1) by lia.
    apply Zdigits2_ge_of_le; [lia|].
    rewrite Z.pow_add_r by lia. nia.
Qed.

Lemma Zdigits2_div m n :
  0 ≤ m → 0 ≤ n → Zdigits2 (m / 2 ^ n) ≤ Z.max (Zdigits2 m - n) 0.
Proof.
  intros Hm Hn.
  pose proof (Z.pow_pos_nonneg 2 n ltac:(lia) Hn) as Hp.
  apply Zdigits2_le_of_lt; [by apply Z.div_pos|lia|].
  destruct (Z.eq_dec m 0) as [->|Hne].
  { rewrite Z.div_0_l by lia. apply Z.pow_pos_nonneg; lia. }
  pose proof (Zdigits2_bounds m ltac:(lia)) as [_ Hhi].
  pose proof (Zdigits2_nonneg m).
  apply Z.div_lt_upper_bound; [done|].
  destruct (Z.le_gt_cases n (Zdigits2 m)).
  - rewrite Z.max_l by lia. rewrite <- Z.pow_add_r by lia.
    by replace (n + (Zdigits2 m - n)) with (Zdigits2 m) by lia.
  - rewrite Z.max_r by lia. rewrite Z.pow_0_r, Z.mul_1_r.
    assert (2 ^ Zdigits2 m ≤ 2 ^ n) by (apply Z.pow_le_mono_r; lia). lia.
Qed.

(** *** Rounding to the format *)

Lemma fexp_eq e : fexp 53 1024 e = Z.max (e - 53) (-1074).
Proof. reflexivity. Qed.

Lemma shr_1_m mrs : 0 ≤ shr_m mrs → shr_m (shr_1 mrs) = shr_m mrs / 2.
Proof.
  destruct mrs as [m r s]. cbn [shr_m]. intros Hm.
  rewrite <- Z.div2_div.
  destruct m as [|[p|p|]|p]; try done; lia.
Qed.

Lemma iter_pos_shr_1_m p : ∀ mrs,
  0 ≤ shr_m mrs →
  shr_m (SpecFloat.iter_pos shr_1 p mrs) = shr_m mrs / 2 ^ Zpos p.
Proof.
  assert (Hpow : ∀ q, 0 < 2 ^ Zpos q) by (intros q; by apply Z.pow_pos_nonneg).
  assert (Hstep : ∀ mrs, 0 ≤ shr_m mrs → 0 ≤ shr_m (shr_1 mrs)).
  { intros mrs Hm. rewrite shr_1_m by done. by apply Z.div_pos. }
  induction p as [p IH|p IH|]; intros mrs Hm; cbn [SpecFloat.iter_pos].
  - pose proof (Hpow p).
    rewrite IH; rewrite IH; try (by apply Hstep).
    2:{ apply Z.div_pos; [by apply Hstep|done]. }
    rewrite shr_1_m by done.
    rewrite !Z.div_div by lia. f_equal.
    replace (Zpos p~1) with (1 + Zpos p + Zpos p) by lia.
    rewrite !Z.pow_add_r by lia. lia.
  - pose proof (Hpow p).
    rewrite IH; rewrite IH; try done.
    2:{ by apply Z.div_pos. }
    rewrite !Z.div_div by lia. f_equal.
    replace (Zpos p~0) with (Zpos p + Zpos p) by lia.
    rewrite !Z.pow_add_r by lia. lia.
  - by rewrite shr_1_m.
Qed.

(** One stage of the rounding: the mantissa is cut down to the exponent
    that its size calls for. *)
Lemma shr_fexp_spec m e l :
  0 ≤ m →
  snd (shr_fexp 53 1024 m e l) = Z.max e (fexp 53 1024 (Zdigits2 m + e))
  ∧ shr_m (fst (shr_fexp 53 1024 m e l))
    = m / 2 ^ (snd (shr_fexp 53 1024 m e l) - e).
Proof.
  intros Hm. unfold shr_fexp, shr.
  assert (Hrec : shr_m (shr_record_of_loc m l) = m) by (by destruct l as [|[]]).
  destruct (fexp 53 1024 (Zdigits2 m + e) - e) as [|p|p] eqn:Hn; cbn [fst snd].
  - split; [lia|]. by rewrite Z.sub_diag, Z.div_1_r.
  - split; [lia|]. rewrite iter_pos_shr_1_m by lia. rewrite Hrec.
    f_equal. f_equal. lia.
  - split; [lia|]. by rewrite Z.sub_diag, Z.div_1_r.
Qed.

Lemma round_nearest_even_bounds m l :
  m ≤ round_nearest_even m l ≤ m + 1.
Proof. destruct l as [|[]]; cbn; try lia. destruct (Z.even m); lia. Qed.

(** The two stages of [binary_round_aux] and what comes out: the mantissa
    is cut to [m1] at the exponent [e1], rounded up by at most one, and cut
    once more when the rounding carried. *)
Lemma binary_round_aux_spec s m e l :
  0 ≤ m →
  ∃ m1 m2 e1 e2,
    e1 = Z.max e (fexp 53 1024 (Zdigits2 m + e))
    ∧ m / 2 ^ (e1 - e) ≤ m1 ≤ m / 2 ^ (e1 - e) + 1
    ∧ e2 = Z.max e1 (fexp 53 1024 (Zdigits2 m1 + e1))
    ∧ m2 = m1 / 2 ^ (e2 - e1)
    ∧ binary_round_aux 53 1024 s m e l
      = match m2 with
        | Z0 => S754_zero s
        | Zpos p => if e2 <=? 971 then S754_finite s p e2 else S754_infinity s
        | Zneg _ => S754_nan
        end.
Proof.
  intros Hm. unfold binary_round_aux.
  destruct (shr_fexp_spec m e l Hm) as [He1 Hm1].
  destruct (shr_fexp 53 1024 m e l) as [mrs' e'] eqn:E1. cbn [fst snd] in *.
  set (m1 := round_nearest_even (shr_m mrs') (loc_of_shr_record mrs')).
  pose proof (round_nearest_even_bounds (shr_m mrs') (loc_of_shr_record mrs'))
    as Hb. fold m1 in Hb.
  assert (0 ≤ shr_m mrs').
  { rewrite Hm1. apply Z.div_pos; [done|]. apply Z.pow_pos_nonneg; lia. }
  destruct (shr_fexp_spec m1 e' loc_Exact ltac:(lia)) as [He2 Hm2].
  destruct (shr_fexp 53 1024 m1 e' loc_Exact) as [mrs'' e''] eqn:E2.
  cbn [fst snd] in *.
  exists m1, (shr_m mrs''), e', e''. subst e'.
  split; [done|]. split; [by rewrite <- Hm1|]. split; [done|]. split; [done|].
  done.
Qed.

Lemma binary_round_aux_mantissa m e m1 m2 e1 e2 :
  0 ≤ m →
  m / 2 ^ (e1 - e) ≤ m1 → m2 = m1 / 2 ^ (e2 - e1) → e1 ≤ e2 → e ≤ e1 →
  0 ≤ m2.
Proof.
  intros Hm Hm1 -> H12 H01.
  apply Z.div_pos; [|apply Z.pow_pos_nonneg; lia].
  assert (0 ≤ m / 2 ^ (e1 - e))
    by (apply Z.div_pos; [done|apply Z.pow_pos_nonneg; lia]).
  lia.
Qed.

Lemma pos_iter_xO m d : Zpos (Pos.iter xO m d) = Zpos m * 2 ^ Zpos d.
Proof.
  induction d as [|d IH] using Pos.peano_ind.
  - cbn [Pos.iter]. lia.
  - rewrite Pos.iter_succ, Pos2Z.inj_xO, IH, Pos2Z.inj_succ.
    rewrite Z.pow_succ_r by lia. lia.
Qed.

Lemma shl_align_spec mx ex ex' :
  snd (shl_align mx ex ex') = Z.min ex ex'
  ∧ Zpos (fst (shl_align mx ex ex'))
    = Zpos mx * 2 ^ (ex - snd (shl_align mx ex ex')).
Proof.
  unfold shl_align. destruct (ex' - ex) as [|d|d] eqn:Hd; cbn [fst snd].
  - split; [lia|]. rewrite Z.sub_diag. lia.
  - split; [lia|]. rewrite Z.sub_diag. lia.
  - split; [lia|]. rewrite pos_iter_xO. f_equal. f_equal. lia.
Qed.

Lemma signed_notNegative x : signed false x → notNegative x.
Proof. by destruct x as [[]|[]| |[] m e]. Qed.

Lemma binary_round_aux_signed s m e l :
  0 ≤ m → signed s (binary_round_aux 53 1024 s m e l).
Proof.
  intros Hm.
  destruct (binary_round_aux_spec s m e l Hm)
    as (m1 & m2 & e1 & e2 & He1 & Hm1 & He2 & Hm2 & ->).
  assert (0 ≤ m2)
    by (eapply (binary_round_aux_mantissa m e m1 m2 e1 e2); lia).
  destruct m2 as [|p|p]; [done| |lia].
  by destruct (e2 <=? 971).
Qed.

Lemma binary_round_aux_bounded s m e l :
  0 ≤ m → e ≤ 971 → Zdigits2 m + e ≤ 1023 →
  finiteOrZero (binary_round_aux 53 1024 s m e l).
Proof.
  intros Hm He Hd.
  destruct (binary_round_aux_spec s m e l Hm)
    as (m1 & m2 & e1 & e2 & He1 & Hm1 & He2 & Hm2 & ->).
  rewrite fexp_eq in He1.
  assert (H2 : 0 ≤ m2)
    by (eapply (binary_round_aux_mantissa m e m1 m2 e1 e2); lia).
  destruct m2 as [|p|p]; [done| |lia].
  assert (Hq : 0 ≤ m / 2 ^ (e1 - e))
    by (apply Z.div_pos; [done|apply Z.pow_pos_nonneg; lia]).
  assert (Zdigits2 m1 ≤ Z.max (Zdigits2 m - (e1 - e)) 0 + 1).
  { etrans; [apply (Zdigits2_mono m1 (m / 2 ^ (e1 - e) + 1)); lia|].
    etrans; [apply Zdigits2_succ; lia|].
    pose proof (Zdigits2_div m (e1 - e) Hm ltac:(lia)). lia. }
  rewrite fexp_eq in He2.
  destruct (Z.leb_spec e2 971); [done|lia].
Qed.

Lemma binary_round_eq s m e :
  binary_round 53 1024 s m e
  = binary_round_aux 53 1024 s
      (Zpos (fst (shl_align m e (fexp 53 1024 (Zpos (digits2_pos m) + e)))))
      (snd (shl_align m e (fexp 53 1024 (Zpos (digits2_pos m) + e)))) loc_Exact.
Proof. unfold binary_round. by destruct (shl_align _ _ _). Qed.

Lemma binary_round_signed s m e : signed s (binary_round 53 1024 s m e).
Proof. rewrite binary_round_eq. by apply binary_round_aux_signed. Qed.

Lemma binary_round_bounded s m e :
  e ≤ 971 → Zpos (digits2_pos m) + e ≤ 1023 →
  finiteOrZero (binary_round 53 1024 s m e).
Proof.
  intros He Hd. rewrite binary_round_eq.
  destruct (shl_align_spec m e (fexp 53 1024 (Zpos (digits2_pos m) + e)))
    as [Hez Hmz].
  set (ez := snd (shl_align m e _)) in *. set (mz := fst (shl_align m e _)) in *.
  apply binary_round_aux_bounded; [lia|lia|].
  rewrite Hmz, Zdigits2_shiftl by lia. cbn [Zdigits2]. lia.
Qed.

Lemma ofZ_notNegative z : 0 ≤ z → signed false (ofZ z).
Proof.
  intros Hz. unfold ofZ, binary_normalize.
  destruct z as [|p|p]; [done| |lia]. apply binary_round_signed.
Qed.

(** *** The backoff *)

Lemma ofZ_500 : ofZ 500 = S754_finite false 8796093022208000 (-44).
Proof. reflexivity. Qed.

Lemma ofZ_1 : ofZ 1 = S754_finite false 4503599627370496 (-52).
Proof. reflexivity. Qed.

Lemma ofZ_0 : ofZ 0 = S754_zero false.
Proof. reflexivity. Qed.

Lemma isDraw_cases r :
  isDraw r →
  isZero r
  ∨ ∃ m e, r = S754_finite false m e ∧ e ≤ -52 ∧ Zpos (digits2_pos m) ≤ 53.
Proof.
  intros (Hv & H0 & H1). rewrite ofZ_0 in H0. rewrite ofZ_1 in H1.
  destruct r as [s|s| |s m e]; [by left|by destruct s|done|].
  right. destruct s; [done|]. exists m, e. split; [done|].
  cbn in Hv. apply andb_prop in Hv as [Hc _].
  unfold canonical_mantissa in Hc. apply Z.eqb_eq in Hc. rewrite fexp_eq in Hc.
  unfold SFltb, SFcompare in H1.
  destruct (Z.compare_spec e (-52)); [lia|lia|done].
Qed.

Lemma mul_500_draw r :
  isDraw r →
  finiteOrZero (mul (ofZ 500) r) ∧ notNegative (mul (ofZ 500) r).
Proof.
  intros Hr. rewrite ofZ_500.
  destruct (isDraw_cases r Hr) as [Hz|(m & e & -> & He & Hd)].
  { by destruct r. }
  unfold mul, SFmul. cbn [xorb]. split.
  - apply binary_round_aux_bounded; [lia|lia|].
    rewrite Pos2Z.inj_mul.
    pose proof (Zdigits2_mul 8796093022208000 (Zpos m) ltac:(lia) ltac:(lia)) as H.
    change (Zdigits2 8796093022208000) with 53 in H.
    change (Zdigits2 (Zpos m)) with (Zpos (digits2_pos m)) in H. lia.
  - apply signed_notNegative, binary_round_aux_signed. lia.
Qed.

Lemma pow2_minus_1 k :
  (k < 1024)%nat →
  finiteOrZero (sub (pow2 k) (ofZ 1)) ∧ signed false (sub (pow2 k) (ofZ 1)).
Proof.
  intros Hk. unfold pow2. destruct (Z.ltb_spec (Z.of_nat k) 1024); [|lia].
  rewrite ofZ_1. unfold sub, SFsub. cbn [cond_Zopp].
  rewrite Z.min_r by lia.
  destruct (shl_align_spec (2 ^ 52) (Z.of_nat k - 52) (-52)) as [Hs Hm].
  rewrite Hs, Z.min_r in Hm by lia. rewrite Hm.
  change (Zpos (fst (shl_align 4503599627370496 (-52) (-52))))
    with 4503599627370496.
  change (Zpos (2 ^ 52)) with 4503599627370496.
  replace (Z.of_nat k - 52 - -52) with (Z.of_nat k) by lia.
  assert (Hp : 1 ≤ 2 ^ Z.of_nat k)
    by (pose proof (Z.pow_pos_nonneg 2 (Z.of_nat k)); lia).
  destruct (4503599627370496 * 2 ^ Z.of_nat k - 4503599627370496)
    as [|p|p] eqn:HM; [done| |lia].
  cbn [binary_normalize]. split; [|apply binary_round_signed].
  apply binary_round_bounded; [lia|].
  assert (Zdigits2 (Zpos p) ≤ 52 + Z.of_nat k).
  { apply Zdigits2_le_of_lt; [lia|lia|].
    rewrite Z.pow_add_r by lia. change (2 ^ 52) with 4503599627370496. lia. }
  cbn [Zdigits2] in *. lia.
Qed.

Lemma mul_notNegative x y :
  finiteOrZero x → notNegative x → finiteOrZero y → notNegative y →
  notNegative (mul x y).
Proof.
  destruct x as [sx|sx| |sx mx ex]; try done;
    destruct y as [sy|sy| |sy my ey]; try done.
  destruct sx, sy; try done. intros _ _ _ _.
    unfold mul, SFmul. cbn [xorb].
    apply signed_notNegative, binary_round_aux_signed. lia.
Qed.

Lemma Math_floor_notNegative x : notNegative x → notNegative (Math_floor x).
Proof.
  destruct x as [s|s| |s m e]; try done.
  destruct s; [done|]. intros _. cbn [Math_floor].
  destruct (0 <=? e); [done|]. cbn [cond_Zopp].
  apply signed_notNegative, ofZ_notNegative.
  apply Z.shiftr_nonneg. lia.
Qed.

Lemma backoff_notNegative k r :
  isDraw r → (k < 1024)%nat → notNegative (Tx.backoff k r).
Proof.
  intros Hr Hk. unfold Tx.backoff, Tx.receiptRetryDelayMs.
  destruct (mul_500_draw r Hr) as [Hf Hn].
  destruct (pow2_minus_1 k Hk) as [Hf' Hs'].
  apply Math_floor_notNegative. apply mul_notNegative; try done.
  by apply signed_notNegative.
Qed.

Lemma backoff_first r : isDraw r → isZero (Tx.backoff 0 r).
Proof.
  intros Hr. unfold Tx.backoff, Tx.receiptRetryDelayMs.
  destruct (mul_500_draw r Hr) as [Hf Hn].
  change (sub (pow2 0) (ofZ 1)) with (S754_zero false).
  by destruct (mul (ofZ 500) r) as [s|s| |s m e].
Qed.

(** *** Adding something that is not negative *)

Lemma SFleb_pos mx ex my ey :
  SFleb (S754_finite false mx ex) (S754_finite false my ey) = true
  ↔ ex < ey ∨ (ex = ey ∧ Zpos mx ≤ Zpos my).
Proof.
  unfold SFleb, SFcompare.
  destruct (Z.compare_spec ex ey) as [->|Hlt|Hgt].
  - change (Pos.compare_cont Eq mx my) with (Pos.compare mx my).
    destruct (Pos.compare_spec mx my) as [->|H|H];
      (split; [intros H'; first [done|right; split; [done|lia]]
              |intros [?|[? ?]]; first [done|lia]]).
  - split; [intros _; by left|done].
  - split; [done|lia].
Qed.

Lemma SFltb_pos mx ex my ey :
  SFltb (S754_finite false mx ex) (S754_finite false my ey) = true
  ↔ ex < ey ∨ (ex = ey ∧ Zpos mx < Zpos my).
Proof.
  unfold SFltb, SFcompare.
  destruct (Z.compare_spec ex ey) as [->|Hlt|Hgt].
  - change (Pos.compare_cont Eq mx my) with (Pos.compare mx my).
    destruct (Pos.compare_spec mx my) as [->|H|H];
      (split; [intros H'; first [done|right; split; [done|lia]]
              |intros [?|[? ?]]; first [done|lia]]).
  - split; [intros _; by left|done].
  - split; [done|lia].
Qed.

Lemma div_pow2_lower a b n :
  0 ≤ n → a * 2 ^ n ≤ b → a ≤ b / 2 ^ n.
Proof.
  intros Hn H. apply Z.div_le_lower_bound; [by apply Z.pow_pos_nonneg|lia].
Qed.

(** Cutting a mantissa of [d] digits down to 53 leaves at least 2^52. *)
Lemma div_pow2_digits m d :
  0 < m → Zdigits2 m = d → 53 ≤ d → 2 ^ 52 ≤ m / 2 ^ (d - 53).
Proof.
  intros Hm Hd H53. apply div_pow2_lower; [lia|].
  rewrite <- Z.pow_add_r by lia.
  pose proof (Zdigits2_bounds m Hm) as [Hlo _]. rewrite Hd in Hlo.
  by replace (52 + (d - 53)) with (d - 1) by lia.
Qed.

(** The comparison of the rounded sum with the first summand, on the
    exponents and mantissas alone. *)
Lemma add_finite_ge_core (mx ex dX dM ez fe q1 m1 m2 dm1 e2 : Z) :
  0 < mx → ez ≤ ex → dX + (ex - ez) ≤ dM →
  Z.max (dX + ex - 53) (-1074) = ex →
  fe = Z.max (dM + ez - 53) (-1074) →
  (fe = ex → mx ≤ q1) →
  (fe = dM + ez - 53 → 4503599627370496 ≤ q1) →
  q1 ≤ m1 →
  e2 = Z.max fe (Z.max (dm1 + fe - 53) (-1074)) →
  (e2 = fe → m2 = m1) →
  (fe < e2 → 4503599627370496 ≤ m2) →
  1 ≤ m2 ∧ (ex < e2 ∨ (ex = e2 ∧ mx ≤ m2)).
Proof. lia. Qed.

Lemma add_finite_ge mx ex my ey :
  valid_binary 53 1024 (S754_finite false mx ex) = true →
  SFleb (S754_finite false mx ex)
        (add (S754_finite false mx ex) (S754_finite false my ey)) = true.
Proof.
  intros Hv. cbn in Hv. apply andb_prop in Hv as [Hc _].
  unfold canonical_mantissa in Hc. apply Z.eqb_eq in Hc. rewrite fexp_eq in Hc.
  unfold add, SFadd. cbn [cond_Zopp].
  set (ez := Z.min ex ey).
  assert (Hez : ez ≤ ex) by (unfold ez; clear; lia).
  destruct (shl_align_spec mx ex ez) as [HsA HA].
  rewrite HsA in HA. clear HsA.
  replace (Z.min ex ez) with ez in HA by (clear - Hez; lia).
  set (A := fst (shl_align mx ex ez)) in *.
  set (B := fst (shl_align my ey ez)).
  change (Zpos A + Zpos B) with (Zpos (A + B)).
  cbn [binary_normalize]. rewrite binary_round_eq.
  assert (HM : Zpos mx * 2 ^ (ex - ez) ≤ Zpos (A + B))
    by (rewrite <- HA; clear; lia).
  set (M := (A + B)%positive) in *. clearbody M. clear HA. clearbody ez.
  clear A B.
  assert (Hpow : 0 < 2 ^ (ex - ez)) by (apply Z.pow_pos_nonneg; lia).
  assert (HdM : Zpos (digits2_pos mx) + (ex - ez) ≤ Zpos (digits2_pos M)).
  { change (Zpos (digits2_pos mx)) with (Zdigits2 (Zpos mx)).
    rewrite <- (Zdigits2_shiftl (Zpos mx) (ex - ez)) by lia.
    apply (Zdigits2_mono _ (Zpos M)). split; [|done].
    apply Z.mul_nonneg_nonneg; lia. }
  set (fe := fexp 53 1024 (Zpos (digits2_pos M) + ez)).
  assert (Hfe : fe = Z.max (Zpos (digits2_pos M) + ez - 53) (-1074))
    by (unfold fe; apply fexp_eq).
  clearbody fe.
  destruct (shl_align_spec M ez fe) as [Hsz Hmz].
  set (ez' := snd (shl_align M ez fe)) in *.
  set (mz := fst (shl_align M ez fe)) in *.
  clearbody ez' mz.
  assert (Hez' : ez' ≤ ez ∧ ez' ≤ fe) by (clear - Hsz; lia).
  assert (Hdz : Zdigits2 (Zpos mz) = Zpos (digits2_pos M) + (ez - ez')).
  { rewrite Hmz. rewrite Zdigits2_shiftl by lia. done. }
  destruct (binary_round_aux_spec false (Zpos mz) ez' loc_Exact ltac:(lia))
    as (m1 & m2 & e1 & e2 & He1 & Hm1 & He2 & Hm2 & ->).
  rewrite Hdz, fexp_eq in He1. rewrite fexp_eq in He2.
  assert (He1' : e1 = fe) by (clear - He1 Hfe Hez'; lia).
  clear He1. subst e1.
  set (q1 := Zpos mz / 2 ^ (fe - ez')) in *.
  (* the mantissa after the first cut *)
  assert (HC : fe = ex → Zpos mx ≤ q1).
  { intros Heq. apply div_pow2_lower; [lia|].
    rewrite Hmz, Heq.
    replace (ex - ez') with ((ex - ez) + (ez - ez')) by lia.
    rewrite Z.pow_add_r, Z.mul_assoc by lia.
    apply Z.mul_le_mono_nonneg_r; [apply Z.pow_nonneg; lia|done]. }
  assert (HB1 : fe = Zpos (digits2_pos M) + ez - 53 → 4503599627370496 ≤ q1).
  { intros Heq.
    assert (Hcut : fe - ez' = Zdigits2 (Zpos mz) - 53)
      by (clear - Heq Hdz; lia).
    unfold q1. rewrite Hcut.
    apply (div_pow2_digits (Zpos mz) _ ltac:(lia) eq_refl).
    clear - Hcut Hez'. lia. }
  assert (Hq1 : q1 ≤ m1) by (clear - Hm1; lia).
  clearbody q1. clear Hm1 Hmz Hdz Hsz.
  assert (Hex' : Z.max (Zpos (digits2_pos mx) + ex - 53) (-1074) = ex)
    by exact Hc.
  assert (H1 : 1 ≤ m1) by (clear - Hex' Hfe HdM Hez HC HB1 Hq1; lia).
  assert (HD2 : e2 = fe → m2 = m1).
  { intros Heq. rewrite Hm2, Heq, Z.sub_diag. apply Z.div_1_r. }
  assert (HD3 : fe < e2 → 4503599627370496 ≤ m2).
  { intros Hlt.
    assert (Hcut : e2 - fe = Zdigits2 m1 - 53)
      by (clear - Hlt He2 Hfe; lia).
    rewrite Hm2, Hcut.
    apply (div_pow2_digits m1 _ ltac:(lia) eq_refl).
    clear - Hcut Hlt. lia. }
  clear Hm2.
  destruct (add_finite_ge_core (Zpos mx) ex (Zpos (digits2_pos mx))
              (Zpos (digits2_pos M)) ez fe q1 m1 m2 (Zdigits2 m1) e2
              ltac:(lia) Hez HdM Hex' Hfe HC HB1 Hq1 He2 HD2 HD3)
    as [Hm2pos Hcmp].
  destruct m2 as [|p|p]; [lia| |lia].
  destruct (e2 <=? 971); [|done].
  by apply SFleb_pos.
Qed.

Lemma add_ge x d : isTime x → notNegative d → SFleb x (add x d) = true.
Proof.
  intros [Hv Hx] Hd. destruct x as [s|s| |s mx ex]; try done.
  destruct s; [done|].
  destruct d as [sd|sd| |sd md ed]; try done.
  - unfold add, SFadd. apply SFleb_pos. right. split; [done|lia].
  - by destruct sd.
  - destruct sd; [done|]. by apply add_finite_ge.
Qed.

(** [Date.now() + delay > validUntilMs] holds when the clock alone is past
    the deadline and the delay is not negative. *)
Lemma gt_add now d D :
  isTime now → notNegative d → gt now D = true → gt (add now d) D = true.
Proof.
  intros Hnow Hd Hgt. pose proof (add_ge now d Hnow Hd) as Hle.
  destruct Hnow as [_ Hnow]. unfold gt in *.
  destruct now as [s|s| |s mx ex]; try done. destruct s; [done|].
  destruct (add (S754_finite false mx ex) d) as [sr|sr| |sr mr er];
    try done.
  - destruct sr; [done|]. by destruct D as [sD|[]| |[] mD eD].
  - destruct sr; [done|].
    destruct D as [sD|[]| |[] mD eD]; try done.
    apply SFleb_pos in Hle. apply SFltb_pos in Hgt. apply SFltb_pos. lia.
Qed.

End NumberFacts.

Module FileAppendCases.
Import FileAppend FileAppendSpec FileAppendFacts Examples.

(** C1, on the scenario of the specification (6000 bytes, chunks of 4096
    bytes, at most 10 chunks): freezing succeeds with two requests, whose
    identities are the assigned one and the one 10 seconds later; but the
    list of identities that [executeAll] indexes by chunk holds the
    assigned identity twice, so both chunks are run, and their receipts
    awaited, under the identity of chunk 0. *)
Theorem C1_identity_list_repeats_first :
  let frozen := freezeWith 4096 (Some calmClient) (draft (6 * 1000)) in
  let run := executeAll 4096 calmClient (mkWorld (draft (6 * 1000)) []) in
  snd frozen = Ok tt
  ∧ map transactionID (_transactions (fst frozen)) = [Some id0; Some id10]
  ∧ _transactionIds (fst frozen) = [id0; id0; id10]
  ∧ dispatched (trace (fst run)) = [(0, Some id0); (1, Some id10)]
  ∧ awaited (trace (fst run)) = [Some id0; Some id0]
  ∧ snd run = Ok [mkResponse node3 (Some id0); mkResponse node3 (Some id0)].
Proof. vm_compute. repeat split; reflexivity. Qed.

(** C2, as stated, fails: with three chunks and the request of chunk 1
    rejected at the precheck, chunk 0 was dispatched and confirmed, chunk 2
    is never dispatched, and the call gives the error alone: no list of
    outcomes comes back. *)
Lemma C2_rejection_gives_error_alone :
  let run := executeAll 4 rejectSecond (mkWorld (draft 9) []) in
  dispatched (trace (fst run)) = [(0, Some id0); (1, Some id10)]
  ∧ awaited (trace (fst run)) = [Some id0]
  ∧ snd run = Err (PrecheckRejected (OtherCode 11))
  ∧ ∀ outcomes, snd run ≠ Ok outcomes.
Proof. vm_compute. repeat split; try reflexivity. intros outcomes H. discriminate H. Qed.

(** C4, as stated, fails below the chunk size: one byte with at most 0
    chunks allowed freezes without error although ceil(1/4096) = 1 > 0,
    and an empty payload keeps one request although ceil(0/4096) = 0. *)
Lemma C4_small_payload_never_too_large :
  snd (freezeWith 4096 (Some calmClient) (set_maxChunks 0 (draft 1))) = Ok tt
  ∧ (_maxChunks (set_maxChunks 0 (draft 1)) < ceilDiv 4096 1)%Z
  ∧ length (_transactions (fst (freezeWith 4096 (Some calmClient) (draft 0)))) = 1
  ∧ ceilDiv 4096 0 = 0%Z.
Proof. vm_compute. repeat split; reflexivity. Qed.

(** C6, as stated, fails for [execute]: on a transaction that is not
    frozen, [executeAll] and [execute] freeze it and succeed. *)
Lemma C6_execute_unfrozen_succeeds :
  _frozen (draft 3) = false
  ∧ snd (executeAll 4 calmClient (mkWorld (draft 3) []))
    = Ok [mkResponse node3 (Some id0)]
  ∧ snd (execute 4 calmClient (mkWorld (draft 3) []))
    = Ok (Some (mkResponse node3 (Some id0)))
  ∧ _frozen (this (fst (executeAll 4 calmClient (mkWorld (draft 3) [])))) = true.
Proof. vm_compute. repeat split; reflexivity. Qed.

Lemma C4_witness :
  0 < 4 ∧ _frozen (draft 9) = false ∧ _contents (draft 9) = Some (payload 9)
  ∧ assignedId (Some calmClient) (draft 9) = Some id0
  ∧ 4 ≤ length (payload 9)
  ∧ (snd (freezeWith 4 (Some calmClient) (draft 9))
       = Err (PayloadTooLarge (length (payload 9)) (_maxChunks (draft 9)))
     ↔ (_maxChunks (draft 9) < ceilDiv 4 (length (payload 9)))%Z).
Proof.
  assert (H4 : 0 < 4) by lia.
  assert (Hf : _frozen (draft 9) = false) by reflexivity.
  assert (Hc : _contents (draft 9) = Some (payload 9)) by reflexivity.
  assert (Hid : assignedId (Some calmClient) (draft 9) = Some id0) by reflexivity.
  assert (HL : 4 ≤ length (payload 9)) by (vm_compute; lia).
  repeat (split; [assumption|]).
  exact (proj1 (proj1 (C4_chunk_count_and_limit 4 H4 (Some calmClient) (draft 9)
                         (payload 9) id0 Hf Hc Hid) HL)).
Defined.

Lemma C5_witness :
  0 < 4 ∧ _frozen (draft 9) = false ∧ _contents (draft 9) = Some (payload 9)
  ∧ assignedId (Some calmClient) (draft 9) = Some id0
  ∧ 4 ≤ length (payload 9)
  ∧ freezeWith 4 (Some calmClient) (draft 9)
    = (fst (freezeWith 4 (Some calmClient) (draft 9)), Ok tt)
  ∧ ∃ chunks : list bytes,
      Z.of_nat (length chunks) = ceilDiv 4 (length (payload 9))
      ∧ concat chunks = payload 9
      ∧ (∀ i chunk, chunks !! i = Some chunk →
           isRange (payload 9) chunk (i * 4)
             (Nat.min ((i + 1) * 4) (length (payload 9))))
      ∧ _nodeIds (fst (freezeWith 4 (Some calmClient) (draft 9)))
        = selectedNodes (Some calmClient) (draft 9)
      ∧ map (λ req, (nodeAccountID req, contents (fileAppend req)))
            (_transactions (fst (freezeWith 4 (Some calmClient) (draft 9))))
        = flat_map (λ chunk, map (λ node, (node, Some chunk))
                                 (selectedNodes (Some calmClient) (draft 9)))
                   chunks
      ∧ (∀ i chunk j node,
           chunks !! i = Some chunk →
           selectedNodes (Some calmClient) (draft 9) !! j = Some node →
           ∃ req,
             _transactions (fst (freezeWith 4 (Some calmClient) (draft 9)))
             !! (i * length (selectedNodes (Some calmClient) (draft 9)) + j)
             = Some req
             ∧ nodeAccountID req = node
             ∧ contents (fileAppend req) = Some chunk).
Proof.
  assert (H4 : 0 < 4) by lia.
  assert (Hf : _frozen (draft 9) = false) by reflexivity.
  assert (Hc : _contents (draft 9) = Some (payload 9)) by reflexivity.
  assert (Hid : assignedId (Some calmClient) (draft 9) = Some id0) by reflexivity.
  assert (HL : 4 ≤ length (payload 9)) by (vm_compute; lia).
  assert (Hrun : freezeWith 4 (Some calmClient) (draft 9)
                 = (fst (freezeWith 4 (Some calmClient) (draft 9)), Ok tt))
    by reflexivity.
  repeat (split; [assumption|]).
  exact (C5_chunk_ranges 4 H4 (Some calmClient) (draft 9) (payload 9) id0 _
           Hf Hc Hid HL Hrun).
Defined.

(** The three requests that freeze holds for the nine bytes, by node and
    bytes. *)
Example frozen_requests_of_nine_bytes :
  map (λ req, (nodeAccountID req, contents (fileAppend req)))
      (_transactions (fst (freezeWith 4 (Some calmClient) (draft 9))))
  = [(node3, Some [Byte.x00; Byte.xff; Byte.x00; Byte.xff]);
     (node3, Some [Byte.x00; Byte.xff; Byte.x00; Byte.xff]);
     (node3, Some [Byte.x00])].
Proof. vm_compute. reflexivity. Qed.

Lemma C6_witness :
  _frozen (fst (freezeWith 4 (Some calmClient) (draft 9))) = true
  ∧ _frozen (draft 9) = false
  ∧ setContents (λ _, []) (inl (payload 2))
      (fst (freezeWith 4 (Some calmClient) (draft 9)))
    = (fst (freezeWith 4 (Some calmClient) (draft 9)), Err Immutable)
  ∧ executeAll 4 calmClient (mkWorld (draft 9) [])
    = match freezeWith 4 (Some calmClient) (draft 9) with
      | (t1, Ok _) => executeAll 4 calmClient (mkWorld t1 [])
      | (t1, Err e) => (mkWorld t1 [], Err e)
      end.
Proof.
  assert (Hfz : _frozen (fst (freezeWith 4 (Some calmClient) (draft 9))) = true)
    by reflexivity.
  assert (Hf : _frozen (draft 9) = false) by reflexivity.
  repeat (split; [assumption|]). split.
  - exact (proj1 (proj2 (proj1
        (C6_setters_fail_execute_freezes 4 calmClient
           (fst (freezeWith 4 (Some calmClient) (draft 9))) []
           (inl node3) (inl (payload 2)) 3%Z (λ _, None) (λ _, [])) Hfz))).
  - exact (proj2 (C6_setters_fail_execute_freezes 4 calmClient (draft 9) []
                    (inl node3) (inl (payload 2)) 3%Z (λ _, None) (λ _, [])) Hf).
Defined.

End FileAppendCases.

Module TxCases.
Import Tx TxSpec TxFacts Examples.

(** C3, as stated, fails: the transaction has a validity duration of 60
    seconds; at the first poll, 100 seconds after the start of its
    identity, the receipt is pending and the backoff is 0.  The time is
    past start + 60 s, yet the wait goes on, and the second poll brings the
    receipt. *)
Lemma C3_deadline_ignores_validity_duration :
  _validDurationSeconds tx0 = 60%Z
  ∧ Number.gt
      (Number.add (env_now lateSuccess 0) (delayAt lateSuccess 0))
      (Number.add (wholeMs start0)
                  (Number.ofZ (1000 * _validDurationSeconds tx0))) = true
  ∧ _waitForReceipt wholeMs 5 lateSuccess tx0
    = ([Sleep (Number.ofZ 1000); Poll 0; Sleep (Number.ofZ 0); Poll 1],
       Some (Ok (mkReceipt SUCCESS))).
Proof. vm_compute. repeat split; reflexivity. Qed.

Lemma C3_witness :
  transactionvalidstart (_txnId tx0) = Some start0
  ∧ 2 < 5
  ∧ keepsPolling neverDecided
      (Number.add (wholeMs start0) (Number.ofZ 120000)) 0 2
  ∧ pendingAt neverDecided 2
  ∧ Number.gt (Number.add (env_now neverDecided 2) (delayAt neverDecided 2))
              (Number.add (wholeMs start0) (Number.ofZ 120000)) = true
  ∧ (snd (_waitForReceipt wholeMs 5 neverDecided tx0)
       = Some (Err ConsensusTimeout)
     ↔ ∃ k, k < 5
            ∧ keepsPolling neverDecided
                (Number.add (wholeMs start0) (Number.ofZ 120000)) 0 k
            ∧ pendingAt neverDecided k
            ∧ Number.gt (Number.add (env_now neverDecided k)
                                    (delayAt neverDecided k))
                        (Number.add (wholeMs start0) (Number.ofZ 120000))
              = true)
  ∧ _waitForReceipt wholeMs 5 neverDecided tx0
    = (Sleep receiptInitialDelayMs :: pendingSteps neverDecided 0 2 ++ [Poll 2],
       Some (Err ConsensusTimeout)).
Proof.
  assert (Hs : transactionvalidstart (_txnId tx0) = Some start0) by reflexivity.
  assert (Hk : 2 < 5) by lia.
  assert (Hkeep : keepsPolling neverDecided
                    (Number.add (wholeMs start0) (Number.ofZ 120000)) 0 2).
  { intros j Hj. split.
    - exists (mkReceipt UNKNOWN). split; reflexivity.
    - assert (j = 0 ∨ j = 1) as [-> | ->] by lia; vm_compute; reflexivity. }
  assert (Hp : pendingAt neverDecided 2)
    by (exists (mkReceipt UNKNOWN); split; reflexivity).
  assert (Hgt : Number.gt
                  (Number.add (env_now neverDecided 2) (delayAt neverDecided 2))
                  (Number.add (wholeMs start0) (Number.ofZ 120000)) = true)
    by (vm_compute; reflexivity).
  repeat (split; [assumption|]).
  destruct (C3_deadline_and_timeout wholeMs 5 neverDecided tx0 start0 Hs)
    as (_ & Hiff & Htrace).
  split; [exact Hiff|]. exact (Htrace 2 Hk Hkeep Hp Hgt).
Defined.

(** The run on [neverDecided]: the clock passes the deadline at the third
    poll, after sleeps of 0 and 250 milliseconds. *)
Example timeout_at_third_poll :
  _waitForReceipt wholeMs 5 neverDecided tx0
  = ([Sleep (Number.ofZ 1000); Poll 0; Sleep (Number.ofZ 0); Poll 1;
      Sleep (Number.ofZ 250); Poll 2],
     Some (Err ConsensusTimeout)).
Proof. vm_compute. reflexivity. Qed.

Lemma C7_witness :
  transactionvalidstart (_txnId tx0) = Some start0
  ∧ keepsPolling failsSecond
      (Number.add (wholeMs start0) (Number.ofZ 120000)) 0 1
  ∧ env_receipt failsSecond 1 = Answers (mkReceipt (OtherCode 7))
  ∧ isPending (status (mkReceipt (OtherCode 7))) = false
  ∧ 1 < 5
  ∧ fst (_waitForReceipt wholeMs 5 failsSecond tx0)
    = Sleep receiptInitialDelayMs :: pendingSteps failsSecond 0 1 ++ [Poll 1]
  ∧ polls (fst (_waitForReceipt wholeMs 5 failsSecond tx0)) = 1 + 1
  ∧ (status (mkReceipt (OtherCode 7)) ≠ SUCCESS →
       snd (_waitForReceipt wholeMs 5 failsSecond tx0)
       = Some (Err (HederaError (status (mkReceipt (OtherCode 7))))))
  ∧ (status (mkReceipt (OtherCode 7)) = SUCCESS →
       snd (_waitForReceipt wholeMs 5 failsSecond tx0)
       = Some (Ok (mkReceipt (OtherCode 7)))).
Proof.
  assert (Hs : transactionvalidstart (_txnId tx0) = Some start0) by reflexivity.
  assert (Hk : keepsPolling failsSecond
                 (Number.add (wholeMs start0) (Number.ofZ 120000)) 0 1).
  { intros j Hj. assert (j = 0) as -> by lia. split.
    - exists (mkReceipt OK). split; reflexivity.
    - vm_compute. reflexivity. }
  assert (Hr : env_receipt failsSecond 1 = Answers (mkReceipt (OtherCode 7)))
    by reflexivity.
  assert (Hp : isPending (status (mkReceipt (OtherCode 7))) = false)
    by reflexivity.
  assert (Hlt : 1 < 5) by lia.
  repeat (split; [assumption|]).
  exact (C7_terminal_status_ends_polling wholeMs 5 failsSecond tx0 start0 1
           (mkReceipt (OtherCode 7)) Hs Hk Hr Hp Hlt).
Defined.

Lemma C8_witness :
  view store1 (_inner tx0) = Some message1
  ∧ bareDeserializeBody (bodybytes message1) = Some body0
  ∧ builtFrom tx0 body0
  ∧ bareDeserialize (bareSerialize message1) = Some message1
  ∧ ∃ b σ' tx',
      toBytes bareSerialize tx0 store1 = (store1, Ok b)
      ∧ fromBytes bareDeserialize bareDeserializeBody b store1 = (σ', Ok tx')
      ∧ _node tx' = _node tx0
      ∧ _txnId tx' = _txnId tx0
      ∧ _validDurationSeconds tx' = _validDurationSeconds tx0
      ∧ _method tx' = _method tx0
      ∧ builtFrom tx' body0
      ∧ view σ' (_inner tx') = Some message1
      ∧ view σ' (_inner tx0) = Some message1.
Proof.
  assert (H1 : view store1 (_inner tx0) = Some message1)
    by (vm_compute; reflexivity).
  assert (H2 : bareDeserializeBody (bodybytes message1) = Some body0)
    by reflexivity.
  assert (H3 : builtFrom tx0 body0) by (repeat split; reflexivity).
  assert (H4 : bareDeserialize (bareSerialize message1) = Some message1)
    by reflexivity.
  repeat (split; [assumption|]).
  exact (C8_fromBytes_toBytes bareSerialize bareDeserialize bareDeserializeBody
           body0 tx0 store1 message1 H1 H2 H3 H4).
Defined.

Lemma C9_witness :
  view store0 (_inner tx0) = Some message0
  ∧ signer0 (bodybytes message0) = Resolves (rev bodyBytes0)
  ∧ (∃ σ', sign tx0 key0 store0 = (σ', Ok tx0)
       ∧ view σ' (_inner tx0)
         = Some {| bodybytes := bodybytes message0;
                   sigmap := Some (sigpairs message0 ++
                     [mkSignaturePair (sk_publicKey key0)
                        (sk_sign key0 (bodybytes message0))]) |})
  ∧ (∃ σ', signWith tx0 [Byte.x09] signer0 store0 = (σ', Ok tx0)
       ∧ view σ' (_inner tx0)
         = Some {| bodybytes := bodybytes message0;
                   sigmap := Some (sigpairs message0 ++
                     [mkSignaturePair [Byte.x09] (rev bodyBytes0)]) |}).
Proof.
  assert (Hv : view store0 (_inner tx0) = Some message0) by (vm_compute; reflexivity).
  assert (Hs : signer0 (bodybytes message0) = Resolves (rev bodyBytes0))
    by reflexivity.
  repeat (split; [assumption|]).
  pose proof (C9_signatures_additive tx0 store0 message0 key0 [Byte.x09] signer0
                (rev bodyBytes0) Hv) as [Hsign Hwith].
  split; [exact Hsign|]. apply Hwith. right. exact Hs.
Defined.

Lemma C10_witness :
  view store0 (_inner tx0) = Some message0
  ∧ ∃ σ1 clone,
      toProto tx0 store0 = (σ1, Ok clone)
      ∧ view σ1 clone = Some message0
      ∧ clone ≠ _inner tx0
      ∧ toBytes bareSerialize tx0 store0 = (store0, Ok (bareSerialize message0))
      ∧ let σ2 := mutateAll clone
                    [MSetBodybytes []; MSetPairEd25519 0 [];
                     MAddSigpair [Byte.x01] [Byte.x02]; MClearSigmap] σ1 in
        view σ2 (_inner tx0) = Some message0
        ∧ toBytes bareSerialize tx0 σ2 = (σ2, Ok (bareSerialize message0))
        ∧ ∃ σ3 clone', toProto tx0 σ2 = (σ3, Ok clone')
                       ∧ view σ3 clone' = Some message0.
Proof.
  assert (Hv : view store0 (_inner tx0) = Some message0) by (vm_compute; reflexivity).
  split; [assumption|].
  exact (C10_toProto_deep_copy bareSerialize tx0 store0 message0
           [MSetBodybytes []; MSetPairEd25519 0 [];
            MAddSigpair [Byte.x01] [Byte.x02]; MClearSigmap] Hv).
Defined.

(** On [store0], such mutations do change the copy. *)
Example mutations_change_the_copy :
  let '(σ1, r) := toProto tx0 store0 in
  match r with
  | Ok clone =>
      view (mutateAll clone
              [MSetBodybytes []; MSetPairEd25519 0 [];
               MAddSigpair [Byte.x01] [Byte.x02]] σ1) clone
      = Some {| bodybytes := [];
                sigmap := Some [mkSignaturePair (pubkeyprefix pair0) [];
                                mkSignaturePair [Byte.x01] [Byte.x02]] |}
  | Err _ => False
  end.
Proof. vm_compute. reflexivity. Qed.

End TxCases.

(** ** Further properties of FileAppendTransaction *)

Module FileAppendMore.
Import FileAppend FileAppendSpec FileAppendFacts MoreSpec.

Section WithChunkSize.

Variable C : nat.

(** X1: [_makeTransactionData] never hands out more than [CHUNK_SIZE]
    bytes: without contents the body has none; with contents [c] it has
    the bytes of [c] from the start index up to [CHUNK_SIZE] further or to
    the end of [c], whichever comes first, and nothing when the start index
    is at or past the end.  The file id is passed on as it is. *)
Theorem X1_makeTransactionData_window t :
  fileID (_makeTransactionData C t) = _fileId t
  ∧ match _contents t with
    | None => contents (_makeTransactionData C t) = None
    | Some c =>
        ∃ chunk,
          contents (_makeTransactionData C t) = Some chunk
          ∧ length chunk = Nat.min C (length c - _startIndex t)
          ∧ ∀ k, k < length chunk → chunk !! k = c !! (_startIndex t + k)
    end.
Proof.
  split; [done|]. unfold _makeTransactionData.
  destruct (_contents t) as [c|]; [|done]. cbn [contents].
  eexists. split; [done|]. unfold subarray.
  set (s := _startIndex t).
  assert (Hlen : length (take ((if length c <? s + C then length c else s + C) - s)
                           (drop s c)) = Nat.min C (length c - s)).
  { rewrite length_take, length_drop.
    destruct (Nat.ltb_spec (length c) (s + C)); lia. }
  split; [done|]. intros k Hk. rewrite Hlen in Hk.
  rewrite lookup_take_lt, lookup_drop; [done|].
  destruct (Nat.ltb_spec (length c) (s + C)); lia.
Qed.

Lemma chunksOf_below (c : bytes) :
  0 < C → chunksOf C c * C ≤ length c + (C - 1).
Proof.
  intros HC. unfold chunksOf.
  pose proof (Nat.div_mod (length c + (C - 1)) C). lia.
Qed.

Lemma freezeWith_nodes client t c id0 t' :
  _frozen t = false → _contents t = Some c → assignedId client t = Some id0 →
  C ≤ length c →
  freezeWith C client t = (t', Ok tt) →
  _nodeIds t' = selectedNodes client t.
Proof.
  intros Hf Hc Hid HL Hrun.
  destruct (Z.lt_ge_cases (_maxChunks t) (Z.of_nat (chunksOf C c))) as [Hlt|Hge].
  { rewrite (freezeWith_too_large C client t c id0) in Hrun by done. congruence. }
  rewrite (freezeWith_chunked C client t c id0) in Hrun by done.
  by injection Hrun as <-.
Qed.

(** X2: after freezing contents of length [L] at least the chunk size, the
    object holds, for the nodes selected, one request per chunk and node;
    the request of chunk [i] carries between 1 and [CHUNK_SIZE] bytes:
    exactly [CHUNK_SIZE] for every chunk but the last, and the remaining
    [L - i * CHUNK_SIZE] for the last. *)
Theorem X2_chunk_sizes client t c id0 t' :
  0 < C →
  _frozen t = false → _contents t = Some c → assignedId client t = Some id0 →
  C ≤ length c →
  freezeWith C client t = (t', Ok tt) →
  _nodeIds t' = selectedNodes client t
  ∧ length (_transactions t') = chunksOf C c * length (selectedNodes client t)
  ∧ ∀ i j node, i < chunksOf C c → selectedNodes client t !! j = Some node →
      ∃ req chunk,
        _transactions t' !! (i * length (selectedNodes client t) + j) = Some req
        ∧ nodeAccountID req = node
        ∧ contents (fileAppend req) = Some chunk
        ∧ 0 < length chunk ≤ C
        ∧ (S i < chunksOf C c → length chunk = C)
        ∧ (S i = chunksOf C c → length chunk = length c - i * C).
Proof.
  intros HC Hf Hc Hid HL Hrun.
  destruct (Z.lt_ge_cases (_maxChunks t) (Z.of_nat (chunksOf C c))) as [Hlt|Hge].
  { rewrite (freezeWith_too_large C client t c id0) in Hrun by done. congruence. }
  rewrite (freezeWith_chunked C client t c id0) in Hrun by done.
  injection Hrun as <-. cbn [frozenChunked _transactions _nodeIds].
  split; [done|]. split.
  { rewrite length_flat_map_const with (m := length (selectedNodes client t))
      by (intros; by rewrite length_map).
    by rewrite length_seq. }
  intros i j node Hi Hj.
  pose proof (chunksOf_below c HC) as Hlow.
  pose proof (chunksOf_covers C HC c) as Hup.
  assert (Hi' : i * C < length c) by nia.
  eexists _, _. split; [by apply lookup_flat_map_seq|].
  cbn [requestAt fileAppend contents nodeAccountID]. split; [done|].
  split; [done|].
  rewrite subarray_chunk, length_take, length_drop.
  split; [lia|]. split; intros Hlast.
  - assert (S i * C < length c) by nia. lia.
  - assert (length c ≤ S i * C) by (rewrite Hlast; lia). lia.
Qed.

(** X3: a successful [freezeWith] on a transaction that was not frozen
    leaves it frozen under the identity it was given, the one it had or
    the one the client assigns: the identity that was moved along the
    chunks is put back.  The file id, the contents and the maximal number
    of chunks are as before, and every request names the file id and one
    of the selected nodes. *)
Theorem X3_freezeWith_frame client t t' :
  _frozen t = false →
  freezeWith C client t = (t', Ok tt) →
  _frozen t' = true
  ∧ _transactionId t' = assignedId client t
  ∧ is_Some (_transactionId t')
  ∧ _nodeIds t' = selectedNodes client t
  ∧ _fileId t' = _fileId t ∧ _contents t' = _contents t
  ∧ _maxChunks t' = _maxChunks t
  ∧ _nextGroupIndex t' = _nextGroupIndex t ∧ _signers t' = _signers t
  ∧ ∀ req, req ∈ _transactions t' →
      fileID (fileAppend req) = _fileId t
      ∧ nodeAccountID req ∈ selectedNodes client t.
Proof.
  intros Hf Hrun.
  destruct (assignedId client t) as [id0|] eqn:Hid.
  2:{ rewrite freezeWith_missing in Hrun by done. congruence. }
  assert (Hgoal_small :
            match _contents t with Some c => length c < C | None => True end →
            _frozen t' = true ∧ _transactionId t' = Some id0
            ∧ is_Some (_transactionId t')
            ∧ _nodeIds t' = selectedNodes client t
            ∧ _fileId t' = _fileId t ∧ _contents t' = _contents t
            ∧ _maxChunks t' = _maxChunks t
            ∧ _nextGroupIndex t' = _nextGroupIndex t ∧ _signers t' = _signers t
            ∧ ∀ req, req ∈ _transactions t' →
                fileID (fileAppend req) = _fileId t
                ∧ nodeAccountID req ∈ selectedNodes client t).
  { intros Hs. rewrite (freezeWith_small C client t id0) in Hrun by done.
    injection Hrun as <-.
    cbn [superState set_transactionIds set_frozen set_transactions
         set_transactionId set_nodeIds _frozen _transactionId _nodeIds
         _fileId _contents _maxChunks _nextGroupIndex _signers _transactions].
    rewrite Hid. repeat split; try done.
    - apply list_elem_of_fmap in H as (node & -> & _). done.
    - apply list_elem_of_fmap in H as (node & -> & Hn). done. }
  destruct (_contents t) as [c|] eqn:Hc; [|by apply Hgoal_small].
  destruct (Nat.lt_ge_cases (length c) C) as [Hlt|HL]; [by apply Hgoal_small|].
  clear Hgoal_small.
  destruct (Z.lt_ge_cases (_maxChunks t) (Z.of_nat (chunksOf C c))) as [Hm|Hm].
  { rewrite (freezeWith_too_large C client t c id0) in Hrun by done. congruence. }
  rewrite (freezeWith_chunked C client t c id0) in Hrun by done.
  injection Hrun as <-.
  cbn [frozenChunked _frozen _transactionId _nodeIds _fileId _contents
       _maxChunks _nextGroupIndex _signers _transactions].
  repeat split; try done.
  - apply list_elem_of_In, in_flat_map in H as (i & _ & Hin).
    apply list_elem_of_In, list_elem_of_fmap in Hin as (node & -> & _). done.
  - apply list_elem_of_In, in_flat_map in H as (i & _ & Hin).
    apply list_elem_of_In, list_elem_of_fmap in Hin as (node & -> & Hn). done.
Qed.

(** X4: in the chunked case the object holds, for every chunk [i] and
    every node selected, a request that carries the payer and the
    nanoseconds of the assigned identity and starts [10 * i] seconds after
    it, as long as the seconds stay below the 64-bit bound; so the
    identities of the requests are strictly increasing along the chunks. *)
Theorem X4_request_identities client t c id0 t' :
  _frozen t = false → assignedId client t = Some id0 →
  _contents t = Some c → C ≤ length c →
  freezeWith C client t = (t', Ok tt) →
  (- 2 ^ 63 ≤ seconds (validStart id0))%Z →
  (seconds (validStart id0) + 10 * Z.of_nat (chunksOf C c) < 2 ^ 63)%Z →
  _nodeIds t' = selectedNodes client t
  ∧ ∀ i j node, i < chunksOf C c → selectedNodes client t !! j = Some node →
      ∃ req,
        _transactions t' !! (i * length (selectedNodes client t) + j) = Some req
        ∧ nodeAccountID req = node
        ∧ transactionID req
          = Some (mkTransactionId (accountId id0)
                    (mkTimestamp (seconds (validStart id0) + 10 * Z.of_nat i)
                                 (nanos (validStart id0)))).
Proof.
  intros Hf Hid Hc HL Hrun Hlo Hhi.
  pose proof (freezeWith_nodes client t c id0 t' Hf Hc Hid HL Hrun) as Hnodes.
  split; [done|]. intros i j node Hi Hj.
  destruct (Z.lt_ge_cases (_maxChunks t) (Z.of_nat (chunksOf C c))) as [Hlt|Hge].
  { rewrite (freezeWith_too_large C client t c id0) in Hrun by done. congruence. }
  rewrite (freezeWith_chunked C client t c id0) in Hrun by done.
  injection Hrun as <-. cbn [frozenChunked _transactions _nodeIds] in *.
  eexists. split; [by apply lookup_flat_map_seq|].
  cbn [requestAt nodeAccountID transactionID]. split; [done|].
  f_equal. apply shiftId_seconds; lia.
Qed.

(** X5: contents shorter than the chunk size, or no contents at all, are
    not split: freezing keeps the one request per node that the base class
    built, under the assigned identity, and the list of identities is that
    identity alone; when the start index is 0, as the constructor leaves
    it, the request carries the contents whole. *)
Theorem X5_short_contents_not_split client t id0 t' :
  _frozen t = false → assignedId client t = Some id0 →
  match _contents t with Some c => length c < C | None => True end →
  freezeWith C client t = (t', Ok tt) →
  _transactionIds t' = [id0]
  ∧ length (_transactions t') = length (_nodeIds t')
  ∧ ∀ req, req ∈ _transactions t' →
      transactionID req = Some id0
      ∧ (_startIndex t = 0 → contents (fileAppend req) = _contents t).
Proof.
  intros Hf Hid Hs Hrun.
  rewrite (freezeWith_small C client t id0) in Hrun by done.
  injection Hrun as <-.
  cbn [superState set_transactionIds set_frozen set_transactions
       _transactions _nodeIds _transactionIds].
  split; [done|]. split; [by rewrite length_map|].
  intros req Hin. apply list_elem_of_fmap in Hin as (node & -> & _).
  unfold _makeTransaction, _makeTransactionData.
  cbn [transactionID fileAppend contents set_transactionId set_nodeIds
       _transactionId _contents _startIndex].
  rewrite Hid. split; [done|]. intros H0. rewrite H0.
  destruct (_contents t) as [c|]; [|done]. f_equal. unfold subarray.
  destruct (Nat.ltb_spec (length c) (0 + C)); [|lia].
  by rewrite Nat.sub_0_r, drop_0, take_ge.
Qed.

(** The fields that the loop of [executeAll] does not touch. *)
Lemma executeAll_loop_frame client fuel : ∀ count rs w,
  let w' := fst (executeAll_loop client fuel count rs w) in
  _fileId (this w') = _fileId (this w)
  ∧ _contents (this w') = _contents (this w)
  ∧ _maxChunks (this w') = _maxChunks (this w)
  ∧ _startIndex (this w') = _startIndex (this w)
  ∧ _transactionIds (this w') = _transactionIds (this w)
  ∧ _nodeIds (this w') = _nodeIds (this w)
  ∧ _transactions (this w') = _transactions (this w)
  ∧ _frozen (this w') = _frozen (this w)
  ∧ _signers (this w') = _signers (this w).
Proof.
  induction fuel as [|fuel IH]; intros count rs [t tr]; cbn zeta; [done|].
  rewrite executeAll_loop_S.
  destruct (_nextGroupIndex t <? count); [|done].
  cbn zeta. rewrite super_execute_eq.
  destruct (requestOf _ _) as [req|]; [|done].
  destruct (isPrecheckCodeOk _ _); [|done].
  rewrite getReceipt_eq.
  destruct (net_receipt _ _ _) as [receipt|e]; [|done].
  cbn [this trace].
  match goal with
  | |- context [executeAll_loop client fuel count ?rs' ?w1] =>
      pose proof (IH count rs' w1) as H
  end.
  cbn zeta in H.
  cbn [this set_nextGroupIndex set_transactionId _fileId _contents _maxChunks
       _startIndex _transactionIds _nodeIds _transactions _frozen _signers] in H.
  exact H.
Qed.

(** On an accepting network the loop runs through: every round adds the
    response of its chunk. *)
Lemma executeAll_loop_accepting client fuel : ∀ count rs t tr,
  accepting client →
  (∀ g, g < count → is_Some (requestOf t g)) →
  _nextGroupIndex t + fuel = count →
  ∃ w' responses,
    executeAll_loop client fuel count rs (mkWorld t tr) = (w', Ok (rs ++ responses))
    ∧ length responses = fuel
    ∧ (∀ i, i < fuel →
         ∃ req, requestOf t (_nextGroupIndex t + i) = Some req
                ∧ responses !! i
                  = Some {| resp_nodeId := nodeAccountID req;
                            resp_transactionId :=
                              _transactionIds t !! (_nextGroupIndex t + i) |})
    ∧ dispatchedGroups (trace w')
      = dispatchedGroups tr ++ seq (_nextGroupIndex t) fuel
    ∧ Some <$> dispatchedRequests (trace w')
      = (Some <$> dispatchedRequests tr)
        ++ (requestOf t <$> seq (_nextGroupIndex t) fuel)
    ∧ _nextGroupIndex (this w') = count.
Proof.
  induction fuel as [|fuel IH]; intros count rs t tr Hacc Hreq Hg.
  - exists (mkWorld t tr), []. rewrite !app_nil_r. cbn.
    repeat split; try done; try lia.
  - rewrite executeAll_loop_S.
    destruct (Nat.ltb_spec (_nextGroupIndex t) count) as [Hlt|]; [|lia].
    cbn zeta. rewrite super_execute_eq.
    change (requestOf (set_transactionId _ t) _)
      with (requestOf t (_nextGroupIndex t)).
    cbn [_nextGroupIndex _transactionId set_transactionId].
    set (g := _nextGroupIndex t) in *.
    destruct (Hreq g Hlt) as [req Hr]. rewrite Hr.
    destruct Hacc as [Hpre Hrec]. rewrite Hpre.
    rewrite getReceipt_eq. cbn [resp_transactionId].
    destruct (Hrec (tr ++ [EDispatch g req]) (_transactionIds t !! g))
      as [receipt Hre].
    rewrite Hre.
    cbn [this trace set_nextGroupIndex _nextGroupIndex set_transactionId].
    set (t1 := set_nextGroupIndex (S g) (set_transactionId (_transactionIds t !! g) t)).
    destruct (IH count
                (rs ++ [{| resp_nodeId := nodeAccountID req;
                           resp_transactionId := _transactionIds t !! g |}])
                t1 ((tr ++ [EDispatch g req]) ++ [EReceipt (_transactionIds t !! g)]))
      as (w' & responses & Hrun & Hlen & Hresp & Hdisp & Hreqs & Hidx).
    { by split. }
    { intros g' Hg'. by apply Hreq. }
    { subst t1. cbn. lia. }
    exists w', ({| resp_nodeId := nodeAccountID req;
                  resp_transactionId := _transactionIds t !! g |} :: responses).
    split.
    { rewrite <- (app_assoc rs [_] responses) in Hrun. exact Hrun. }
    split; [cbn; lia|]. split.
    { intros i Hi. destruct i as [|i].
      - exists req. rewrite Nat.add_0_r. by split.
      - destruct (Hresp i) as (req' & Hr' & Hl'); [lia|].
        subst t1. cbn [_nextGroupIndex set_nextGroupIndex _transactionIds
                       set_transactionId] in Hr', Hl'.
        change (requestOf (set_nextGroupIndex _ _) (S g + i))
          with (requestOf t (S g + i)) in Hr'.
        exists req'. replace (g + S i) with (S g + i) by lia. by split. }
    split.
    { rewrite Hdisp. unfold dispatchedGroups. rewrite !flat_map_app.
      subst t1. cbn. by rewrite <- !app_assoc. }
    split; [|done].
    rewrite Hreqs. unfold dispatchedRequests. rewrite !flat_map_app.
    subst t1. cbn [flat_map app _nextGroupIndex set_nextGroupIndex seq].
    rewrite !fmap_app, app_nil_r. cbn [fmap list_fmap].
    rewrite <- app_assoc. cbn [app]. by rewrite Hr.
Qed.

Lemma prepare_frozen client t id :
  _frozen t = true → _transactionId t = Some id →
  prepare C client t = (set_signers (signersAfter client t) t, Ok tt).
Proof.
  intros Hf Hid. unfold prepare, signersAfter. rewrite Hf, Hid.
  destruct (operatorAccountId client) as [op|]; [|by destruct t].
  destruct (decide (op = accountId id)); [done|by destruct t].
Qed.

(** X6: for a frozen transaction whose identity is set, [executeAll]
    leaves the payload and everything the freeze fixed as it is: file id,
    contents, maximal number of chunks, nodes, requests and the list of
    identities; and it adds the signature of the operator exactly when the
    client has an operator that is the payer of the identity.  This holds
    whether the run succeeds or fails. *)
Theorem X6_executeAll_frame client t tr id :
  _frozen t = true → _transactionId t = Some id →
  let t' := this (fst (executeAll C client (mkWorld t tr))) in
  _fileId t' = _fileId t ∧ _contents t' = _contents t
  ∧ _maxChunks t' = _maxChunks t ∧ _startIndex t' = _startIndex t
  ∧ _transactionIds t' = _transactionIds t
  ∧ _nodeIds t' = _nodeIds t ∧ _transactions t' = _transactions t
  ∧ _frozen t' = true
  ∧ _signers t' = signersAfter client t.
Proof.
  intros Hf Hid. cbn zeta. rewrite executeAll_eq.
  rewrite (prepare_frozen client t id Hf Hid). cbn zeta.
  pose proof (executeAll_loop_frame client
                (length (_transactions t) / length (_nodeIds t))
                (length (_transactions t) / length (_nodeIds t)) []
                (mkWorld (set_nextGroupIndex 0
                            (set_signers (signersAfter client t) t)) tr)) as H.
  cbn zeta in H.
  cbn [this set_nextGroupIndex set_signers _fileId _contents _maxChunks
       _startIndex _transactionIds _nodeIds _transactions _frozen _signers] in *.
  by rewrite Hf in H.
Qed.

Lemma prepare_unfrozen_chunked client t c id0 :
  _frozen t = false → assignedId (Some client) t = Some id0 →
  _contents t = Some c → C ≤ length c →
  (Z.of_nat (chunksOf C c) ≤ _maxChunks t)%Z →
  ∃ t2, prepare C client t = (t2, Ok tt)
    ∧ _transactions t2 = _transactions (frozenChunked C (Some client) t c id0)
    ∧ _nodeIds t2 = client_nodeIds client
    ∧ _transactionIds t2 = id0 :: map (shiftId id0) (seq 0 (chunksOf C c)).
Proof.
  intros Hf Hid Hc HL HM. unfold prepare. rewrite Hf.
  rewrite (freezeWith_chunked C (Some client) t c id0) by done.
  cbn [frozenChunked _transactionId].
  destruct (operatorAccountId client) as [op|]; [|by eexists].
  destruct (decide (op = accountId id0)); by eexists.
Qed.

Lemma requestOf_frozenChunked client t c id0 g node nodes :
  selectedNodes client t = node :: nodes → g < chunksOf C c →
  requestOf (frozenChunked C client t c id0) g
  = Some (requestAt C (_fileId t) (Some c) (shiftId id0 g) (g * C) node).
Proof.
  intros Hn Hg. unfold requestOf. cbn [frozenChunked _transactions _nodeIds].
  rewrite <- (Nat.add_0_r (g * _)).
  rewrite lookup_flat_map_seq with (node := node); [done..|by rewrite Hn].
Qed.

Lemma count_frozenChunked client t c id0 node nodes :
  selectedNodes client t = node :: nodes →
  length (_transactions (frozenChunked C client t c id0))
  / length (_nodeIds (frozenChunked C client t c id0)) = chunksOf C c.
Proof.
  intros Hn. cbn [frozenChunked _transactions _nodeIds].
  rewrite length_flat_map_const with (m := length (selectedNodes client t))
    by (intros; by rewrite length_map).
  rewrite length_seq, Hn. cbn [length]. by rewrite Nat.div_mul.
Qed.

(** X7: on a network that accepts every request and resolves every
    receipt, [executeAll] on a transaction not yet frozen, with contents
    of at least the chunk size that fit the maximal number of chunks,
    sends the contents whole and in order: it succeeds with one response
    per chunk, its rounds are for the chunks 0, 1, ... each once and in
    this order, and the requests the object holds for chunk [g], whichever
    of them a round dispatches, all carry the [g]-th piece of the
    contents, the pieces making up the contents end to end. *)
Theorem X7_executeAll_sends_whole_contents client t tr c id0 node nodes :
  0 < C → accepting client →
  _frozen t = false → assignedId (Some client) t = Some id0 →
  _contents t = Some c → C ≤ length c →
  (Z.of_nat (chunksOf C c) ≤ _maxChunks t)%Z →
  client_nodeIds client = node :: nodes →
  ∃ w' responses chunks,
    executeAll C client (mkWorld t tr) = (w', Ok responses)
    ∧ length responses = chunksOf C c
    ∧ length chunks = chunksOf C c
    ∧ concat chunks = c
    ∧ dispatchedGroups (trace w')
      = dispatchedGroups tr ++ seq 0 (chunksOf C c)
    ∧ (∀ g, g < chunksOf C c → ∃ req, inGroup (this w') g req)
    ∧ (∀ g req, inGroup (this w') g req →
         ∃ chunk, chunks !! g = Some chunk
                  ∧ contents (fileAppend req) = Some chunk).
Proof.
  intros HC Hacc Hf Hid Hc HL HM Hnodes.
  destruct (prepare_unfrozen_chunked client t c id0 Hf Hid Hc HL HM)
    as (t2 & Hprep & Htx & Hnd & Hids).
  rewrite executeAll_eq, Hprep. cbn zeta.
  assert (Hsel : selectedNodes (Some client) t = node :: nodes) by done.
  assert (Hcount : length (_transactions t2) / length (_nodeIds t2) = chunksOf C c).
  { rewrite Htx, Hnd, <- (count_frozenChunked (Some client) t c id0 node nodes Hsel).
    done. }
  rewrite Hcount.
  assert (Hreq : ∀ g, g < chunksOf C c →
            requestOf (set_nextGroupIndex 0 t2) g
            = Some (requestAt C (_fileId t) (Some c) (shiftId id0 g) (g * C) node)).
  { intros g Hg.
    rewrite <- (requestOf_frozenChunked (Some client) t c id0 g node nodes Hsel Hg).
    unfold requestOf. cbn [set_nextGroupIndex _transactions _nodeIds].
    by rewrite Htx, Hnd. }
  destruct (executeAll_loop_accepting client (chunksOf C c) (chunksOf C c) []
              (set_nextGroupIndex 0 t2) tr Hacc)
    as (w' & responses & Hrun & Hlen & _ & Hdisp & _ & _).
  { intros g Hg. rewrite Hreq by done. by eexists. }
  { done. }
  cbn [_nextGroupIndex set_nextGroupIndex] in Hdisp.
  pose proof (executeAll_loop_frame client (chunksOf C c) (chunksOf C c) []
                (mkWorld (set_nextGroupIndex 0 t2) tr)) as Hframe.
  cbn zeta in Hframe. rewrite Hrun in Hframe.
  cbn [fst this set_nextGroupIndex _nodeIds _transactions] in Hframe.
  destruct Hframe as (_ & _ & _ & _ & _ & Hnd' & Htx' & _).
  rewrite Hnd, Hnodes in Hnd'. rewrite Htx in Htx'.
  cbn [frozenChunked _transactions] in Htx'. rewrite Hsel in Htx'.
  exists w', responses,
    (map (λ g, take C (drop (g * C) c)) (seq 0 (chunksOf C c))).
  split; [done|]. split; [done|].
  split; [by rewrite length_map, length_seq|].
  split; [rewrite concat_chunks; apply take_ge; by apply chunksOf_covers|].
  split; [done|].
  assert (Hlentx : length (_transactions (this w'))
                   = chunksOf C c * length (node :: nodes)).
  { rewrite Htx'.
    rewrite length_flat_map_const with (m := length (node :: nodes))
      by (intros; by rewrite length_map).
    by rewrite length_seq. }
  split.
  - intros g Hg. unfold inGroup. rewrite Hnd', Htx'.
    eexists. exists 0. split; [cbn; lia|].
    by apply (lookup_flat_map_seq _ (node :: nodes) (chunksOf C c) 0 g 0 node).
  - intros g req (j & Hj & Hl). rewrite Hnd' in Hj, Hl.
    assert (Hg : g < chunksOf C c).
    { apply lookup_lt_Some in Hl. rewrite Hlentx in Hl. nia. }
    destruct (lookup_lt_is_Some_2 (node :: nodes) j Hj) as [node' Hn'].
    rewrite Htx' in Hl.
    rewrite (lookup_flat_map_seq _ (node :: nodes) (chunksOf C c) 0 g j node')
      in Hl by done.
    injection Hl as <-.
    exists (take C (drop (g * C) c)). split.
    + rewrite list_lookup_fmap, lookup_seq_lt by done. done.
    + cbn [requestAt fileAppend contents]. by rewrite subarray_chunk.
Qed.

(** X8: under the same conditions [execute] dispatches every chunk, not
    only the first, and returns the response of chunk 0: the handle for
    the assigned identity at the first selected node. *)
Theorem X8_execute_runs_all_chunks client t tr c id0 node nodes :
  0 < C → accepting client →
  _frozen t = false → assignedId (Some client) t = Some id0 →
  _contents t = Some c → C ≤ length c →
  (Z.of_nat (chunksOf C c) ≤ _maxChunks t)%Z →
  client_nodeIds client = node :: nodes →
  ∃ w',
    execute C client (mkWorld t tr)
    = (w', Ok (Some {| resp_nodeId := node; resp_transactionId := Some id0 |}))
    ∧ w' = fst (executeAll C client (mkWorld t tr))
    ∧ dispatchedGroups (trace w')
      = dispatchedGroups tr ++ seq 0 (chunksOf C c).
Proof.
  intros HC Hacc Hf Hid Hc HL HM Hnodes.
  destruct (prepare_unfrozen_chunked client t c id0 Hf Hid Hc HL HM)
    as (t2 & Hprep & Htx & Hnd & Hids).
  unfold execute, bind. rewrite executeAll_eq, Hprep. cbn zeta.
  assert (Hsel : selectedNodes (Some client) t = node :: nodes) by done.
  assert (Hcount : length (_transactions t2) / length (_nodeIds t2) = chunksOf C c).
  { rewrite Htx, Hnd, <- (count_frozenChunked (Some client) t c id0 node nodes Hsel).
    done. }
  rewrite Hcount.
  assert (Hpos : 0 < chunksOf C c).
  { pose proof (chunksOf_covers C HC c). destruct (chunksOf C c); lia. }
  assert (Hreq : ∀ g, g < chunksOf C c →
            requestOf (set_nextGroupIndex 0 t2) g
            = Some (requestAt C (_fileId t) (Some c) (shiftId id0 g) (g * C) node)).
  { intros g Hg.
    rewrite <- (requestOf_frozenChunked (Some client) t c id0 g node nodes Hsel Hg).
    unfold requestOf. cbn [set_nextGroupIndex _transactions _nodeIds].
    by rewrite Htx, Hnd. }
  destruct (executeAll_loop_accepting client (chunksOf C c) (chunksOf C c) []
              (set_nextGroupIndex 0 t2) tr Hacc)
    as (w' & responses & Hrun & Hlen & Hresp & Hdisp & _ & _).
  { intros g Hg. rewrite Hreq by done. by eexists. }
  { done. }
  rewrite Hrun. cbn [app fst]. unfold ret.
  destruct (Hresp 0 Hpos) as (req & Hr0 & Hl0).
  cbn [_nextGroupIndex set_nextGroupIndex _transactionIds Nat.add] in Hr0, Hl0.
  rewrite Hreq in Hr0 by done. injection Hr0 as <-.
  rewrite Hids in Hl0. cbn [requestAt nodeAccountID lookup list_lookup] in Hl0.
  exists w'. rewrite Hl0. done.
Qed.

(** Where the loop stops: the cursor counts the chunks that were
    confirmed. *)
Lemma executeAll_loop_cursor client fuel : ∀ count rs w,
  _nextGroupIndex (this w) + fuel = count →
  let w' := fst (executeAll_loop client fuel count rs w) in
  let g0 := _nextGroupIndex (this w) in
  let g := _nextGroupIndex (this w') in
  g0 ≤ g
  ∧ match snd (executeAll_loop client fuel count rs w) with
    | Ok responses =>
        g = count ∧ length responses = length rs + fuel
        ∧ dispatchedGroups (trace w')
          = dispatchedGroups (trace w) ++ seq g0 (g - g0)
    | Err e =>
        g < count
        ∧ (dispatchedGroups (trace w')
           = dispatchedGroups (trace w) ++ seq g0 (g - g0)
           ∨ dispatchedGroups (trace w')
             = dispatchedGroups (trace w) ++ seq g0 (S (g - g0)))
    end.
Proof.
  induction fuel as [|fuel IH]; intros count rs [t tr] Hg; cbn zeta.
  - cbn. rewrite Nat.sub_diag, app_nil_r. cbn in Hg. repeat split; lia || done.
  - rewrite executeAll_loop_S. cbn [this trace] in *.
    destruct (Nat.ltb_spec (_nextGroupIndex t) count) as [Hlt|]; [|lia].
    cbn zeta. rewrite super_execute_eq.
    change (requestOf (set_transactionId _ t) _)
      with (requestOf t (_nextGroupIndex t)).
    cbn [_nextGroupIndex _transactionId set_transactionId].
    set (g0 := _nextGroupIndex t) in *.
    destruct (requestOf t g0) as [req|].
    2:{ cbn. rewrite Nat.sub_diag, app_nil_r. fold g0. repeat split; lia || by left. }
    destruct (isPrecheckCodeOk _ _).
    2:{ cbn. fold g0. rewrite Nat.sub_diag. split; [lia|]. split; [lia|]. right.
        unfold dispatchedGroups. rewrite flat_map_app. done. }
    rewrite getReceipt_eq. cbn [resp_transactionId].
    destruct (net_receipt _ _ _) as [receipt|e].
    2:{ cbn. fold g0. rewrite Nat.sub_diag. split; [lia|]. split; [lia|]. right.
        unfold dispatchedGroups. rewrite !flat_map_app. cbn.
        by rewrite app_nil_r. }
    cbn [this trace set_nextGroupIndex _nextGroupIndex set_transactionId].
    match goal with
    | |- context [executeAll_loop client fuel count ?rs' ?w1] =>
        pose proof (IH count rs' w1) as H; set (W := w1) in *;
        set (R := rs') in *
    end.
    assert (HW : _nextGroupIndex (this W) = S g0) by reflexivity.
    assert (HT : dispatchedGroups (trace W) = dispatchedGroups tr ++ [g0]).
    { subst W. cbn [trace]. unfold dispatchedGroups. rewrite !flat_map_app.
      cbn. by rewrite app_nil_r. }
    cbn zeta in H. rewrite HW, HT in H.
    specialize (H ltac:(lia)). destruct H as [Hle H].
    split; [lia|].
    destruct (snd (executeAll_loop _ _ _ _ _)) as [responses|e].
    + destruct H as (Hc & Hlen & Htr). split; [done|].
      subst R. rewrite length_app in Hlen. cbn in Hlen. split; [lia|].
      rewrite Htr, <- app_assoc. f_equal. rewrite Hc.
      replace (count - g0) with (S (count - S g0)) by lia. done.
    + destruct H as (Hc & Htr). split; [done|].
      set (g := _nextGroupIndex (this (fst (executeAll_loop client fuel count R W)))) in *.
      replace (g - g0) with (S (g - S g0)) by lia.
      destruct Htr as [Htr|Htr]; [left|right]; rewrite Htr, <- app_assoc; done.
Qed.

(** X22: for a frozen transaction whose identity is set, the cursor
    [_nextGroupIndex] after [executeAll] tells how far it came: after a
    success it is the number of chunks, and as many outcomes are returned;
    after a failure it is the index [g] of the chunk that failed: the
    chunks before [g] were all dispatched, in order, chunk [g] at most
    once, and no chunk after it. *)
Theorem X22_executeAll_cursor client t tr id :
  _frozen t = true → _transactionId t = Some id →
  let count := length (_transactions t) / length (_nodeIds t) in
  let w' := fst (executeAll C client (mkWorld t tr)) in
  let g := _nextGroupIndex (this w') in
  match snd (executeAll C client (mkWorld t tr)) with
  | Ok responses =>
      g = count ∧ length responses = count
      ∧ dispatchedGroups (trace w') = dispatchedGroups tr ++ seq 0 count
  | Err e =>
      g < count
      ∧ (dispatchedGroups (trace w') = dispatchedGroups tr ++ seq 0 g
         ∨ dispatchedGroups (trace w') = dispatchedGroups tr ++ seq 0 (S g))
  end.
Proof.
  intros Hf Hid. cbn zeta. rewrite executeAll_eq.
  rewrite (prepare_frozen client t id Hf Hid). cbn zeta.
  cbn [set_signers _transactions _nodeIds].
  pose proof (executeAll_loop_cursor client
                (length (_transactions t) / length (_nodeIds t))
                (length (_transactions t) / length (_nodeIds t)) []
                (mkWorld (set_nextGroupIndex 0
                            (set_signers (signersAfter client t) t)) tr)) as H.
  cbn zeta in H. cbn [this trace _nextGroupIndex set_nextGroupIndex] in H.
  specialize (H eq_refl). destruct H as [_ H].
  rewrite !Nat.sub_0_r in H.
  destruct (snd (executeAll_loop _ _ _ _ _)) as [responses|e].
  - destruct H as (Hc & Hlen & Htr). rewrite Hc in Htr. by repeat split.
  - exact H.
Qed.

End WithChunkSize.

End FileAppendMore.

(** ** Further properties of Transaction *)

Module TxMore.
Import Tx NumberSpec TxSpec TxFacts NumberFacts.

(** *** The backoff and the shape of a wait *)

(** X9: for every number [Math.random()] can draw, at least 0 and below 1:
    the backoff of the first attempt is a zero, so that a pending first
    answer is followed by the second poll at once; and at every attempt
    below 1024 the backoff is neither NaN nor negative: it is a zero, a
    positive number or Infinity. *)
Theorem X9_backoff_range k random :
  isDraw random →
  isZero (backoff 0 random)
  ∧ (k < 1024 → notNegative (backoff k random)).
Proof.
  intros Hr. split.
  - by apply backoff_first.
  - intros Hk. by apply backoff_notNegative.
Qed.

Lemma poll_loop_shape fuel : ∀ a env D,
  ∃ k, keepsPolling env D a (a + k)
       ∧ ((k = fuel ∧ poll_loop fuel a env D = (pendingSteps env a k, None))
          ∨ (k < fuel
             ∧ ∃ r, poll_loop fuel a env D
                    = (pendingSteps env a k ++ [Poll (a + k)], Some r))).
Proof.
  induction fuel as [|fuel IH]; intros a env D.
  - exists 0. split; [intros j Hj; lia|]. left. by split.
  - destruct (env_receipt env a) as [receipt|e] eqn:Hr.
    2:{ exists 0. split; [intros j Hj; lia|]. right. split; [lia|].
        eexists. cbn [poll_loop]. rewrite Hr, Nat.add_0_r. done. }
    destruct (isPending (status receipt)) eqn:Hp.
    2:{ exists 0. split; [intros j Hj; lia|]. right. split; [lia|].
        eexists. rewrite (poll_loop_terminal _ _ _ _ receipt) by done.
        by rewrite Nat.add_0_r. }
    destruct (expiresAt env D a) eqn:Hexp.
    { exists 0. split; [intros j Hj; lia|]. right. split; [lia|].
      eexists. rewrite (poll_loop_timeout _ _ _ _ receipt) by done.
      by rewrite Nat.add_0_r. }
    destruct (IH (S a) env D) as (k & Hkeep & Hcase).
    exists (S k). split.
    { intros j Hj. destruct (decide (j = a)) as [->|Hne].
      - split; [by exists receipt|done].
      - apply Hkeep. lia. }
    rewrite (poll_loop_pending _ _ _ _ receipt) by done.
    replace (a + S k) with (S a + k) by lia.
    destruct Hcase as [[-> Hrun]|[Hk (r & Hrun)]].
    + left. split; [done|]. by rewrite Hrun.
    + right. split; [lia|]. exists r. by rewrite Hrun.
Qed.

(** X10: the shape of every wait: it begins with the initial delay of
    1000 ms, and only then polls; the polls are the attempts 0, 1, 2, ...
    without a gap; after each pending answer but the last it sleeps
    exactly the backoff of that attempt, and it does so only when the
    clock read at that attempt plus the backoff does not exceed the
    deadline.  The run either has used up its rounds after a sleep, or
    ends with a poll and an outcome. *)
Theorem X10_wait_shape (timestampToMs : Timestamp → number) fuel env tx start :
  transactionvalidstart (_txnId tx) = Some start →
  ∃ k,
    keepsPolling env (Number.add (timestampToMs start) (Number.ofZ 120000)) 0 k
    ∧ ((k = fuel
        ∧ _waitForReceipt timestampToMs fuel env tx
          = (Sleep (Number.ofZ 1000) :: pendingSteps env 0 k, None))
       ∨ (k < fuel
          ∧ ∃ r, _waitForReceipt timestampToMs fuel env tx
                 = (Sleep (Number.ofZ 1000) :: pendingSteps env 0 k ++ [Poll k],
                    Some r))).
Proof.
  intros Hs. unfold _waitForReceipt. rewrite Hs.
  destruct (poll_loop_shape fuel 0 env
              (Number.add (timestampToMs start) (Number.ofZ 120000)))
    as (k & Hkeep & Hcase).
  exists k. split; [done|].
  destruct Hcase as [[-> Hrun]|[Hk (r & Hrun)]]; rewrite Hrun.
  - by left.
  - right. split; [done|]. by exists r.
Qed.

(** X11: the wait cannot outlast the deadline by more than one poll: when
    the clock read at attempt [k], a time after the epoch, is past the
    deadline, the attempt is below 1024 and the draw there is one that
    [Math.random()] can give, a run with more than [k] rounds has an
    outcome and made at most [k + 1] polls. *)
Theorem X11_expiry_ends_the_wait (timestampToMs : Timestamp → number)
    fuel env tx start k :
  transactionvalidstart (_txnId tx) = Some start →
  isDraw (env_random env k) → k < 1024 →
  isTime (env_now env k) →
  Number.gt (env_now env k)
            (Number.add (timestampToMs start) (Number.ofZ 120000)) = true →
  k < fuel →
  ∃ r, snd (_waitForReceipt timestampToMs fuel env tx) = Some r
       ∧ polls (fst (_waitForReceipt timestampToMs fuel env tx)) ≤ k + 1.
Proof.
  intros Hs Hrand Hk1024 Htime Hnow Hk. unfold _waitForReceipt. rewrite Hs.
  set (D := Number.add (timestampToMs start) (Number.ofZ 120000)) in *.
  destruct (poll_loop_shape fuel 0 env D) as (k' & Hkeep & Hcase).
  assert (Hle : k' ≤ k).
  { destruct (Nat.le_gt_cases k' k) as [|Hgt]; [done|].
    destruct (Hkeep k) as [_ Hd]; [lia|].
    unfold expiresAt, delayAt in Hd.
    rewrite (gt_add (env_now env k) (backoff k (env_random env k)) D) in Hd;
      [done|done| |done].
    by apply backoff_notNegative. }
  destruct Hcase as [[-> Hrun]|[Hk' (r & Hrun)]]; [lia|].
  rewrite Hrun. exists r. cbn [fst snd]. split; [done|].
  change (Sleep receiptInitialDelayMs :: pendingSteps env 0 k' ++ [Poll (0 + k')])
    with ([Sleep receiptInitialDelayMs] ++ pendingSteps env 0 k' ++ [Poll (0 + k')]).
  rewrite !polls_app, polls_pendingSteps. cbn. lia.
Qed.

(** X12: an exception of the receipt query is not retried: when the query
    of attempt [k] throws, the wait ends with that poll and that error,
    as it was thrown. *)
Theorem X12_query_error_ends_the_wait (timestampToMs : Timestamp → number)
    fuel env tx start k e :
  transactionvalidstart (_txnId tx) = Some start →
  keepsPolling env (Number.add (timestampToMs start) (Number.ofZ 120000)) 0 k →
  env_receipt env k = Throws e →
  k < fuel →
  _waitForReceipt timestampToMs fuel env tx
  = (Sleep (Number.ofZ 1000) :: pendingSteps env 0 k ++ [Poll k],
     Some (Err (thrown e))).
Proof.
  intros Hs Hkeep Hr Hk. unfold _waitForReceipt. rewrite Hs.
  replace fuel with (k + S (fuel - S k)) by lia.
  rewrite poll_loop_keeps by done.
  cbn [Nat.add poll_loop fst snd]. by rewrite Hr.
Qed.

Lemma poll_loop_outcome fuel : ∀ a env D steps r,
  poll_loop fuel a env D = (steps, Some r) →
  ∃ k, last steps = Some (Poll k)
       ∧ match r with
         | Ok receipt =>
             status receipt = SUCCESS ∧ env_receipt env k = Answers receipt
         | Err e =>
             (∃ q, env_receipt env k = Throws q ∧ e = thrown q)
             ∨ (pendingAt env k ∧ expiresAt env D k = true
                ∧ e = ConsensusTimeout)
             ∨ (∃ receipt, env_receipt env k = Answers receipt
                           ∧ e = HederaError (status receipt)
                           ∧ status receipt ≠ SUCCESS
                           ∧ isPending (status receipt) = false)
         end.
Proof.
  induction fuel as [|fuel IH]; intros a env D steps r Hrun; [done|].
  cbn [poll_loop] in Hrun.
  destruct (env_receipt env a) as [receipt|q] eqn:Hr.
  2:{ injection Hrun as <- <-. exists a. split; [done|]. left. by exists q. }
  destruct (isPending (status receipt)) eqn:Hp.
  - change (Number.gt _ D) with (expiresAt env D a) in Hrun.
    destruct (expiresAt env D a) eqn:Hexp.
    { injection Hrun as <- <-. exists a. split; [done|]. right. left.
      split; [by exists receipt|done]. }
    destruct (poll_loop fuel (S a) env D) as [steps' r'] eqn:Hrec.
    injection Hrun as <- ->. destruct (IH _ _ _ _ _ Hrec) as (k & Hlast & Hres).
    exists k. split; [|done].
    destruct steps' as [|s steps']; [done|]. done.
  - destruct (bool_decide (status receipt ≠ SUCCESS)) eqn:Hs.
    + injection Hrun as <- <-. apply bool_decide_eq_true_1 in Hs.
      exists a. split; [done|]. right. right. by exists receipt.
    + injection Hrun as <- <-. apply bool_decide_eq_false_1 in Hs.
      exists a. split; [done|].
      split; [by destruct (decide (status receipt = SUCCESS))|done].
Qed.

(** X21: every run of the wait is accounted for.  Either the rounds are
    used up, every attempt having been pending within the deadline; or the
    run has an outcome, after pending attempts, and it is that of its last
    poll: a receipt it returns has the status SUCCESS and is the answer of
    that poll; a failure is the exception that the query threw, as it was
    thrown; or the timeout, at a pending answer whose backoff passes the
    deadline; or the [HederaError] with the status of the receipt, which
    is then neither SUCCESS nor a pending one. *)
Theorem X21_wait_outcome_sound (timestampToMs : Timestamp → number)
    fuel env tx start :
  transactionvalidstart (_txnId tx) = Some start →
  let D := Number.add (timestampToMs start) (Number.ofZ 120000) in
  let run := _waitForReceipt timestampToMs fuel env tx in
  (snd run = None ∧ keepsPolling env D 0 fuel)
  ∨ ∃ k r,
      k < fuel ∧ keepsPolling env D 0 k
      ∧ snd run = Some r ∧ last (fst run) = Some (Poll k)
      ∧ match r with
        | Ok receipt =>
            status receipt = SUCCESS ∧ env_receipt env k = Answers receipt
        | Err e =>
            (∃ q, env_receipt env k = Throws q ∧ e = thrown q)
            ∨ (pendingAt env k ∧ expiresAt env D k = true
               ∧ e = ConsensusTimeout)
            ∨ (∃ receipt, env_receipt env k = Answers receipt
                          ∧ e = HederaError (status receipt)
                          ∧ status receipt ≠ SUCCESS
                          ∧ isPending (status receipt) = false)
        end.
Proof.
  intros Hs. cbn zeta. unfold _waitForReceipt. rewrite Hs.
  set (D := Number.add (timestampToMs start) (Number.ofZ 120000)).
  destruct (poll_loop_shape fuel 0 env D) as (k & Hkeep & Hcase).
  destruct Hcase as [[-> Hrun]|[Hk (r & Hrun)]].
  - left. rewrite Hrun. by split.
  - right. exists k, r. split; [done|]. split; [done|].
    destruct (poll_loop_outcome _ _ _ _ _ _ Hrun) as (k' & Hlast & Hres).
    rewrite last_snoc in Hlast. injection Hlast as <-.
    rewrite Hrun. cbn [fst snd]. split; [done|]. split; [|done].
    change (Sleep receiptInitialDelayMs :: pendingSteps env 0 k ++ [Poll (0 + k)])
      with ((Sleep receiptInitialDelayMs :: pendingSteps env 0 k) ++ [Poll (0 + k)]).
    by rewrite last_snoc.
Qed.

(** *** Signing, copying and the wire form together *)

Lemma sign_spec tx privateKey (σ : Store) m :
  view σ (_inner tx) = Some m →
  ∃ σ', sign tx privateKey σ = (σ', Ok tx)
    ∧ view σ' (_inner tx)
      = Some (withPair m (mkSignaturePair (sk_publicKey privateKey)
                            (sk_sign privateKey (bodybytes m)))).
Proof.
  intros Hv. unfold sign, bind. rewrite (getBodybytes_view _ _ _ Hv).
  exact (_addSignature_spec tx
           {| signature := sk_sign privateKey (bodybytes m);
              publicKey := sk_publicKey privateKey |} σ m Hv).
Qed.

(** X13: signatures are not deduplicated and do not cover each other:
    signing with one key and then with another, or the same again, appends
    two pairs in the order of the calls, both over the body bytes. *)
Theorem X13_sign_twice tx (σ : Store) m key1 key2 :
  view σ (_inner tx) = Some m →
  ∃ σ1 σ2,
    sign tx key1 σ = (σ1, Ok tx)
    ∧ sign tx key2 σ1 = (σ2, Ok tx)
    ∧ view σ2 (_inner tx)
      = Some {| bodybytes := bodybytes m;
                sigmap := Some (sigpairs m ++
                  [mkSignaturePair (sk_publicKey key1) (sk_sign key1 (bodybytes m));
                   mkSignaturePair (sk_publicKey key2) (sk_sign key2 (bodybytes m))])
             |}.
Proof.
  intros Hv.
  destruct (sign_spec tx key1 σ m Hv) as (σ1 & Hrun1 & Hv1).
  destruct (sign_spec tx key2 σ1 _ Hv1) as (σ2 & Hrun2 & Hv2).
  exists σ1, σ2. split; [done|]. split; [done|].
  rewrite Hv2. unfold withPair, sigpairs. cbn [bodybytes sigmap].
  by rewrite <- app_assoc.
Qed.

(** What [_addSignature] writes: the message of the transaction, its
    signature map, and new objects; every other object stays. *)
Lemma _addSignature_footprint tx sk (σ : Store) m :
  view σ (_inner tx) = Some m →
  ∃ σ', _addSignature tx sk σ = (σ', Ok tx)
    ∧ ∀ l o, σ !! l = Some o →
        l = _inner tx
        ∨ (∃ bb, σ !! _inner tx = Some (OTransaction bb (Some l)))
        ∨ σ' !! l = Some o.
Proof.
  intros Hv. unfold _addSignature. unfold bind at 1. rewrite alloc_eq.
  set (lp := fresh (dom σ)).
  set (σ1 := <[lp := OSignaturePair (publicKey sk) (signature sk)]> σ).
  assert (Hlp : σ !! lp = None) by apply fresh_None.
  assert (Hsub : σ ⊆ σ1) by by apply insert_subseteq.
  unfold bind at 1. rewrite getSigmap_eq. unfold view in Hv.
  destruct (σ !! _inner tx) as [[bb sm|?|? ?]|] eqn:Ei; try done.
  rewrite (lookup_weaken _ _ _ _ Ei Hsub).
  destruct sm as [lm|].
  - destruct (σ !! lm) as [[?|ls|? ?]|] eqn:Em; try done.
    unfold bind at 1, ret at 1. unfold bind at 1. rewrite addSigpair_eq.
    rewrite (lookup_weaken _ _ _ _ Em Hsub).
    unfold bind at 1. rewrite setSigmap_eq.
    assert (Hml : lm ≠ _inner tx) by congruence.
    rewrite lookup_insert_ne by done.
    rewrite (lookup_weaken _ _ _ _ Ei Hsub). unfold ret.
    eexists. split; [done|]. intros l o Hl.
    destruct (decide (l = _inner tx)) as [->|Hn1]; [by left|].
    destruct (decide (l = lm)) as [->|Hn2]; [right; left; by exists bb|].
    right. right. rewrite !lookup_insert_ne by done.
    by apply (lookup_weaken _ _ _ _ Hl Hsub).
  - unfold bind at 1. rewrite alloc_eq.
    set (lm := fresh (dom σ1)).
    assert (Hlm1 : σ1 !! lm = None) by apply fresh_None.
    assert (Hml : lm ≠ _inner tx).
    { intros Heq. rewrite Heq in Hlm1.
      by rewrite (lookup_weaken _ _ _ _ Ei Hsub) in Hlm1. }
    unfold bind at 1. rewrite addSigpair_eq, lookup_insert_eq.
    unfold bind at 1. rewrite setSigmap_eq.
    rewrite !lookup_insert_ne by done.
    rewrite (lookup_weaken _ _ _ _ Ei Hsub). unfold ret.
    eexists. split; [done|]. intros l o Hl.
    destruct (decide (l = _inner tx)) as [->|Hn1]; [by left|].
    right. right.
    assert (Hl1 : σ1 !! l = Some o) by by apply (lookup_weaken _ _ _ _ Hl Hsub).
    assert (l ≠ lm) by congruence.
    by rewrite !lookup_insert_ne.
Qed.

Lemma readPairs_stable (σ0 σ σ' : Store) ls ps :
  Forall (λ r, r ∉ dom σ0) ls →
  (∀ l' o, l' ∉ dom σ0 → σ !! l' = Some o → σ' !! l' = Some o) →
  mapM (readPair σ) ls = Some ps → mapM (readPair σ') ls = Some ps.
Proof.
  intros Hls Hkeep Hps. apply mapM_Some. apply mapM_Some in Hps.
  revert Hls. induction Hps as [|lp p ls ps Hp _ IH]; intros Hls; [constructor|].
  apply Forall_cons_1 in Hls as [Hlp Hls].
  constructor; [|by apply IH].
  unfold readPair in *.
  destruct (σ !! lp) as [o|] eqn:Elp; [|done].
  by rewrite (Hkeep _ _ Hlp Elp).
Qed.

(** A message that lives apart from [σ0] keeps its value under any change
    that leaves the objects outside [σ0] alone. *)
Lemma view_apart_stable (σ0 σ σ' : Store) l m :
  apart σ0 σ → l ∉ dom σ0 → view σ l = Some m →
  (∀ l' o, l' ∉ dom σ0 → σ !! l' = Some o → σ' !! l' = Some o) →
  view σ' l = Some m.
Proof.
  intros Hap Hl Hv Hkeep. unfold view in *.
  destruct (σ !! l) as [[bb [lm|]|?|? ?]|] eqn:E; try done.
  - rewrite (Hkeep _ _ Hl E).
    pose proof (apart_refs _ _ _ _ Hap Hl E) as Hr.
    apply Forall_cons_1 in Hr as [Hlm _].
    destruct (σ !! lm) as [[?|ls|? ?]|] eqn:Em; try done.
    rewrite (Hkeep _ _ Hlm Em).
    pose proof (apart_refs _ _ _ _ Hap Hlm Em) as Hls. cbn [refs] in Hls.
    destruct (mapM (readPair σ) ls) as [ps|] eqn:Eps; [|done].
    assert (Hps : mapM (readPair σ') ls = Some ps)
      by (by eapply readPairs_stable).
    by rewrite Hps.
  - by rewrite (Hkeep _ _ Hl E).
Qed.

(** X14: a copy taken with [toProto] is a snapshot: a signature added to
    the transaction afterwards shows in the transaction's own message and
    not in the copy. *)
Theorem X14_copy_unaffected_by_sign tx (σ : Store) m privateKey :
  view σ (_inner tx) = Some m →
  ∃ σ1 clone σ2,
    toProto tx σ = (σ1, Ok clone)
    ∧ sign tx privateKey σ1 = (σ2, Ok tx)
    ∧ view σ2 clone = Some m
    ∧ view σ2 (_inner tx)
      = Some (withPair m (mkSignaturePair (sk_publicKey privateKey)
                            (sk_sign privateKey (bodybytes m)))).
Proof.
  intros Hv.
  destruct (toProto_spec tx σ m Hv) as (σ1 & clone & Hrun & Hap & Hvc & Hfresh).
  assert (Hv1 : view σ1 (_inner tx) = Some m) by by eapply apart_view.
  destruct (sign_spec tx privateKey σ1 m Hv1) as (σ2 & Hsign & Hv2).
  exists σ1, clone, σ2. split; [done|]. split; [done|]. split; [|done].
  assert (Hfoot : ∀ l o, l ∉ dom σ → σ1 !! l = Some o → σ2 !! l = Some o).
  { unfold sign, bind in Hsign. rewrite (getBodybytes_view _ _ _ Hv1) in Hsign.
    destruct (_addSignature_footprint tx
                {| signature := sk_sign privateKey (bodybytes m);
                   publicKey := sk_publicKey privateKey |} σ1 m Hv1)
      as (σ2' & Hrun' & Hfp).
    rewrite Hrun' in Hsign. injection Hsign as <-.
    intros l o Hl Hlo. destruct (Hfp l o Hlo) as [->|[(bb & Hb)|Hk]]; [| |done].
    - exfalso. apply Hl. apply elem_of_dom. unfold view in Hv.
      destruct (σ !! _inner tx); [done|congruence].
    - exfalso. apply Hl. apply elem_of_dom. unfold view in Hv.
      destruct Hap as [Hsub _].
      destruct (σ !! _inner tx) as [[bb0 [lm|]|?|? ?]|] eqn:Ei; try done.
      + rewrite (lookup_weaken _ _ _ _ Ei Hsub) in Hb. injection Hb as _ <-.
        destruct (σ !! lm); [done|congruence].
      + rewrite (lookup_weaken _ _ _ _ Ei Hsub) in Hb. congruence. }
  by eapply view_apart_stable.
Qed.

(** [fromBytes] once both decoders have answered: the message is built
    apart from what the store holds, then the body decides. *)
Lemma fromBytes_decoded
    (deserialize : bytes → option Transaction_)
    (deserializeBody : bytes → option TransactionBody) b m body (σ : Store) :
  deserialize b = Some m → deserializeBody (bodybytes m) = Some body →
  ∃ σ' inner,
    σ ⊆ σ' ∧ view σ' inner = Some m ∧ (inner ∉ dom σ)
    ∧ fromBytes deserialize deserializeBody b σ
      = match nodeaccountid body with
        | None => (σ', Err (ValueMissing "transaction missing node account ID"))
        | Some nodeId =>
            match methodFromTxn body σ' with
            | (_, Ok method) => constructor nodeId inner body method σ'
            | (_, Err e) => (σ', Err e)
            end
        end.
Proof.
  intros Hd Hb. unfold fromBytes. rewrite Hd.
  destruct (materialize_spec m σ σ (apart_refl σ))
    as (σ' & l & Hrun & Hsub & _ & Hview & _ & Hl).
  exists σ', l. split; [done|]. split; [done|]. split; [done|].
  unfold bind at 1. rewrite Hrun. unfold bind at 1.
  rewrite (getBodybytes_view _ _ _ Hview), Hb.
  unfold bind at 1, orThrow at 1.
  destruct (nodeaccountid body) as [nodeId|]; [|done].
  unfold ret at 1. unfold bind at 1.
  destruct (recognized (dataCase body)) eqn:Hrec.
  - destruct (methodFromTxn_recognized body σ' Hrec) as (method & ->). done.
  - destruct (methodFromTxn_unrecognized body σ' Hrec) as (e & ->). done.
Qed.

(** X15: a signed transaction keeps its signatures over the wire.  For
    a transaction whose fields are those of the body of its message:
    after [sign], [toBytes] gives the bytes of the message with the new
    signature pair last, not those of the message as it was; and when the
    codec gives back the signed message it encoded, [fromBytes] builds
    from them a transaction with that message and with the node,
    identity, validity duration and method of the first one. *)
Theorem X15_signed_round_trip
    (serialize : Transaction_ → bytes)
    (deserialize : bytes → option Transaction_)
    (deserializeBody : bytes → option TransactionBody)
    body tx (σ : Store) m privateKey :
  let signed := withPair m (mkSignaturePair (sk_publicKey privateKey)
                              (sk_sign privateKey (bodybytes m))) in
  view σ (_inner tx) = Some m →
  deserializeBody (bodybytes m) = Some body →
  builtFrom tx body →
  deserialize (serialize signed) = Some signed →
  ∃ σ1 σ2 tx',
    sign tx privateKey σ = (σ1, Ok tx)
    ∧ toBytes serialize tx σ1 = (σ1, Ok (serialize signed))
    ∧ fromBytes deserialize deserializeBody (serialize signed) σ1 = (σ2, Ok tx')
    ∧ view σ2 (_inner tx') = Some signed
    ∧ _node tx' = _node tx
    ∧ _txnId tx' = _txnId tx
    ∧ _validDurationSeconds tx' = _validDurationSeconds tx
    ∧ _method tx' = _method tx.
Proof.
  intros signed Hv Hbody (Hnode & Hid & Hdur & Hmeth) Hcodec.
  destruct (sign_spec tx privateKey σ m Hv) as (σ1 & Hsign & Hv1).
  fold signed in Hv1.
  destruct (fromBytes_decoded deserialize deserializeBody (serialize signed)
              signed body σ1 Hcodec Hbody)
    as (σ2 & inner & Hsub & Hview & _ & Hrun).
  rewrite Hnode, (methodFromTxn_state body σ2 _ Hmeth) in Hrun.
  unfold constructor, bind, orThrow in Hrun. rewrite Hid, Hdur in Hrun.
  unfold ret in Hrun.
  eexists σ1, σ2, _. split; [done|]. split.
  { unfold toBytes, bind, get, ret. by rewrite Hv1. }
  split; [exact Hrun|]. done.
Qed.

(** X16: [methodFromTxn] fails exactly for a body without operation
    ("transaction body missing") and for an operation it does not know,
    whose tag the error carries; on the operations it knows it is
    one-to-one: the method tells the operation. *)
Theorem X16_methodFromTxn_table {S} (body1 body2 : TransactionBody) (s : S) :
  (dataCase body1 = DATA_NOT_SET → methodFromTxn body1 s = (s, Err BodyMissing))
  ∧ (∀ tag, dataCase body1 = OtherCase tag →
       methodFromTxn body1 s = (s, Err (UnsupportedBodyCase tag)))
  ∧ (recognized (dataCase body1) = true →
       ∃ method, methodFromTxn body1 s = (s, Ok method))
  ∧ (∀ method, methodFromTxn body1 s = (s, Ok method) →
       methodFromTxn body2 s = (s, Ok method) →
       dataCase body1 = dataCase body2).
Proof.
  unfold methodFromTxn, recognized, ret, throw.
  split; [by intros ->|]. split; [by intros tag ->|]. split.
  - destruct (dataCase body1); intros H; try done; by eexists.
  - intros method H1 H2.
    destruct (dataCase body1), (dataCase body2); congruence.
Qed.

(** X17: [fromBytes] touches no object the store already holds, whatever
    its outcome, and its errors come in this order: the node id missing
    in the body is reported first, whatever the operation; then an
    operation that is missing or unknown; then a missing transaction id or
    validity duration. *)
Theorem X17_fromBytes_errors
    (deserialize : bytes → option Transaction_)
    (deserializeBody : bytes → option TransactionBody) b (σ : Store) :
  let out := fromBytes deserialize deserializeBody b σ in
  σ ⊆ fst out
  ∧ (deserialize b = None → out = (σ, Err DecodeError))
  ∧ ∀ m, deserialize b = Some m →
      (deserializeBody (bodybytes m) = None → snd out = Err DecodeError)
      ∧ ∀ body, deserializeBody (bodybytes m) = Some body →
          (nodeaccountid body = None →
             snd out = Err (ValueMissing "transaction missing node account ID"))
          ∧ (is_Some (nodeaccountid body) →
               (dataCase body = DATA_NOT_SET → snd out = Err BodyMissing)
               ∧ (∀ tag, dataCase body = OtherCase tag →
                    snd out = Err (UnsupportedBodyCase tag))
               ∧ (recognized (dataCase body) = true →
                    transactionid body = None
                    ∨ transactionvalidduration body = None →
                    snd out = Err (ValueMissing "value must not be null"))).
Proof.
  cbn zeta.
  destruct (deserialize b) as [m|] eqn:Hd.
  2:{ unfold fromBytes. rewrite Hd. by repeat split. }
  destruct (deserializeBody (bodybytes m)) as [body|] eqn:Hb.
  2:{ assert (Hout : ∃ σ', σ ⊆ σ'
                 ∧ fromBytes deserialize deserializeBody b σ = (σ', Err DecodeError)).
      { unfold fromBytes. rewrite Hd.
        destruct (materialize_spec m σ σ (apart_refl σ))
          as (σ' & l & Hrun & Hsub & _ & Hview & _ & Hl).
        exists σ'. split; [done|].
        unfold bind at 1. rewrite Hrun. unfold bind at 1.
        by rewrite (getBodybytes_view _ _ _ Hview), Hb. }
      destruct Hout as (σ' & Hsub & ->). cbn [fst snd].
      split; [done|]. split; [done|].
      intros m' Hm'. injection Hm' as <-. split; [done|].
      intros body Hbody. congruence. }
  destruct (fromBytes_decoded deserialize deserializeBody b m body σ Hd Hb)
    as (σ' & inner & Hsub & _ & _ & Hrun).
  rewrite Hrun. clear Hrun.
  assert (Hfst : σ ⊆ fst (match nodeaccountid body with
        | None => (σ', Err (ValueMissing "transaction missing node account ID"))
        | Some nodeId =>
            match methodFromTxn body σ' with
            | (_, Ok method) => constructor nodeId inner body method σ'
            | (_, Err e) => (σ', Err e)
            end
        end)).
  { destruct (nodeaccountid body); [|done].
    destruct (methodFromTxn body σ') as [? [method|e]]; [|done].
    unfold constructor, bind, orThrow, ret, throw.
    destruct (transactionid body); [|done].
    by destruct (transactionvalidduration body). }
  split; [done|]. split; [done|].
  intros m' Hm'. injection Hm' as <-. split; [congruence|].
  intros body' Hbody'. rewrite Hb in Hbody'. injection Hbody' as <-.
  split; [by intros ->|].
  intros [nodeId ->]. unfold methodFromTxn, recognized, ret, throw.
  split; [by intros ->|]. split; [by intros tag ->|].
  intros Hrec Hmiss.
  unfold constructor, bind, orThrow, ret, throw.
  destruct (dataCase body); try done;
    (destruct (transactionid body); [|done];
     destruct (transactionvalidduration body); [|done];
     by destruct Hmiss).
Qed.

End TxMore.

(** ** The names of the response codes (errors.ts) *)

Module ErrorsTsFacts.
Import ErrorsTs.

Lemma names_fold_absent (entries : list (string * Z)) : ∀ (acc : gmap Z string) c,
  c ∉ entries.*2 →
  foldl (λ map entry, <[entry.2 := entry.1]> map) acc entries !! c = acc !! c.
Proof.
  induction entries as [|[n c'] entries IH]; intros acc c Hc; [done|].
  cbn [foldl]. rewrite fmap_cons in Hc. apply not_elem_of_cons in Hc as [Hne Hc].
  rewrite IH by done. cbn in *. by rewrite lookup_insert_ne.
Qed.

Lemma names_fold_app (l1 l2 : list (string * Z)) (acc : gmap Z string) :
  foldl (λ map entry, <[entry.2 := entry.1]> map) acc (l1 ++ l2)
  = foldl (λ map entry, <[entry.2 := entry.1]> map)
          (foldl (λ map entry, <[entry.2 := entry.1]> map) acc l1) l2.
Proof. apply foldl_app. Qed.

Lemma last_occurrence (entries : list (string * Z)) c :
  c ∈ entries.*2 →
  ∃ n before after, entries = before ++ (n, c) :: after ∧ c ∉ after.*2.
Proof.
  induction entries as [|[n' c'] entries IH]; intros Hin.
  - by apply elem_of_nil in Hin.
  - destruct (decide (c ∈ entries.*2)) as [Hlater|Hnot].
    + destruct (IH Hlater) as (n & before & after & -> & Hafter).
      by exists n, ((n', c') :: before), after.
    + rewrite fmap_cons in Hin. apply elem_of_cons in Hin as [->|Hin]; [|done].
      by exists n', [], entries.
Qed.

Lemma names_at_last (before after : list (string * Z)) n c :
  c ∉ after.*2 →
  getResponseCodeName (before ++ (n, c) :: after) c = Some n.
Proof.
  intros Hafter. unfold getResponseCodeName, responseCodeNames.
  rewrite names_fold_app. cbn [foldl]. rewrite names_fold_absent by done.
  cbn. by rewrite lookup_insert_eq.
Qed.

Lemma names_absent (entries : list (string * Z)) c :
  c ∉ entries.*2 → getResponseCodeName entries c = None.
Proof.
  intros Hc. unfold getResponseCodeName, responseCodeNames.
  by rewrite names_fold_absent.
Qed.

(** X18: [getResponseCodeName] finds, for a code, the name of the last
    entry of the enum that has this code: a later entry with the same code
    overrides an earlier one; it finds nothing exactly for the codes that
    no entry has. *)
Theorem X18_getResponseCodeName_lookup (entries : list (string * Z)) c :
  (∀ n, getResponseCodeName entries c = Some n
        ↔ ∃ before after, entries = before ++ (n, c) :: after ∧ c ∉ after.*2)
  ∧ (getResponseCodeName entries c = None ↔ c ∉ entries.*2).
Proof.
  pose proof (names_absent entries c) as Hnone.
  split.
  - intros n. split.
    + intros Hn. destruct (decide (c ∈ entries.*2)) as [Hin|Hnot].
      * destruct (last_occurrence entries c Hin) as (n' & before & after & -> & Ha).
        rewrite names_at_last in Hn by done. injection Hn as ->.
        by exists before, after.
      * rewrite Hnone in Hn by done. done.
    + intros (before & after & -> & Ha). by apply names_at_last.
  - split; [|done]. intros Hn Hin.
    destruct (last_occurrence entries c Hin) as (n' & before & after & -> & Ha).
    by rewrite names_at_last in Hn.
Qed.

(** X19: a [HederaError] keeps the code it was built with and is named
    "HederaError".  When the codes of the enum are distinct, the error
    built for the code of an entry carries the name of that entry; for a
    code that the enum does not have the code name is "UNKNOWN".  The
    message is made of the code name and the code. *)
Theorem X19_HederaError_names (entries : list (string * Z))
    (showNumber : Z → string) c :
  let e := newHederaError entries showNumber c in
  code e = c ∧ name e = "HederaError"%string
  ∧ message e
    = ("Hedera returned response code: " ++ codeName e ++ " ("
       ++ showNumber c ++ ")")%string
  ∧ (c ∉ entries.*2 → codeName e = "UNKNOWN"%string)
  ∧ (NoDup entries.*2 → ∀ n, (n, c) ∈ entries → codeName e = n).
Proof.
  cbn zeta. split; [done|]. split; [done|]. split; [done|]. split.
  - intros Hc. unfold newHederaError. cbn [codeName].
    fold (getResponseCodeName entries c). by rewrite names_absent.
  - intros Hnd n Hin. unfold newHederaError. cbn [codeName].
    apply list_elem_of_split in Hin as (before & after & ->).
    fold (getResponseCodeName (before ++ (n, c) :: after) c).
    rewrite names_at_last; [done|].
    rewrite fmap_app, fmap_cons in Hnd. apply NoDup_app in Hnd as (_ & _ & Hnd).
    by apply NoDup_cons in Hnd as [Hnot _].
Qed.

End ErrorsTsFacts.

(** ** ContractLogInfo *)

Module ContractLogFacts.
Import ContractLog.

Section WithContractId.

Variables ContractId IContractID : Type.
Variable fromProtobuf : option IContractID → ContractId.
Variable toProtobuf : ContractId → IContractID.

(** X20: a log info survives the protobuf form: [_fromProtobuf] of
    [_toProtobuf] gives the log info back, when the contract id does so.
    The other way round is a normal form: the protobuf form that comes
    back has every field set, a bloom, topic list or data that was missing
    being empty, and the fields that were there are kept. *)
Theorem X20_log_info_round_trip
    (l : ContractLogInfo ContractId) (info : IContractLoginfo IContractID) :
  (fromProtobuf (Some (toProtobuf (contractId _ l))) = contractId _ l →
     _fromProtobuf _ _ fromProtobuf (_toProtobuf _ _ toProtobuf l) = l)
  ∧ let back := _toProtobuf _ _ toProtobuf (_fromProtobuf _ _ fromProtobuf info) in
    p_bloom _ back = Some (default [] (p_bloom _ info))
    ∧ p_topic _ back = Some (default [] (p_topic _ info))
    ∧ p_data _ back = Some (default [] (p_data _ info))
    ∧ (is_Some (p_bloom _ info) → is_Some (p_topic _ info) →
       is_Some (p_data _ info) →
       p_contractID _ back = p_contractID _ info →
       back = info).
Proof.
  split.
  - intros Hid. destruct l as [c b t d]. unfold _fromProtobuf, _toProtobuf.
    cbn in *. by rewrite Hid.
  - destruct info as [c [b|] [t|] [d|]]; cbn; repeat split; try done;
      intros [? ?] [? ?] [? ?]; try done.
    intros Heq. unfold _toProtobuf, _fromProtobuf. cbn. by rewrite Heq.
Qed.

End WithContractId.

End ContractLogFacts.

Module FileAppendMoreCases.
Import FileAppend FileAppendSpec FileAppendFacts MoreSpec FileAppendMore Examples.

Lemma calmClient_accepting : accepting calmClient.
Proof. split; [reflexivity|]. intros hist id. by eexists. Defined.

Lemma X2_witness :
  0 < 4 ∧ _frozen (draft 9) = false ∧ _contents (draft 9) = Some (payload 9)
  ∧ assignedId (Some calmClient) (draft 9) = Some id0
  ∧ 4 ≤ length (payload 9)
  ∧ freezeWith 4 (Some calmClient) (draft 9)
    = (fst (freezeWith 4 (Some calmClient) (draft 9)), Ok tt)
  ∧ _nodeIds (fst (freezeWith 4 (Some calmClient) (draft 9)))
    = selectedNodes (Some calmClient) (draft 9)
  ∧ length (_transactions (fst (freezeWith 4 (Some calmClient) (draft 9))))
    = chunksOf 4 (payload 9)
      * length (selectedNodes (Some calmClient) (draft 9))
  ∧ ∀ i j node, i < chunksOf 4 (payload 9) →
      selectedNodes (Some calmClient) (draft 9) !! j = Some node →
      ∃ req chunk,
        _transactions (fst (freezeWith 4 (Some calmClient) (draft 9)))
        !! (i * length (selectedNodes (Some calmClient) (draft 9)) + j)
        = Some req
        ∧ nodeAccountID req = node
        ∧ contents (fileAppend req) = Some chunk
        ∧ 0 < length chunk ≤ 4
        ∧ (S i < chunksOf 4 (payload 9) → length chunk = 4)
        ∧ (S i = chunksOf 4 (payload 9) →
           length chunk = length (payload 9) - i * 4).
Proof.
  assert (H4 : 0 < 4) by lia.
  assert (Hf : _frozen (draft 9) = false) by reflexivity.
  assert (Hc : _contents (draft 9) = Some (payload 9)) by reflexivity.
  assert (Hid : assignedId (Some calmClient) (draft 9) = Some id0) by reflexivity.
  assert (HL : 4 ≤ length (payload 9)) by (vm_compute; lia).
  assert (Hrun : freezeWith 4 (Some calmClient) (draft 9)
                 = (fst (freezeWith 4 (Some calmClient) (draft 9)), Ok tt))
    by reflexivity.
  repeat (split; [assumption|]).
  exact (X2_chunk_sizes 4 (Some calmClient) (draft 9) (payload 9) id0 _
           H4 Hf Hc Hid HL Hrun).
Defined.

Lemma X3_witness :
  _frozen (draft 9) = false
  ∧ freezeWith 4 (Some calmClient) (draft 9)
    = (fst (freezeWith 4 (Some calmClient) (draft 9)), Ok tt)
  ∧ _transactionId (fst (freezeWith 4 (Some calmClient) (draft 9)))
    = assignedId (Some calmClient) (draft 9)
  ∧ _contents (fst (freezeWith 4 (Some calmClient) (draft 9)))
    = _contents (draft 9).
Proof.
  assert (Hf : _frozen (draft 9) = false) by reflexivity.
  assert (Hrun : freezeWith 4 (Some calmClient) (draft 9)
                 = (fst (freezeWith 4 (Some calmClient) (draft 9)), Ok tt))
    by reflexivity.
  repeat (split; [assumption|]).
  pose proof (X3_freezeWith_frame 4 (Some calmClient) (draft 9) _ Hf Hrun)
    as (_ & Hid & _ & _ & _ & Hc & _).
  split; assumption.
Defined.

Lemma X4_witness :
  _frozen (draft 9) = false
  ∧ assignedId (Some calmClient) (draft 9) = Some id0
  ∧ _contents (draft 9) = Some (payload 9)
  ∧ 4 ≤ length (payload 9)
  ∧ freezeWith 4 (Some calmClient) (draft 9)
    = (fst (freezeWith 4 (Some calmClient) (draft 9)), Ok tt)
  ∧ (- 2 ^ 63 ≤ seconds (validStart id0))%Z
  ∧ (seconds (validStart id0) + 10 * Z.of_nat (chunksOf 4 (payload 9)) < 2 ^ 63)%Z
  ∧ _nodeIds (fst (freezeWith 4 (Some calmClient) (draft 9)))
    = selectedNodes (Some calmClient) (draft 9)
  ∧ ∀ i j node, i < chunksOf 4 (payload 9) →
      selectedNodes (Some calmClient) (draft 9) !! j = Some node →
      ∃ req,
        _transactions (fst (freezeWith 4 (Some calmClient) (draft 9)))
        !! (i * length (selectedNodes (Some calmClient) (draft 9)) + j)
        = Some req
        ∧ nodeAccountID req = node
        ∧ transactionID req
          = Some (mkTransactionId (accountId id0)
                    (mkTimestamp (seconds (validStart id0) + 10 * Z.of_nat i)
                                 (nanos (validStart id0)))).
Proof.
  assert (Hf : _frozen (draft 9) = false) by reflexivity.
  assert (Hid : assignedId (Some calmClient) (draft 9) = Some id0) by reflexivity.
  assert (Hc : _contents (draft 9) = Some (payload 9)) by reflexivity.
  assert (HL : 4 ≤ length (payload 9)) by (vm_compute; lia).
  assert (Hrun : freezeWith 4 (Some calmClient) (draft 9)
                 = (fst (freezeWith 4 (Some calmClient) (draft 9)), Ok tt))
    by reflexivity.
  assert (Hlo : (- 2 ^ 63 ≤ seconds (validStart id0))%Z)
    by (vm_compute; intros H; discriminate H).
  assert (Hhi : (seconds (validStart id0)
                 + 10 * Z.of_nat (chunksOf 4 (payload 9)) < 2 ^ 63)%Z)
    by (vm_compute; reflexivity).
  repeat (split; [assumption|]).
  exact (X4_request_identities 4 (Some calmClient) (draft 9) (payload 9) id0 _
           Hf Hid Hc HL Hrun Hlo Hhi).
Defined.

Lemma X5_witness :
  _frozen (draft 3) = false
  ∧ assignedId (Some calmClient) (draft 3) = Some id0
  ∧ match _contents (draft 3) with Some c => length c < 4 | None => True end
  ∧ freezeWith 4 (Some calmClient) (draft 3)
    = (fst (freezeWith 4 (Some calmClient) (draft 3)), Ok tt)
  ∧ _transactionIds (fst (freezeWith 4 (Some calmClient) (draft 3))) = [id0]
  ∧ length (_transactions (fst (freezeWith 4 (Some calmClient) (draft 3))))
    = length (_nodeIds (fst (freezeWith 4 (Some calmClient) (draft 3))))
  ∧ ∀ req, req ∈ _transactions (fst (freezeWith 4 (Some calmClient) (draft 3))) →
      transactionID req = Some id0
      ∧ (_startIndex (draft 3) = 0 →
         contents (fileAppend req) = _contents (draft 3)).
Proof.
  assert (Hf : _frozen (draft 3) = false) by reflexivity.
  assert (Hid : assignedId (Some calmClient) (draft 3) = Some id0) by reflexivity.
  assert (Hs : match _contents (draft 3) with
               | Some c => length c < 4
               | None => True
               end) by (vm_compute; lia).
  assert (Hrun : freezeWith 4 (Some calmClient) (draft 3)
                 = (fst (freezeWith 4 (Some calmClient) (draft 3)), Ok tt))
    by reflexivity.
  repeat (split; [assumption|]).
  exact (X5_short_contents_not_split 4 (Some calmClient) (draft 3) id0 _
           Hf Hid Hs Hrun).
Defined.

Lemma X6_witness :
  _frozen (fst (freezeWith 4 (Some calmClient) (draft 9))) = true
  ∧ _transactionId (fst (freezeWith 4 (Some calmClient) (draft 9))) = Some id0
  ∧ let t := fst (freezeWith 4 (Some calmClient) (draft 9)) in
    let t' := this (fst (executeAll 4 calmClient (mkWorld t []))) in
    _fileId t' = _fileId t ∧ _contents t' = _contents t
    ∧ _maxChunks t' = _maxChunks t ∧ _startIndex t' = _startIndex t
    ∧ _transactionIds t' = _transactionIds t
    ∧ _nodeIds t' = _nodeIds t ∧ _transactions t' = _transactions t
    ∧ _frozen t' = true
    ∧ _signers t' = signersAfter calmClient t.
Proof.
  assert (Hf : _frozen (fst (freezeWith 4 (Some calmClient) (draft 9))) = true)
    by reflexivity.
  assert (Hid : _transactionId (fst (freezeWith 4 (Some calmClient) (draft 9)))
                = Some id0) by reflexivity.
  split; [exact Hf|]. split; [exact Hid|].
  exact (X6_executeAll_frame 4 calmClient
           (fst (freezeWith 4 (Some calmClient) (draft 9))) [] id0 Hf Hid).
Defined.

Lemma X7_witness :
  0 < 4 ∧ accepting calmClient ∧ _frozen (draft 9) = false
  ∧ assignedId (Some calmClient) (draft 9) = Some id0
  ∧ _contents (draft 9) = Some (payload 9) ∧ 4 ≤ length (payload 9)
  ∧ (Z.of_nat (chunksOf 4 (payload 9)) ≤ _maxChunks (draft 9))%Z
  ∧ client_nodeIds calmClient = node3 :: []
  ∧ ∃ w' responses chunks,
      executeAll 4 calmClient (mkWorld (draft 9) []) = (w', Ok responses)
      ∧ length responses = chunksOf 4 (payload 9)
      ∧ length chunks = chunksOf 4 (payload 9)
      ∧ concat chunks = payload 9
      ∧ dispatchedGroups (trace w')
        = dispatchedGroups [] ++ seq 0 (chunksOf 4 (payload 9))
      ∧ (∀ g, g < chunksOf 4 (payload 9) → ∃ req, inGroup (this w') g req)
      ∧ (∀ g req, inGroup (this w') g req →
           ∃ chunk, chunks !! g = Some chunk
                    ∧ contents (fileAppend req) = Some chunk).
Proof.
  assert (H4 : 0 < 4) by lia.
  assert (Hacc : accepting calmClient) by exact calmClient_accepting.
  assert (Hf : _frozen (draft 9) = false) by reflexivity.
  assert (Hid : assignedId (Some calmClient) (draft 9) = Some id0) by reflexivity.
  assert (Hc : _contents (draft 9) = Some (payload 9)) by reflexivity.
  assert (HL : 4 ≤ length (payload 9)) by (vm_compute; lia).
  assert (HM : (Z.of_nat (chunksOf 4 (payload 9)) ≤ _maxChunks (draft 9))%Z)
    by (vm_compute; intros H; discriminate H).
  assert (Hn : client_nodeIds calmClient = node3 :: []) by reflexivity.
  repeat (split; [assumption|]).
  exact (X7_executeAll_sends_whole_contents 4 calmClient (draft 9) []
           (payload 9) id0 node3 [] H4 Hacc Hf Hid Hc HL HM Hn).
Defined.

Lemma X8_witness :
  0 < 4 ∧ accepting calmClient ∧ _frozen (draft 9) = false
  ∧ assignedId (Some calmClient) (draft 9) = Some id0
  ∧ _contents (draft 9) = Some (payload 9) ∧ 4 ≤ length (payload 9)
  ∧ (Z.of_nat (chunksOf 4 (payload 9)) ≤ _maxChunks (draft 9))%Z
  ∧ client_nodeIds calmClient = node3 :: []
  ∧ ∃ w',
      execute 4 calmClient (mkWorld (draft 9) [])
      = (w', Ok (Some {| resp_nodeId := node3; resp_transactionId := Some id0 |}))
      ∧ w' = fst (executeAll 4 calmClient (mkWorld (draft 9) []))
      ∧ dispatchedGroups (trace w')
        = dispatchedGroups [] ++ seq 0 (chunksOf 4 (payload 9)).
Proof.
  assert (H4 : 0 < 4) by lia.
  assert (Hacc : accepting calmClient) by exact calmClient_accepting.
  assert (Hf : _frozen (draft 9) = false) by reflexivity.
  assert (Hid : assignedId (Some calmClient) (draft 9) = Some id0) by reflexivity.
  assert (Hc : _contents (draft 9) = Some (payload 9)) by reflexivity.
  assert (HL : 4 ≤ length (payload 9)) by (vm_compute; lia).
  assert (HM : (Z.of_nat (chunksOf 4 (payload 9)) ≤ _maxChunks (draft 9))%Z)
    by (vm_compute; intros H; discriminate H).
  assert (Hn : client_nodeIds calmClient = node3 :: []) by reflexivity.
  repeat (split; [assumption|]).
  exact (X8_execute_runs_all_chunks 4 calmClient (draft 9) []
           (payload 9) id0 node3 [] H4 Hacc Hf Hid Hc HL HM Hn).
Defined.

Lemma X22_witness :
  let t := fst (freezeWith 4 (Some rejectSecond) (draft 9)) in
  _frozen t = true ∧ _transactionId t = Some id0
  ∧ match snd (executeAll 4 rejectSecond (mkWorld t [])) with
    | Ok responses =>
        _nextGroupIndex (this (fst (executeAll 4 rejectSecond (mkWorld t []))))
        = length (_transactions t) / length (_nodeIds t)
        ∧ length responses = length (_transactions t) / length (_nodeIds t)
        ∧ dispatchedGroups (trace (fst (executeAll 4 rejectSecond (mkWorld t []))))
          = dispatchedGroups []
            ++ seq 0 (length (_transactions t) / length (_nodeIds t))
    | Err e =>
        _nextGroupIndex (this (fst (executeAll 4 rejectSecond (mkWorld t []))))
        < length (_transactions t) / length (_nodeIds t)
        ∧ (dispatchedGroups (trace (fst (executeAll 4 rejectSecond (mkWorld t []))))
           = dispatchedGroups []
             ++ seq 0 (_nextGroupIndex
                         (this (fst (executeAll 4 rejectSecond (mkWorld t [])))))
           ∨ dispatchedGroups
               (trace (fst (executeAll 4 rejectSecond (mkWorld t []))))
             = dispatchedGroups []
               ++ seq 0 (S (_nextGroupIndex
                              (this (fst (executeAll 4 rejectSecond
                                            (mkWorld t [])))))))
    end.
Proof.
  cbn zeta.
  assert (Hf : _frozen (fst (freezeWith 4 (Some rejectSecond) (draft 9))) = true)
    by reflexivity.
  assert (Hid : _transactionId (fst (freezeWith 4 (Some rejectSecond) (draft 9)))
                = Some id0) by reflexivity.
  repeat (split; [assumption|]).
  exact (X22_executeAll_cursor 4 rejectSecond
           (fst (freezeWith 4 (Some rejectSecond) (draft 9))) [] id0 Hf Hid).
Defined.

(** With the request of chunk 1 rejected, the cursor stops at 1. *)
Example cursor_after_rejection :
  let t := fst (freezeWith 4 (Some rejectSecond) (draft 9)) in
  _nextGroupIndex (this (fst (executeAll 4 rejectSecond (mkWorld t [])))) = 1
  ∧ dispatchedGroups (trace (fst (executeAll 4 rejectSecond (mkWorld t []))))
    = [0; 1].
Proof. vm_compute. split; reflexivity. Qed.

End FileAppendMoreCases.

Module TxMoreCases.
Import Tx NumberSpec TxSpec TxFacts TxMore Examples MoreExamples.

Lemma half_isDraw : isDraw half.
Proof. repeat split; reflexivity. Defined.

Lemma X9_witness :
  isDraw half ∧ 3 < 1024
  ∧ isZero (backoff 0 half) ∧ notNegative (backoff 3 half).
Proof.
  assert (Hr : isDraw half) by exact half_isDraw.
  assert (Hk : 3 < 1024) by lia.
  repeat (split; [assumption|]).
  split.
  - exact (proj1 (X9_backoff_range 3 half Hr)).
  - exact (proj2 (X9_backoff_range 3 half Hr) Hk).
Defined.

(** The products are rounded as the numbers of JavaScript are: with the
    draw 1116892707587883 / 2^52 the backoff of attempt 1 is 124, where
    the exact product is a little below 124; and with the draw 0.5 the
    backoff of attempt 3 is 1750. *)
Example backoff_is_rounded :
  backoff 1 quarterish = Number.ofZ 124
  ∧ backoff 3 half = Number.ofZ 1750
  ∧ isDraw quarterish.
Proof. vm_compute. repeat split; reflexivity. Qed.

(** With the clock 123 milliseconds before the deadline that backoff of
    124 passes it: the wait times out at the second poll. *)
Example timeout_at_the_boundary :
  _waitForReceipt wholeMs 5 atTheBoundary tx0
  = ([Sleep (Number.ofZ 1000); Poll 0; Sleep (Number.ofZ 0); Poll 1],
     Some (Err ConsensusTimeout)).
Proof. vm_compute. reflexivity. Qed.

Lemma X10_witness :
  transactionvalidstart (_txnId tx0) = Some start0
  ∧ ∃ k,
      keepsPolling lateSuccess
        (Number.add (wholeMs start0) (Number.ofZ 120000)) 0 k
      ∧ ((k = 5
          ∧ _waitForReceipt wholeMs 5 lateSuccess tx0
            = (Sleep (Number.ofZ 1000) :: pendingSteps lateSuccess 0 k, None))
         ∨ (k < 5
            ∧ ∃ r, _waitForReceipt wholeMs 5 lateSuccess tx0
                   = (Sleep (Number.ofZ 1000)
                        :: pendingSteps lateSuccess 0 k ++ [Poll k],
                      Some r))).
Proof.
  assert (Hs : transactionvalidstart (_txnId tx0) = Some start0) by reflexivity.
  split; [assumption|].
  exact (X10_wait_shape wholeMs 5 lateSuccess tx0 start0 Hs).
Defined.

Lemma X11_witness :
  transactionvalidstart (_txnId tx0) = Some start0
  ∧ isDraw (env_random neverDecided 2)
  ∧ 2 < 1024
  ∧ isTime (env_now neverDecided 2)
  ∧ Number.gt (env_now neverDecided 2)
              (Number.add (wholeMs start0) (Number.ofZ 120000)) = true
  ∧ 2 < 5
  ∧ ∃ r, snd (_waitForReceipt wholeMs 5 neverDecided tx0) = Some r
         ∧ polls (fst (_waitForReceipt wholeMs 5 neverDecided tx0)) ≤ 2 + 1.
Proof.
  assert (Hs : transactionvalidstart (_txnId tx0) = Some start0) by reflexivity.
  assert (Hr : isDraw (env_random neverDecided 2)) by exact half_isDraw.
  assert (Hk : 2 < 1024) by lia.
  assert (Ht : isTime (env_now neverDecided 2))
    by (vm_compute; split; [reflexivity|exact I]).
  assert (Hn : Number.gt (env_now neverDecided 2)
                 (Number.add (wholeMs start0) (Number.ofZ 120000)) = true)
    by (vm_compute; reflexivity).
  assert (Hlt : 2 < 5) by lia.
  repeat (split; [assumption|]).
  exact (X11_expiry_ends_the_wait wholeMs 5 neverDecided tx0 start0 2
           Hs Hr Hk Ht Hn Hlt).
Defined.

Lemma X12_witness :
  transactionvalidstart (_txnId tx0) = Some start0
  ∧ keepsPolling throwsSecond
      (Number.add (wholeMs start0) (Number.ofZ 120000)) 0 1
  ∧ env_receipt throwsSecond 1 = Throws (PrecheckFailed UNKNOWN)
  ∧ 1 < 5
  ∧ _waitForReceipt wholeMs 5 throwsSecond tx0
    = (Sleep (Number.ofZ 1000) :: pendingSteps throwsSecond 0 1 ++ [Poll 1],
       Some (Err (thrown (PrecheckFailed UNKNOWN)))).
Proof.
  assert (Hs : transactionvalidstart (_txnId tx0) = Some start0) by reflexivity.
  assert (Hk : keepsPolling throwsSecond
                 (Number.add (wholeMs start0) (Number.ofZ 120000)) 0 1).
  { intros j Hj. assert (j = 0) as -> by lia. split.
    - exists (mkReceipt UNKNOWN). split; reflexivity.
    - vm_compute. reflexivity. }
  assert (Hr : env_receipt throwsSecond 1 = Throws (PrecheckFailed UNKNOWN))
    by reflexivity.
  assert (Hlt : 1 < 5) by lia.
  repeat (split; [assumption|]).
  exact (X12_query_error_ends_the_wait wholeMs 5 throwsSecond tx0 start0 1
           (PrecheckFailed UNKNOWN) Hs Hk Hr Hlt).
Defined.

(** The error of that run is a [HederaError] with the pending status
    UNKNOWN: it comes from the query, not from a receipt. *)
Example query_error_with_pending_status :
  snd (_waitForReceipt wholeMs 5 throwsSecond tx0)
  = Some (Err (HederaError UNKNOWN))
  ∧ isPending UNKNOWN = true.
Proof. vm_compute. split; reflexivity. Qed.

Lemma X21_witness :
  transactionvalidstart (_txnId tx0) = Some start0
  ∧ let D := Number.add (wholeMs start0) (Number.ofZ 120000) in
    let run := _waitForReceipt wholeMs 5 lateSuccess tx0 in
    (snd run = None ∧ keepsPolling lateSuccess D 0 5)
    ∨ ∃ k r,
        k < 5 ∧ keepsPolling lateSuccess D 0 k
        ∧ snd run = Some r ∧ last (fst run) = Some (Poll k)
        ∧ match r with
          | Ok receipt =>
              status receipt = SUCCESS
              ∧ env_receipt lateSuccess k = Answers receipt
          | Err e =>
              (∃ q, env_receipt lateSuccess k = Throws q ∧ e = thrown q)
              ∨ (pendingAt lateSuccess k ∧ expiresAt lateSuccess D k = true
                 ∧ e = ConsensusTimeout)
              ∨ (∃ receipt, env_receipt lateSuccess k = Answers receipt
                            ∧ e = HederaError (status receipt)
                            ∧ status receipt ≠ SUCCESS
                            ∧ isPending (status receipt) = false)
          end.
Proof.
  assert (Hs : transactionvalidstart (_txnId tx0) = Some start0) by reflexivity.
  split; [assumption|].
  exact (X21_wait_outcome_sound wholeMs 5 lateSuccess tx0 start0 Hs).
Defined.

Lemma X13_witness :
  view store0 (_inner tx0) = Some message0
  ∧ ∃ σ1 σ2,
      sign tx0 key0 store0 = (σ1, Ok tx0)
      ∧ sign tx0 key0 σ1 = (σ2, Ok tx0)
      ∧ view σ2 (_inner tx0)
        = Some {| bodybytes := bodybytes message0;
                  sigmap := Some (sigpairs message0 ++
                    [mkSignaturePair (sk_publicKey key0)
                       (sk_sign key0 (bodybytes message0));
                     mkSignaturePair (sk_publicKey key0)
                       (sk_sign key0 (bodybytes message0))]) |}.
Proof.
  assert (Hv : view store0 (_inner tx0) = Some message0)
    by (vm_compute; reflexivity).
  split; [assumption|].
  exact (X13_sign_twice tx0 store0 message0 key0 key0 Hv).
Defined.

Lemma X14_witness :
  view store0 (_inner tx0) = Some message0
  ∧ ∃ σ1 clone σ2,
      toProto tx0 store0 = (σ1, Ok clone)
      ∧ sign tx0 key0 σ1 = (σ2, Ok tx0)
      ∧ view σ2 clone = Some message0
      ∧ view σ2 (_inner tx0)
        = Some (withPair message0
                  (mkSignaturePair (sk_publicKey key0)
                     (sk_sign key0 (bodybytes message0)))).
Proof.
  assert (Hv : view store0 (_inner tx0) = Some message0)
    by (vm_compute; reflexivity).
  split; [assumption|].
  exact (X14_copy_unaffected_by_sign tx0 store0 message0 key0 Hv).
Defined.

Lemma X15_witness :
  view store0 (_inner tx0) = Some message0
  ∧ bareDeserializeBody (bodybytes message0) = Some body0
  ∧ builtFrom tx0 body0
  ∧ lengthDeserialize
      (lengthSerialize
         (withPair message0 (mkSignaturePair (sk_publicKey key0)
                               (sk_sign key0 (bodybytes message0)))))
    = Some (withPair message0 (mkSignaturePair (sk_publicKey key0)
                                 (sk_sign key0 (bodybytes message0))))
  ∧ ∃ σ1 σ2 tx',
      sign tx0 key0 store0 = (σ1, Ok tx0)
      ∧ toBytes lengthSerialize tx0 σ1
        = (σ1, Ok (lengthSerialize
                     (withPair message0
                        (mkSignaturePair (sk_publicKey key0)
                           (sk_sign key0 (bodybytes message0))))))
      ∧ fromBytes lengthDeserialize bareDeserializeBody
          (lengthSerialize
             (withPair message0 (mkSignaturePair (sk_publicKey key0)
                                   (sk_sign key0 (bodybytes message0))))) σ1
        = (σ2, Ok tx')
      ∧ view σ2 (_inner tx')
        = Some (withPair message0 (mkSignaturePair (sk_publicKey key0)
                                     (sk_sign key0 (bodybytes message0))))
      ∧ _node tx' = _node tx0
      ∧ _txnId tx' = _txnId tx0
      ∧ _validDurationSeconds tx' = _validDurationSeconds tx0
      ∧ _method tx' = _method tx0.
Proof.
  assert (H1 : view store0 (_inner tx0) = Some message0)
    by (vm_compute; reflexivity).
  assert (H2 : bareDeserializeBody (bodybytes message0) = Some body0)
    by reflexivity.
  assert (H3 : builtFrom tx0 body0) by (repeat split; reflexivity).
  assert (H4 : lengthDeserialize
                 (lengthSerialize
                    (withPair message0 (mkSignaturePair (sk_publicKey key0)
                                          (sk_sign key0 (bodybytes message0)))))
               = Some (withPair message0
                         (mkSignaturePair (sk_publicKey key0)
                            (sk_sign key0 (bodybytes message0)))))
    by (vm_compute; reflexivity).
  repeat (split; [assumption|]).
  exact (X15_signed_round_trip lengthSerialize lengthDeserialize
           bareDeserializeBody body0 tx0 store0 message0 key0 H1 H2 H3 H4).
Defined.

Lemma X16_witness :
  recognized (dataCase body0) = true
  ∧ ∃ method, methodFromTxn body0 store0 = (store0, Ok method).
Proof.
  assert (H : recognized (dataCase body0) = true) by reflexivity.
  split; [assumption|].
  exact (proj1 (proj2 (proj2 (X16_methodFromTxn_table body0 body0 store0))) H).
Defined.

Lemma X17_witness :
  bareDeserialize [] = Some {| bodybytes := []; sigmap := None |}
  ∧ bareDeserializeBody (bodybytes {| bodybytes := []; sigmap := None |}) = None
  ∧ store0 ⊆ fst (fromBytes bareDeserialize bareDeserializeBody [] store0)
  ∧ snd (fromBytes bareDeserialize bareDeserializeBody [] store0)
    = Err DecodeError.
Proof.
  assert (H1 : bareDeserialize [] = Some {| bodybytes := []; sigmap := None |})
    by reflexivity.
  assert (H2 : bareDeserializeBody
                 (bodybytes {| bodybytes := []; sigmap := None |}) = None)
    by reflexivity.
  repeat (split; [assumption|]).
  split.
  - exact (proj1 (X17_fromBytes_errors bareDeserialize bareDeserializeBody []
                    store0)).
  - exact (proj1 (proj2 (proj2 (X17_fromBytes_errors bareDeserialize
                                  bareDeserializeBody [] store0)) _ H1) H2).
Defined.

End TxMoreCases.

Module ErrorsTsCases.
Import ErrorsTs ErrorsTsFacts MoreExamples.

Lemma X19_witness :
  NoDup someCodes.*2 ∧ ("SUCCESS"%string, 22%Z) ∈ someCodes
  ∧ codeName (newHederaError someCodes (λ _, "22"%string) 22) = "SUCCESS"%string.
Proof.
  assert (Hn : NoDup someCodes.*2)
    by (apply (bool_decide_unpack _); vm_compute; exact I).
  assert (Hin : ("SUCCESS"%string, 22%Z) ∈ someCodes)
    by (apply (bool_decide_unpack _); vm_compute; exact I).
  repeat (split; [assumption|]).
  exact (proj2 (proj2 (proj2 (proj2
           (X19_HederaError_names someCodes (λ _, "22"%string) 22%Z))))
           Hn _ Hin).
Defined.

End ErrorsTsCases.

Module ContractLogCases.
Import ContractLog ContractLogFacts Examples MoreExamples.

Lemma X20_witness :
  default node3 (Some (contractId _ logInfo0)) = contractId _ logInfo0
  ∧ _fromProtobuf _ _ (default node3)
      (_toProtobuf _ _ (λ a : AccountId, a) logInfo0) = logInfo0.
Proof.
  assert (H : default node3 (Some (contractId _ logInfo0))
              = contractId _ logInfo0) by reflexivity.
  split; [assumption|].
  exact (proj1 (X20_log_info_round_trip AccountId AccountId (default node3)
                  (λ a, a) logInfo0
                  (mkIContractLoginfo AccountId None None None None)) H).
Defined.

End ContractLogCases.
